(** * Quake 2 BSP analyser (server.js): a shallow embedding and its properties

    The development follows the section "BSP parsing (Quake 2 IBSP v38)" of
    [src/server.js]: [classifyClassname], [analyzeBspBuffer], [readCString]
    and [extractFromEntities].

    - A Node [Buffer] is a [list byte]; indices and lump fields are [Z].
    - A JavaScript string is a [string]; every string the analyser builds
      from the buffer goes through [buf.toString('ascii', ..)], which yields
      7-bit characters, so code-unit order is byte order.  The two
      diagnostic templates that hold Cyrillic text are kept as UTF-8.
    - The plain objects used as counters are [gmap string nat]; the [Set]s
      are insertion-ordered duplicate-free lists.
    - A [throw] is the [Throw] constructor of [result]. *)

From Stdlib Require Import ZArith String Ascii Strings.Byte List Bool Lia.
From Stdlib Require Import DecimalString Sorting.Sorted Sorting.Mergesort.
From Stdlib Require Import Orders Permutation.
From stdpp Require Import gmap strings list fin_maps.
Import ListNotations.

Open Scope string_scope.
Open Scope Z_scope.

(** ** Exceptions *)

Inductive exn : Type :=
  | JsError (msg : string)   (* [new Error(msg)] *)
  | RangeError.              (* ERR_OUT_OF_RANGE of the Buffer readers *)

Inductive result (A : Type) : Type :=
  | Ok (a : A)
  | Throw (e : exn).

Arguments Ok {A} a.
Arguments Throw {A} e.

Definition bind {A B} (m : result A) (f : A → result B) : result B :=
  match m with
  | Ok a => f a
  | Throw e => Throw e
  end.

Notation "'let*' x ':=' m 'in' k" := (bind m (fun x => k))
  (at level 10, x name, m at level 100, k at level 200).

(** ** JavaScript string primitives (7-bit range) *)

Module Js.

Definition code (c : ascii) : N := N_of_ascii c.

(** [String.prototype.toLowerCase] on one code unit below 128. *)
Definition lower_char (c : ascii) : ascii :=
  if ((65 <=? code c) && (code c <=? 90))%N
  then ascii_of_N (code c + 32) else c.

(** The canonicalisation used by the [i] flag ([toUpperCase]). *)
Definition upper_char (c : ascii) : ascii :=
  if ((97 <=? code c) && (code c <=? 122))%N
  then ascii_of_N (code c - 32) else c.

Fixpoint toLowerCase (s : string) : string :=
  match s with
  | EmptyString => EmptyString
  | String c s' => String (lower_char c) (toLowerCase s')
  end.

(** WhiteSpace and LineTerminator below 128: TAB LF VT FF CR SP. *)
Definition is_space (c : ascii) : bool :=
  (((9 <=? code c) && (code c <=? 13)) || (code c =? 32))%N.

Fixpoint trimStart (s : string) : string :=
  match s with
  | EmptyString => EmptyString
  | String c s' => if is_space c then trimStart s' else s
  end.

Fixpoint trimEnd (s : string) : string :=
  match s with
  | EmptyString => EmptyString
  | String c s' =>
      match trimEnd s' with
      | EmptyString => if is_space c then EmptyString else String c EmptyString
      | t => String c t
      end
  end.

Definition trim (s : string) : string := trimEnd (trimStart s).

Definition startsWith (s p : string) : bool := String.prefix p s.

(** Truthiness of a string: [!v] is [negb (truthy v)]. *)
Definition truthy (s : string) : bool :=
  match s with EmptyString => false | _ => true end.

(** Truthiness of a field that is [null] or a string. *)
Definition truthy_opt (o : option string) : bool :=
  match o with None => false | Some s => truthy s end.

(** Template interpolation of a number that is an integer. *)
Definition string_of_Z (z : Z) : string :=
  NilZero.string_of_int (Z.to_int z).

End Js.

(** ** Regular expressions

    The patterns of the source use only literals, character classes,
    greedy [*] and [+] on a class, sequence, alternation, [^], [$] and
    capture groups.  [rmatch] is a backtracking matcher in
    continuation-passing style: it tries the alternatives in the
    priority order of ECMAScript. *)

Module Re.

Inductive regex : Type :=
  | Chr (p : ascii → bool)
  | Star (p : ascii → bool)
  | Seq (r1 r2 : regex)
  | Alt (r1 r2 : regex)
  | Bol
  | Eol
  | Eps
  | Group (r : regex).

Definition Plus (p : ascii → bool) : regex := Seq (Chr p) (Star p).

(** A literal character, and the same under the [i] flag. *)
Definition lit (c : ascii) : ascii → bool := fun x => Ascii.eqb x c.
Definition lit_i (c : ascii) : ascii → bool :=
  fun x => Ascii.eqb (Js.upper_char x) (Js.upper_char c).

Fixpoint lits (f : ascii → ascii → bool) (s : string) (k : regex) : regex :=
  match s with
  | EmptyString => k
  | String c s' => Seq (Chr (f c)) (lits f s' k)
  end.

(** A literal word followed by [k]. *)
Definition word (s : string) (k : regex) : regex := lits lit s k.
Definition word_i (s : string) (k : regex) : regex := lits lit_i s k.

(** Greedy iteration of a class, then the continuation; on failure of
    the continuation one character is given back. *)
Fixpoint star {A} (p : ascii → bool) (k : nat → string → option A)
    (pos : nat) (s : string) : option A :=
  match s with
  | String c s' =>
      if p c then
        match star p k (S pos) s' with
        | Some x => Some x
        | None => k pos s
        end
      else k pos s
  | EmptyString => k pos s
  end.

Fixpoint rmatch {A} (r : regex) (pos : nat) (s : string) (caps : list string)
    (k : nat → string → list string → option A) : option A :=
  match r with
  | Chr p =>
      match s with
      | String c s' => if p c then k (S pos) s' caps else None
      | EmptyString => None
      end
  | Star p => star p (fun pos' s' => k pos' s' caps) pos s
  | Seq r1 r2 =>
      rmatch r1 pos s caps (fun pos' s' caps' => rmatch r2 pos' s' caps' k)
  | Alt r1 r2 =>
      match rmatch r1 pos s caps k with
      | Some x => Some x
      | None => rmatch r2 pos s caps k
      end
  | Bol => if (pos =? 0)%nat then k pos s caps else None
  | Eol => match s with EmptyString => k pos s caps | _ => None end
  | Eps => k pos s caps
  | Group r1 =>
      rmatch r1 pos s caps
        (fun pos' s' caps' =>
           k pos' s' (caps' ++ [String.substring 0 (pos' - pos) s])%list)
  end.

(** A match anchored at [pos]: end position, rest of the input, captures. *)
Definition match_here (r : regex) (pos : nat) (s : string)
    : option (nat * string * list string) :=
  rmatch r pos s [] (fun pos' s' caps => Some (pos', s', caps)).

(** Leftmost match at or after [pos]; [s] is the input from [pos] on. *)
Fixpoint search (r : regex) (pos : nat) (s : string)
    : option (nat * (nat * string * list string)) :=
  match match_here r pos s with
  | Some m => Some (pos, m)
  | None =>
      match s with
      | String _ s' => search r (S pos) s'
      | EmptyString => None
      end
  end.

(** [re.test(s)] for a pattern without the [g] flag. *)
Definition test (r : regex) (s : string) : bool :=
  match search r 0 s with Some _ => true | None => false end.

(** [s.replace(re, repl)] for a pattern without the [g] flag. *)
Definition replace (r : regex) (repl : string) (s : string) : string :=
  match search r 0 s with
  | Some (st, (_, rest, _)) => String.substring 0 st s ++ repl ++ rest
  | None => s
  end.

(** [s.replace(re, repl)] with the [g] flag.  [skip] counts the
    characters of the last match that are still to be passed over. *)
Fixpoint replace_all (r : regex) (repl : string) (pos : nat) (s : string)
    (skip : nat) : string :=
  match skip with
  | S n =>
      match s with
      | String _ s' => replace_all r repl (S pos) s' n
      | EmptyString => EmptyString
      end
  | O =>
      match match_here r pos s with
      | Some (pos', _, _) =>
          repl ++
          match s with
          | String c s' =>
              if (pos' =? pos)%nat
              then String c (replace_all r repl (S pos) s' 0)
              else replace_all r repl (S pos) s' (pos' - pos - 1)
          | EmptyString => EmptyString
          end
      | None =>
          match s with
          | String c s' => String c (replace_all r repl (S pos) s' 0)
          | EmptyString => EmptyString
          end
      end
  end.

(** The loop [while ((m = re.exec(txt)) !== null)] with the [g] flag:
    the captures of every match, left to right, each search starting
    at [lastIndex], the end of the previous match. *)
Fixpoint exec_all (r : regex) (pos : nat) (s : string) (skip : nat)
    : list (list string) :=
  match skip with
  | S n =>
      match s with
      | String _ s' => exec_all r (S pos) s' n
      | EmptyString => []
      end
  | O =>
      match match_here r pos s with
      | Some (pos', _, caps) =>
          caps ::
          match s with
          | String _ s' => exec_all r (S pos) s' (pos' - pos - 1)
          | EmptyString => []
          end
      | None =>
          match s with
          | String _ s' => exec_all r (S pos) s' 0
          | EmptyString => []
          end
      end
  end.

End Re.

(** ** Node's Buffer *)

Module Buffer.

Definition len (buf : list byte) : Z := Z.of_nat (List.length buf).

(** [buf[i]]: [None] is [undefined], the value outside [0 .. len-1]. *)
Definition get (buf : list byte) (i : Z) : option byte :=
  if i <? 0 then None else nth_error buf (Z.to_nat i).

Definition u8 (b : byte) : Z := Z.of_N (Byte.to_N b).

(** The 32-bit result of [x << 24]. *)
Definition shl24 (x : Z) : Z :=
  let u := (x * 2 ^ 24) mod 2 ^ 32 in
  if u <? 2 ^ 31 then u else u - 2 ^ 32.

(** [buf.readInt32LE(off)] for an integer [off]: a bounds error when the
    first or the last byte is [undefined]. *)
Definition readInt32LE (buf : list byte) (off : Z) : result Z :=
  match get buf off, get buf (off + 3) with
  | Some first, Some last =>
      match get buf (off + 1), get buf (off + 2) with
      | Some b1, Some b2 =>
          Ok (u8 first + u8 b1 * 2 ^ 8 + u8 b2 * 2 ^ 16 + shl24 (u8 last))
      | _, _ => Throw RangeError
      end
  | _, _ => Throw RangeError
  end.

(** Decoding of one byte by the ['ascii'] encoding: the high bit is
    cleared. *)
Definition ascii_char (b : byte) : ascii :=
  match ascii_of_byte b with
  | Ascii b0 b1 b2 b3 b4 b5 b6 _ => Ascii b0 b1 b2 b3 b4 b5 b6 false
  end.

Fixpoint decode (bs : list byte) : string :=
  match bs with
  | [] => EmptyString
  | b :: bs' => String (ascii_char b) (decode bs')
  end.

(** [buf.toString('ascii', start, end)] for integer bounds: [start] below
    zero counts as zero, [end] beyond the buffer as its length, and an
    empty or inverted range gives the empty string. *)
Definition toString (buf : list byte) (start end_ : Z) : string :=
  let n := len buf in
  if (0 <? start) && (n <=? start) then EmptyString
  else
    let start := if start <=? 0 then 0 else start in
    let end_ := if n <? end_ then n else end_ in
    if end_ <=? start then EmptyString
    else decode (firstn (Z.to_nat (end_ - start)) (skipn (Z.to_nat start) buf)).

End Buffer.

(** ** [Set] of strings and [Array.from(set).sort()] *)

(** [set.add(x)]: insertion order is kept, a present element is not added. *)
Definition set_add (x : string) (s : list string) : list string :=
  if existsb (String.eqb x) s then s else (s ++ [x])%list.

Module StringOrder <: TotalLeBool.
Definition t := string.
Definition leb := String.leb.
Definition leb_total : ∀ a b, leb a b = true ∨ leb b a = true :=
  String.leb_total.
End StringOrder.

Module StringSort := Sort StringOrder.

(** The default comparison of [Array.prototype.sort] orders strings by
    code units. *)
Definition sort_strings (l : list string) : list string := StringSort.sort l.

(** ** BSP parsing (Quake 2 IBSP v38) *)

Definition Q2_MAGIC : string := "IBSP".
Definition Q2_VERSION : Z := 38.
Definition LUMP_ENTITIES : nat := 0.
Definition LUMP_TEXINFO : nat := 5.
Definition DTEXINFO_SIZE : Z := 76.

Record Lump := mkLump { lump_offset : Z; lump_length : Z }.

Record SpawnPoints := mkSpawnPoints {
  deathmatch : nat;
  coop : nat;
  start : nat;
  intermission : nat
}.

Record EntityStats := mkEntityStats {
  weapons : gmap string nat;
  armors : gmap string nat;
  spawnPoints : SpawnPoints;
  items : gmap string nat
}.

Record WorldInfo := mkWorldInfo {
  wi_name : option string;
  wi_version : option string
}.

(** The object [out] that [extractFromEntities] updates. *)
Record Out := mkOut {
  o_skies : list string;
  o_sounds : list string;
  o_models : list string;
  o_others : list string;
  o_entityStats : EntityStats;
  o_worldInfo : WorldInfo
}.

Record AnalysisResult := mkAnalysisResult {
  errors : list string;
  warnings : list string;
  mapName : option string;
  mapVersion : option string;
  textures : list string;
  skies : list string;
  sounds : list string;
  models : list string;
  others : list string;
  entityStats : EntityStats
}.

Definition createEmptyEntityStats : EntityStats :=
  {| weapons := ∅;
     armors := ∅;
     spawnPoints := {| deathmatch := 0; coop := 0; start := 0; intermission := 0 |};
     items := ∅ |}.

(** [map[key] = (map[key] || 0) + 1].  The keys that [classifyClassname]
    passes start with [weapon_] or [item_armor_] or belong to the
    allowlist, so none of them is a property inherited by a plain object. *)
Definition inc (map : gmap string nat) (key : string) : gmap string nat :=
  <[key := (default 0 (map !! key) + 1)%nat]> map.

Definition interestingItems : list string :=
  [ "item_health"; "item_health_large"; "item_health_mega"; "item_quad";
    "item_invulnerability"; "item_adrenaline"; "item_bandolier"; "item_pack";
    "item_power_screen"; "item_power_shield" ].

Definition set_has (s : list string) (x : string) : bool :=
  existsb (String.eqb x) s.

Definition with_spawnPoints (st : EntityStats) (sp : SpawnPoints) : EntityStats :=
  {| weapons := weapons st; armors := armors st; spawnPoints := sp;
     items := items st |}.

Definition classifyClassname (cls : string) (st : EntityStats) : EntityStats :=
  if Js.startsWith cls "weapon_" then
    {| weapons := inc (weapons st) cls; armors := armors st;
       spawnPoints := spawnPoints st; items := items st |}
  else if Js.startsWith cls "item_armor_" then
    {| weapons := weapons st; armors := inc (armors st) cls;
       spawnPoints := spawnPoints st; items := items st |}
  else if Js.startsWith cls "info_player_" then
    let sp := spawnPoints st in
    if String.eqb cls "info_player_deathmatch" then
      with_spawnPoints st
        {| deathmatch := S (deathmatch sp); coop := coop sp; start := start sp;
           intermission := intermission sp |}
    else if String.eqb cls "info_player_start" then
      with_spawnPoints st
        {| deathmatch := deathmatch sp; coop := coop sp; start := S (start sp);
           intermission := intermission sp |}
    else if String.eqb cls "info_player_coop" then
      with_spawnPoints st
        {| deathmatch := deathmatch sp; coop := S (coop sp); start := start sp;
           intermission := intermission sp |}
    else if String.eqb cls "info_player_intermission" then
      with_spawnPoints st
        {| deathmatch := deathmatch sp; coop := coop sp; start := start sp;
           intermission := S (intermission sp) |}
    else st
  else if set_has interestingItems cls then
    {| weapons := weapons st; armors := armors st;
       spawnPoints := spawnPoints st; items := inc (items st) cls |}
  else st.


(** *** The patterns of the source *)

Infix ">>" := Re.Seq (at level 63, right associativity).
Infix "<|>" := Re.Alt (at level 64, right associativity).

Definition dquote : ascii := "034"%char.
Definition backslash : ascii := "092"%char.
Definition slash : ascii := "/"%char.
Definition nul : ascii := "000"%char.

Definition dq : string := String dquote EmptyString.

Definition not_dquote (c : ascii) : bool := negb (Ascii.eqb c dquote).
Definition is_sep (c : ascii) : bool := Ascii.eqb c backslash || Ascii.eqb c slash.

(** The pair pattern of [extractFromEntities], used with the [g] flag: a
    double quote, group 1 of one or more characters other than the double
    quote, a double quote, any white space, a double quote, group 2 of zero
    or more characters other than the double quote, a double quote. *)
Definition re_pair : Re.regex :=
  Re.Chr (Re.lit dquote) >> Re.Group (Re.Plus not_dquote) >> Re.Chr (Re.lit dquote)
  >> Re.Star Js.is_space
  >> Re.Chr (Re.lit dquote) >> Re.Group (Re.Star not_dquote) >> Re.Chr (Re.lit dquote).

(** [\\] and [\0], both used with the [g] flag *)
Definition re_backslash : Re.regex := Re.Chr (Re.lit backslash).
Definition re_nul : Re.regex := Re.Chr (Re.lit nul).

(** [^textures[\\/]+] with the [i] flag *)
Definition re_textures_prefix : Re.regex :=
  Re.Bol >> Re.word_i "textures" (Re.Plus is_sep).

(** [^sound] *)
Definition re_sound_key : Re.regex := Re.Bol >> Re.word "sound" Re.Eps.

(** [^sound\/] with the [i] flag *)
Definition re_sound_dir : Re.regex :=
  Re.Bol >> Re.word_i "sound" (Re.Chr (Re.lit slash)).

(** [\.(wav|ogg|mp3)$] with the [i] flag *)
Definition re_sound_ext : Re.regex :=
  Re.Chr (Re.lit ".")
  >> Re.Group (Re.word_i "wav" Re.Eps <|> Re.word_i "ogg" Re.Eps <|> Re.word_i "mp3" Re.Eps)
  >> Re.Eol.

(** [^models\/] with the [i] flag *)
Definition re_models_dir : Re.regex :=
  Re.Bol >> Re.word_i "models" (Re.Chr (Re.lit slash)).

(** [\.(md2|sp2|iqm|md3)$] with the [i] flag *)
Definition re_model_ext : Re.regex :=
  Re.Chr (Re.lit ".")
  >> Re.Group (Re.word_i "md2" Re.Eps <|> Re.word_i "sp2" Re.Eps
               <|> Re.word_i "iqm" Re.Eps <|> Re.word_i "md3" Re.Eps)
  >> Re.Eol.

(** [^path|file|script|shader$] with the [i] flag *)
Definition re_other_key : Re.regex :=
  (Re.Bol >> Re.word_i "path" Re.Eps)
  <|> Re.word_i "file" Re.Eps
  <|> Re.word_i "script" Re.Eps
  <|> Re.word_i "shader" Re.Eol.

(** [v.replace(/\\/g, '/')] *)
Definition slashes (v : string) : string :=
  Re.replace_all re_backslash "/" 0 v 0.

(** *** readCString *)

(** The loop [for (; i < end; i++) if (buf[i] === 0) break;], run for at
    most [n] iterations from [i]. *)
Fixpoint scan_nul (buf : list byte) (i : Z) (n : nat) : Z :=
  match n with
  | O => i
  | S n' =>
      match Buffer.get buf i with
      | Some b => if Buffer.u8 b =? 0 then i else scan_nul buf (i + 1) n'
      | None => scan_nul buf (i + 1) n'
      end
  end.

Definition readCString (buf : list byte) (start maxLen : Z) : string :=
  let end_ := Z.min (start + maxLen) (Buffer.len buf) in
  let i := scan_nul buf start (Z.to_nat (end_ - start)) in
  Js.trim (Re.replace_all re_nul "" 0 (Buffer.toString buf start i) 0).

(** *** extractFromEntities *)

(** The first loop: every match of [re_pair], key lowercased. *)
Definition entity_pairs (txt : string) : list (string * string) :=
  map (fun m => (Js.toLowerCase (nth 0 m ""), nth 1 m ""))
      (Re.exec_all re_pair 0 txt 0).

Definition set_name (out : Out) (v : string) : Out :=
  {| o_skies := o_skies out; o_sounds := o_sounds out; o_models := o_models out;
     o_others := o_others out; o_entityStats := o_entityStats out;
     o_worldInfo := {| wi_name := Some v;
                       wi_version := wi_version (o_worldInfo out) |} |}.

Definition set_version (out : Out) (v : string) : Out :=
  {| o_skies := o_skies out; o_sounds := o_sounds out; o_models := o_models out;
     o_others := o_others out; o_entityStats := o_entityStats out;
     o_worldInfo := {| wi_name := wi_name (o_worldInfo out);
                       wi_version := Some v |} |}.

Definition set_stats (out : Out) (st : EntityStats) : Out :=
  {| o_skies := o_skies out; o_sounds := o_sounds out; o_models := o_models out;
     o_others := o_others out; o_entityStats := st;
     o_worldInfo := o_worldInfo out |}.

Definition add_sky (out : Out) (x : string) : Out :=
  {| o_skies := set_add x (o_skies out); o_sounds := o_sounds out;
     o_models := o_models out; o_others := o_others out;
     o_entityStats := o_entityStats out; o_worldInfo := o_worldInfo out |}.

Definition add_sound (out : Out) (x : string) : Out :=
  {| o_skies := o_skies out; o_sounds := set_add x (o_sounds out);
     o_models := o_models out; o_others := o_others out;
     o_entityStats := o_entityStats out; o_worldInfo := o_worldInfo out |}.

Definition add_model (out : Out) (x : string) : Out :=
  {| o_skies := o_skies out; o_sounds := o_sounds out;
     o_models := set_add x (o_models out); o_others := o_others out;
     o_entityStats := o_entityStats out; o_worldInfo := o_worldInfo out |}.

Definition add_other (out : Out) (x : string) : Out :=
  {| o_skies := o_skies out; o_sounds := o_sounds out;
     o_models := o_models out; o_others := set_add x (o_others out);
     o_entityStats := o_entityStats out; o_worldInfo := o_worldInfo out |}.

(** The map name and map version tests of one iteration. *)
Definition world_step (k v : string) (out : Out) : Out :=
  let out :=
    if (String.eqb k "message" || String.eqb k "map" || String.eqb k "mapname")
       && negb (Js.truthy_opt (wi_name (o_worldInfo out)))
    then set_name out v else out in
  if (String.eqb k "mapversion" || String.eqb k "version")
     && negb (Js.truthy_opt (wi_version (o_worldInfo out)))
  then set_version out v else out.

(** The [classname] test of one iteration. *)
Definition class_step (k v : string) (out : Out) : Out :=
  if String.eqb k "classname"
  then set_stats out (classifyClassname (Js.toLowerCase v) (o_entityStats out))
  else out.

(** The chain [if (k === 'sky') ... else if ...] of one iteration. *)
Definition resource_step (k vv : string) (out : Out) : Out :=
  if String.eqb k "sky" then add_sky out ("env/" ++ vv ++ "*")
  else if String.eqb k "sound" || String.eqb k "noise" || String.eqb k "snd"
          || Re.test re_sound_key k then
    if Re.test re_sound_dir vv || Re.test re_sound_ext vv
    then add_sound out vv
    else add_other out (k ++ "=" ++ vv)
  else if String.eqb k "model" then
    if Re.test re_models_dir vv || Re.test re_model_ext vv
    then add_model out vv
    else add_other out (k ++ "=" ++ vv)
  else if String.eqb k "music" || String.eqb k "cdtrack" || String.eqb k "wav" then
    add_sound out vv
  else if String.eqb k "wad" then add_other out ("wad=" ++ vv)
  else if Re.test re_other_key k then add_other out (k ++ "=" ++ vv)
  else out.

(** The body of [for (const [k, v] of pairs)]. *)
Definition pair_step (out : Out) (kv : string * string) : Out :=
  let '(k, v) := kv in
  if negb (Js.truthy v) then out
  else
    let vv := slashes v in
    resource_step k vv (class_step k v (world_step k v out)).

Definition process_pairs (pairs : list (string * string)) (out : Out) : Out :=
  fold_left pair_step pairs out.

Definition extractFromEntities (txt : string) (out : Out) : Out :=
  process_pairs (entity_pairs txt) out.

(** *** analyzeBspBuffer *)

Definition msg_too_small : string := "Файл слишком мал для BSP заголовка".

Definition msg_signature (magic : string) : string :=
  "Неверная сигнатура: ожидается " ++ dq ++ Q2_MAGIC ++ dq
  ++ ", получено " ++ dq ++ magic ++ dq.

Definition msg_version (version : Z) : string :=
  "Версия BSP " ++ Js.string_of_Z version ++ ". Ожидалась "
  ++ Js.string_of_Z Q2_VERSION ++ " (Quake 2). Попытаюсь разобрать дальше.".

Definition msg_lump_eof : string := "Неожиданный конец файла в таблице лумпов".
Definition msg_entities : string := "ENTITIES лумп отсутствует или поврежден".
Definition msg_texinfo : string :=
  "TEXINFO лумп отсутствует или поврежден — текстуры могут быть не найдены".

(** The loop over the lump table: [n] iterations left, next entry at [off]. *)
Fixpoint read_lumps (buf : list byte) (n : nat) (off : Z)
    (lumps : list Lump) (errs : list string)
    : result (list Lump * list string) :=
  match n with
  | O => Ok (lumps, errs)
  | S n' =>
      if Buffer.len buf <? off + 8 then Ok (lumps, (errs ++ [msg_lump_eof])%list)
      else
        let* lo := Buffer.readInt32LE buf off in
        let* ll := Buffer.readInt32LE buf (off + 4) in
        read_lumps buf n' (off + 8) (lumps ++ [mkLump lo ll])%list errs
  end.

(** The test [x && x.length > 0 && x.offset + x.length <= buf.length]. *)
Definition lump_usable (buf : list byte) (l : option Lump) : bool :=
  match l with
  | None => false
  | Some x =>
      (0 <? lump_length x) && (lump_offset x + lump_length x <=? Buffer.len buf)
  end.

(** [name.replace(/^textures[\\/]+/i, '').replace(/\\/g, '/')] *)
Definition normalize_texture (name : string) : string :=
  slashes (Re.replace re_textures_prefix "" name).

Definition texture_path (name : string) : string :=
  "textures/" ++ normalize_texture name ++ ".wal".

(** The loop over the TEXINFO records: [n] iterations left, index [i]. *)
Fixpoint texinfo_loop (buf : list byte) (tix_offset : Z) (n : nat) (i : Z)
    (textures : list string) : list string :=
  match n with
  | O => textures
  | S n' =>
      let base := tix_offset + i * DTEXINFO_SIZE in
      let name := readCString buf (base + 32 + 4 + 4) 32 in
      let textures :=
        if Js.truthy name then set_add (texture_path name) textures
        else textures in
      texinfo_loop buf tix_offset n' (i + 1) textures
  end.

Definition empty_out : Out :=
  {| o_skies := []; o_sounds := []; o_models := []; o_others := [];
     o_entityStats := createEmptyEntityStats;
     o_worldInfo := {| wi_name := None; wi_version := None |} |}.

(** [x || null] for a field that is [null] or a string. *)
Definition or_null (o : option string) : option string :=
  if Js.truthy_opt o then o else None.

Definition analyzeBspBuffer (buf : list byte) : result AnalysisResult :=
  if Buffer.len buf <? 8 then Throw (JsError msg_too_small)
  else
    let magic := Buffer.toString buf 0 4 in
    let* version := Buffer.readInt32LE buf 4 in
    let errs := if String.eqb magic Q2_MAGIC then [] else [msg_signature magic] in
    let warns := if version =? Q2_VERSION then [] else [msg_version version] in
    let* table := read_lumps buf 19 8 [] errs in
    let '(lumps, errs) := table in
    let ent := nth_error lumps LUMP_ENTITIES in
    let '(out, warns) :=
      match ent with
      | Some e =>
          if lump_usable buf ent then
            let entsTxt :=
              Buffer.toString buf (lump_offset e) (lump_offset e + lump_length e) in
            (extractFromEntities entsTxt empty_out, warns)
          else (empty_out, (warns ++ [msg_entities])%list)
      | None => (empty_out, (warns ++ [msg_entities])%list)
      end in
    let tix := nth_error lumps LUMP_TEXINFO in
    let '(texs, warns) :=
      match tix with
      | Some t =>
          if lump_usable buf tix then
            let count := lump_length t / DTEXINFO_SIZE in
            (texinfo_loop buf (lump_offset t) (Z.to_nat count) 0 [], warns)
          else ([], (warns ++ [msg_texinfo])%list)
      | None => ([], (warns ++ [msg_texinfo])%list)
      end in
    Ok {| errors := errs;
          warnings := warns;
          mapName := or_null (wi_name (o_worldInfo out));
          mapVersion := or_null (wi_version (o_worldInfo out));
          textures := sort_strings texs;
          skies := sort_strings (o_skies out);
          sounds := sort_strings (o_sounds out);
          models := sort_strings (o_models out);
          others := sort_strings (o_others out);
          entityStats := o_entityStats out |}.

(** ** The analysis in closed form

    The stages of [analyzeBspBuffer] written as functions of the buffer;
    [analyze_unfold] shows that the sequential code computes them. *)

(** The value that [readInt32LE] returns where it does not throw. *)
Definition int32_at (buf : list byte) (off : Z) : Z :=
  match Buffer.readInt32LE buf off with
  | Ok v => v
  | Throw _ => 0
  end.

(** Number of complete 8-byte entries from [off] to the end of the buffer. *)
Definition avail (buf : list byte) (off : Z) : nat :=
  Z.to_nat ((Buffer.len buf - off) / 8).

Definition entries_from (buf : list byte) (off : Z) (m : nat) : list Lump :=
  map (fun j => mkLump (int32_at buf (off + 8 * Z.of_nat j))
                       (int32_at buf (off + 8 * Z.of_nat j + 4)))
      (seq 0 m).

(** The directory as the loop of [analyzeBspBuffer] leaves it. *)
Definition lump_table (buf : list byte) : list Lump :=
  entries_from buf 8 (Nat.min 19 (avail buf 8)).

(** A lump that passes the test of its consumer. *)
Definition usable_lump (buf : list byte) (i : nat) : option Lump :=
  match nth_error (lump_table buf) i with
  | Some l => if lump_usable buf (Some l) then Some l else None
  | None => None
  end.

Definition entities_text (buf : list byte) : option string :=
  match usable_lump buf LUMP_ENTITIES with
  | Some e =>
      Some (Buffer.toString buf (lump_offset e) (lump_offset e + lump_length e))
  | None => None
  end.

Definition entities_out (buf : list byte) : Out :=
  match entities_text buf with
  | Some txt => extractFromEntities txt empty_out
  | None => empty_out
  end.

Definition texinfo_set (buf : list byte) : list string :=
  match usable_lump buf LUMP_TEXINFO with
  | Some t =>
      texinfo_loop buf (lump_offset t)
        (Z.to_nat (lump_length t / DTEXINFO_SIZE)) 0 []
  | None => []
  end.

(** The diagnostics in the order in which the code pushes them. *)
Definition emitted_errors (buf : list byte) : list string :=
  ((if String.eqb (Buffer.toString buf 0 4) Q2_MAGIC then []
    else [msg_signature (Buffer.toString buf 0 4)])
   ++ (if Buffer.len buf <? 160 then [msg_lump_eof] else []))%list.

Definition emitted_warnings (buf : list byte) : list string :=
  ((if int32_at buf 4 =? Q2_VERSION then [] else [msg_version (int32_at buf 4)])
   ++ (match usable_lump buf LUMP_ENTITIES with Some _ => [] | None => [msg_entities] end)
   ++ (match usable_lump buf LUMP_TEXINFO with Some _ => [] | None => [msg_texinfo] end))%list.

Definition analysis (buf : list byte) : AnalysisResult :=
  {| errors := emitted_errors buf;
     warnings := emitted_warnings buf;
     mapName := or_null (wi_name (o_worldInfo (entities_out buf)));
     mapVersion := or_null (wi_version (o_worldInfo (entities_out buf)));
     textures := sort_strings (texinfo_set buf);
     skies := sort_strings (o_skies (entities_out buf));
     sounds := sort_strings (o_sounds (entities_out buf));
     models := sort_strings (o_models (entities_out buf));
     others := sort_strings (o_others (entities_out buf));
     entityStats := o_entityStats (entities_out buf) |}.

(** Two buffers that differ at most in their first four bytes. *)
Definition same_tail (b1 b2 : list byte) : Prop :=
  List.length b1 = List.length b2 ∧ skipn 4 b1 = skipn 4 b2.

(** ** Prefixes, substrings and suffixes

    The words "starts with", "contains" and "ends with" as functions, each
    relative to a comparison [f c x] of a pattern character [c] with an
    input character [x]. *)

Module Str.

(** [strip f w s]: the rest of [s] after the prefix [w], if it is one. *)
Fixpoint strip (f : ascii → ascii → bool) (w s : string) : option string :=
  match w with
  | EmptyString => Some s
  | String c w' =>
      match s with
      | String x s' => if f c x then strip f w' s' else None
      | EmptyString => None
      end
  end.

Definition has_prefix (f : ascii → ascii → bool) (w s : string) : bool :=
  match strip f w s with Some _ => true | None => false end.

Definition equal (f : ascii → ascii → bool) (w s : string) : bool :=
  match strip f w s with Some EmptyString => true | _ => false end.

Fixpoint contains (f : ascii → ascii → bool) (w s : string) : bool :=
  has_prefix f w s ||
  match s with
  | String _ s' => contains f w s'
  | EmptyString => false
  end.

Fixpoint ends_with (f : ascii → ascii → bool) (w s : string) : bool :=
  equal f w s ||
  match s with
  | String _ s' => ends_with f w s'
  | EmptyString => false
  end.

(** Replacement of every character [a] by [b], and removal of [a]. *)
Fixpoint subst_char (a b : ascii) (s : string) : string :=
  match s with
  | EmptyString => EmptyString
  | String c s' => String (if Ascii.eqb c a then b else c) (subst_char a b s')
  end.

Fixpoint remove_char (a : ascii) (s : string) : string :=
  match s with
  | EmptyString => EmptyString
  | String c s' => if Ascii.eqb c a then remove_char a s' else String c (remove_char a s')
  end.

(** The longest prefix removed whose characters satisfy [p]. *)
Fixpoint drop_while (p : ascii → bool) (s : string) : string :=
  match s with
  | String c s' => if p c then drop_while p s' else s
  | EmptyString => EmptyString
  end.

End Str.

(** [test] is a disjunction over the start positions. *)
Fixpoint anywhere (f : nat → string → bool) (pos : nat) (s : string) : bool :=
  f pos s ||
  match s with
  | String _ s' => anywhere f (S pos) s'
  | EmptyString => false
  end.

Definition matches_here (r : Re.regex) (pos : nat) (s : string) : bool :=
  match Re.match_here r pos s with Some _ => true | None => false end.

(** ** Texture names *)

(** What [name.replace(/^textures[\\/]+/i, '')] returns: the name without
    a leading "textures" (in any case) and the whole run of separators
    after it; a name without that prefix is returned as it is. *)
Definition strip_textures (name : string) : string :=
  match Str.strip Re.lit_i "textures" name with
  | Some (String c rest) => if is_sep c then Str.drop_while is_sep rest else name
  | _ => name
  end.

(** Whether the first character is a slash or a backslash. *)
Definition head_is_sep (s : string) : bool :=
  match s with
  | String c _ => is_sep c
  | EmptyString => false
  end.

Definition textures_bs : string := "textures" ++ String backslash EmptyString.

(** One iteration of the TEXINFO loop on the set of textures. *)
Definition add_texture (acc : list string) (name : string) : list string :=
  if Js.truthy name then set_add (texture_path name) acc else acc.

(** Index of the first zero byte, or the length if there is none. *)
Fixpoint zero_index (field : list byte) : nat :=
  match field with
  | [] => 0
  | b :: rest => if Buffer.u8 b =? 0 then 0%nat else S (zero_index rest)
  end.

Definition cstring_of (field : list byte) : string :=
  Js.trim (Str.remove_char nul (Buffer.decode (firstn (zero_index field) field))).

(** The 32 bytes of the name field of record [i] of a lump at [off]. *)
Definition name_field (buf : list byte) (off : Z) (i : nat) : list byte :=
  firstn 32 (skipn (Z.to_nat (off + Z.of_nat i * DTEXINFO_SIZE + 40)) buf).

(** The names that the loop over [n] records reads, first record first. *)
Definition record_names (buf : list byte) (off : Z) (n : nat) : list string :=
  map (fun i => readCString buf (off + Z.of_nat i * DTEXINFO_SIZE + 32 + 4 + 4) 32)
      (seq 0 n).

(** The normalisation as the specification words it: one leading
    "textures" with one slash or one backslash removed without regard to
    case, every backslash replaced by a slash. *)
Definition spec_strip_prefix (name : string) : string :=
  if Str.has_prefix Re.lit_i "textures/" name
     || Str.has_prefix Re.lit_i textures_bs name
  then String.substring 9 (String.length name - 9) name
  else name.

Definition spec_texture_path (name : string) : string :=
  "textures/" ++ Str.subst_char backslash slash (spec_strip_prefix name) ++ ".wal".

(** ** Pairs, counters and sets *)

Definition is_name_key (k : string) : bool :=
  String.eqb k "message" || String.eqb k "map" || String.eqb k "mapname".

Definition is_version_key (k : string) : bool :=
  String.eqb k "mapversion" || String.eqb k "version".

(** The value of the first pair, in stream order, that has a non-empty
    value and a key accepted by [p]. *)
Definition first_value (p : string → bool) (pairs : list (string * string))
    : option string :=
  match List.filter (fun kv => Js.truthy (snd kv) && p (fst kv)) pairs with
  | [] => None
  | kv :: _ => Some (snd kv)
  end.

(** The lowercased values of the [classname] pairs with a non-empty value. *)
Definition classnames (pairs : list (string * string)) : list string :=
  map (fun kv => Js.toLowerCase (snd kv))
      (List.filter (fun kv => Js.truthy (snd kv) && String.eqb (fst kv) "classname") pairs).

(** The count that a counter object holds for a key. *)
Definition count (m : gmap string nat) (k : string) : nat := default 0%nat (m !! k).

Definition spawn_names : list string :=
  [ "info_player_deathmatch"; "info_player_start"; "info_player_coop";
    "info_player_intermission" ].

(** Strictly ascending in the lexicographic order of the code units. *)
Definition ascending (l : list string) : Prop :=
  StronglySorted (fun a b => String.ltb a b = true) l.

(** The four buckets of [out] hold no element twice. *)
Definition buckets_nodup (out : Out) : Prop :=
  NoDup (o_skies out) ∧ NoDup (o_sounds out)
  ∧ NoDup (o_models out) ∧ NoDup (o_others out).

(** ** Sample inputs *)

Definition quoted (s : string) : string := dq ++ s ++ dq.

(** One pair of an entity block: the key and the value in double quotes. *)
Definition kv (k v : string) : string := quoted k ++ " " ++ quoted v.

Definition byte_of_Z (z : Z) : byte :=
  byte_of_ascii (ascii_of_N (Z.to_N (z mod 256))).

(** The four bytes of a 32-bit integer, least significant first. *)
Definition le32 (z : Z) : list byte :=
  [byte_of_Z z; byte_of_Z (z / 2 ^ 8); byte_of_Z (z / 2 ^ 16); byte_of_Z (z / 2 ^ 24)].

Definition bytes_of (s : string) : list byte := list_byte_of_string s.

(** A complete directory of 19 entries given by [f]. *)
Definition directory (f : nat → Z * Z) : list byte :=
  flat_map (fun i => le32 (fst (f i)) ++ le32 (snd (f i)))%list (seq 0 19).

(** A header followed by a complete directory. *)
Definition bsp_head (magic : string) (version : Z) (f : nat → Z * Z) : list byte :=
  (bytes_of magic ++ le32 version ++ directory f)%list.

(** One TEXINFO record (76 bytes) with [name] in the 32-byte field at 40. *)
Definition texinfo_record (name : string) : list byte :=
  (repeat x00 40 ++ bytes_of name
   ++ repeat x00 (32 - String.length name) ++ repeat x00 4)%list.

(** A well-formed file whose ENTITIES lump holds [txt], placed right after
    the directory. *)
Definition bsp_with_entities (magic : string) (version : Z) (txt : string)
    : list byte :=
  (bsp_head magic version
     (fun i => if (i =? 0)%nat then (160, Z.of_nat (String.length txt)) else (0, 0))
   ++ bytes_of txt)%list.

(** A file with its ENTITIES text after the directory and its TEXINFO
    records after the text. *)
Definition bsp_sample (magic : string) (version : Z) (txt : string)
    (names : list string) : list byte :=
  (bsp_head magic version
     (fun i =>
        if (i =? 0)%nat then (160, Z.of_nat (String.length txt))
        else if (i =? 5)%nat
             then (160 + Z.of_nat (String.length txt), 76 * Z.of_nat (List.length names))
             else (0, 0))
   ++ bytes_of txt ++ flat_map texinfo_record names)%list.

Definition shotgun_text : string :=
  "{ " ++ kv "classname" "weapon_shotgun" ++ " } { "
  ++ kv "classname" "weapon_shotgun" ++ " } { "
  ++ kv "origin" "0 0 0" ++ " " ++ kv "classname" "weapon_shotgun" ++ " }".

Definition spawn_text : string :=
  "{ " ++ kv "classname" "info_player_deathmatch" ++ " } { "
  ++ kv "classname" "info_player_start" ++ " } { "
  ++ kv "classname" "info_player_team1" ++ " } { "
  ++ kv "classname" "info_player_deathmatch" ++ " }".

Definition frag_text : string :=
  "{ " ++ kv "classname" "worldspawn" ++ " " ++ kv "message" "Frag Pit" ++ " } { "
  ++ kv "classname" "target_help" ++ " " ++ kv "message" "Other Name" ++ " }".

Definition dup_text : string :=
  "{ " ++ kv "noise" "world/amb1.wav" ++ " " ++ kv "sky" "unit1_" ++ " } { "
  ++ kv "noise" "world/amb1.wav" ++ " " ++ kv "noise" "world/amb0.wav" ++ " }".

Definition dup_buf : list byte :=
  bsp_sample "XXXX" 39 dup_text ["e1u1/wall01"; "e1u1/floor"; "e1u1/wall01"].

(** [dup_buf] with the signature of a Quake 2 file. *)
Definition dup_buf_ibsp : list byte :=
  bsp_sample "IBSP" 39 dup_text ["e1u1/wall01"; "e1u1/floor"; "e1u1/wall01"].

(** A header of version 39 and a directory of empty lumps. *)
Definition bare_buf : list byte := bsp_head "IBSP" 39 (fun _ => (0, 0)).

Definition double_sep_buf : list byte :=
  bsp_sample "IBSP" 38 "" ["textures//a"].

Definition wall_buf : list byte :=
  bsp_sample "IBSP" 38 "" ["e1u1/wall01"].

(** A well-formed header and directory whose TEXINFO entry has offset -40
    and length 76. *)
Definition neg_texinfo_buf : list byte :=
  bsp_head "IBSP" 38 (fun i => if (i =? 5)%nat then (-40, 76) else (0, 0)).

(** A file whose ENTITIES entry has offset -1 and a length that ends at the
    end of the file. *)
Definition neg_entities_buf : list byte :=
  (bsp_head "IBSP" 38
     (fun i => if (i =? 0)%nat
               then (-1, 161 + Z.of_nat (String.length shotgun_text))
               else (0, 0))
   ++ bytes_of shotgun_text)%list.


(** ** Further definitions *)

(** Whether every character of a string satisfies [p]. *)
Fixpoint string_forall (p : ascii → bool) (s : string) : bool :=
  match s with
  | EmptyString => true
  | String c s' => p c && string_forall p s'
  end.

(** A buffer of 48 bytes that holds only a header and five directory
    entries: any name field of a record lies beyond its end. *)
Definition short_buf : list byte :=
  (bytes_of "IBSP" ++ le32 38 ++ repeat x41 40)%list.

(** A string without a backslash. *)
Definition no_backslash (s : string) : Prop :=
  string_forall (fun c => negb (Ascii.eqb c backslash)) s = true.

(** A well-formed file: right signature and version, a complete directory,
    an ENTITIES text and two TEXINFO records. *)
Definition clean_buf : list byte :=
  bsp_sample "IBSP" 38
    ("{ " ++ kv "classname" "worldspawn" ++ " " ++ kv "sky" "unit1_" ++ " } { "
     ++ kv "classname" "target_speaker" ++ " " ++ kv "noise" "world\amb1.wav"
     ++ " }")
    ["e1u1/wall01"; "textures\e1u1\floor"].

(** The skies, sounds and models of [out] hold no backslash. *)
Definition paths_ok (out : Out) : Prop :=
  Forall no_backslash (o_skies out) ∧ Forall no_backslash (o_sounds out)
  ∧ Forall no_backslash (o_models out).

(** The first 50 bytes of [clean_buf]: the header and five directory
    entries, the sixth cut short. *)
Definition cut_buf : list byte := firstn 50 clean_buf.

(** ** Helpers of the HTTP layer *)

(** [s.replace(re, fn)] with the [g] flag and a function [fn] of the
    matched text; [skip] as in [Re.replace_all]. *)
Fixpoint replace_all_with (r : Re.regex) (fn : string → string) (pos : nat)
    (s : string) (skip : nat) : string :=
  match skip with
  | S n =>
      match s with
      | String _ s' => replace_all_with r fn (S pos) s' n
      | EmptyString => EmptyString
      end
  | O =>
      match Re.match_here r pos s with
      | Some (pos', _, _) =>
          fn (String.substring 0 (pos' - pos) s) ++
          match s with
          | String c s' =>
              if (pos' =? pos)%nat
              then String c (replace_all_with r fn (S pos) s' 0)
              else replace_all_with r fn (S pos) s' (pos' - pos - 1)
          | EmptyString => EmptyString
          end
      | None =>
          match s with
          | String c s' => String c (replace_all_with r fn (S pos) s' 0)
          | EmptyString => EmptyString
          end
      end
  end.

Definition squote : ascii := "039"%char.

(** The class of [htmlEscape]: ampersand, less-than, greater-than, double
    quote and single quote. *)
Definition is_html_special (c : ascii) : bool :=
  Ascii.eqb c "&" || Ascii.eqb c "<" || Ascii.eqb c ">"
  || Ascii.eqb c dquote || Ascii.eqb c squote.

(** The object literal of [htmlEscape], looked up with the matched text;
    [None] is [undefined]. *)
Definition html_entity (c : string) : option string :=
  if String.eqb c "&" then Some "&amp;"
  else if String.eqb c "<" then Some "&lt;"
  else if String.eqb c ">" then Some "&gt;"
  else if String.eqb c dq then Some "&quot;"
  else if String.eqb c (String squote EmptyString) then Some "&#39;"
  else None.

(** The string that [replace] inserts for the value a callback returns. *)
Definition callback_result (o : option string) : string :=
  match o with Some e => e | None => "undefined" end.

Definition htmlEscape (s : string) : string :=
  replace_all_with (Re.Chr is_html_special)
    (fun c => callback_result (html_entity c)) 0 s 0.

(** The pattern [\.bsp$] with the [i] flag, of [fileFilter] and
    [getBaseMapName]. *)
Definition re_bsp_ext : Re.regex :=
  Re.Chr (Re.lit ".") >> Re.word_i "bsp" Re.Eol.

Definition msg_only_bsp : string := "Разрешены только .bsp".

(** The [fileFilter] of the upload: [Throw e] is [cb(e)], [Ok true] is
    [cb(null, true)]. *)
Definition fileFilter (originalname : string) : result bool :=
  if negb (Re.test re_bsp_ext originalname) then Throw (JsError msg_only_bsp)
  else Ok true.

(** [getBaseMapName]; [None] is a file name that is [null] or [undefined]. *)
Definition getBaseMapName (fileName : option string) : string :=
  match fileName with
  | Some f => if Js.truthy f then Re.replace re_bsp_ext "" f else EmptyString
  | None => EmptyString
  end.

(** The class of [escapeRegExp]: the characters . * + ? ^ $ { } ( ) | [ ]
    and the backslash. *)
Definition is_regexp_special (c : ascii) : bool :=
  existsb (Ascii.eqb c)
    [ "."; "*"; "+"; "?"; "^"; "$"; "{"; "}"; "("; ")"; "|"; "["; "]";
      backslash ]%char.

(** [str.replace(re, '\\$&')]: a backslash, then the matched text. *)
Definition escapeRegExp (str : string) : string :=
  replace_all_with (Re.Chr is_regexp_special)
    (fun m => String backslash m) 0 str 0.

(** Replacement of each character that satisfies [p] by [f c]. *)
Fixpoint expand (p : ascii → bool) (f : ascii → string) (s : string) : string :=
  match s with
  | EmptyString => EmptyString
  | String c s' =>
      (if p c then f c else String c EmptyString) ++ expand p f s'
  end.

(** A text in which every character of the class of [escapeRegExp] comes
    right after an escaping backslash. *)
Fixpoint escaped (s : string) : bool :=
  match s with
  | EmptyString => true
  | String c s' =>
      if Ascii.eqb c backslash then
        match s' with
        | String _ s'' => escaped s''
        | EmptyString => false
        end
      else negb (is_regexp_special c) && escaped s'
  end.

(** The characters that open or close markup or an attribute value. *)
Definition is_markup (c : ascii) : bool :=
  Ascii.eqb c "<" || Ascii.eqb c ">" || Ascii.eqb c dquote || Ascii.eqb c squote.

(** What [htmlEscape] puts for one character of its class. *)
Definition html_char (c : ascii) : string :=
  callback_result (html_entity (String c EmptyString)).

(** Reading of an escaped text: a backslash stands for the character
    after it. *)
Fixpoint unescape (s : string) : string :=
  match s with
  | EmptyString => EmptyString
  | String c s' =>
      if Ascii.eqb c backslash then
        match s' with
        | String d s'' => String d (unescape s'')
        | EmptyString => EmptyString
        end
      else String c (unescape s')
  end.

(** ** The first version of the analyser

    The file also holds the analyser as it was before the entity
    statistics and the map name were added: the same header, directory and
    TEXINFO code, and an [extractFromEntities] with the resource chain
    only. *)

Module V1.

Record Out := mkOut {
  o_skies : list string;
  o_sounds : list string;
  o_models : list string;
  o_others : list string
}.

Record AnalysisResult := mkAnalysisResult {
  errors : list string;
  warnings : list string;
  textures : list string;
  skies : list string;
  sounds : list string;
  models : list string;
  others : list string
}.

Definition add_sky (out : Out) (x : string) : Out :=
  {| o_skies := set_add x (o_skies out); o_sounds := o_sounds out;
     o_models := o_models out; o_others := o_others out |}.

Definition add_sound (out : Out) (x : string) : Out :=
  {| o_skies := o_skies out; o_sounds := set_add x (o_sounds out);
     o_models := o_models out; o_others := o_others out |}.

Definition add_model (out : Out) (x : string) : Out :=
  {| o_skies := o_skies out; o_sounds := o_sounds out;
     o_models := set_add x (o_models out); o_others := o_others out |}.

Definition add_other (out : Out) (x : string) : Out :=
  {| o_skies := o_skies out; o_sounds := o_sounds out;
     o_models := o_models out; o_others := set_add x (o_others out) |}.

(** The body of [for (const [k, v] of pairs)]. *)
Definition pair_step (out : Out) (kv : string * string) : Out :=
  let '(k, v) := kv in
  if negb (Js.truthy v) then out
  else
    let vv := slashes v in
    if String.eqb k "sky" then add_sky out ("env/" ++ vv ++ "*")
    else if String.eqb k "sound" || String.eqb k "noise" || String.eqb k "snd"
            || Re.test re_sound_key k then
      if Re.test re_sound_dir vv || Re.test re_sound_ext vv
      then add_sound out vv
      else add_other out (k ++ "=" ++ vv)
    else if String.eqb k "model" then
      if Re.test re_models_dir vv || Re.test re_model_ext vv
      then add_model out vv
      else add_other out (k ++ "=" ++ vv)
    else if String.eqb k "music" || String.eqb k "cdtrack" || String.eqb k "wav" then
      add_sound out vv
    else if String.eqb k "wad" then add_other out ("wad=" ++ vv)
    else if Re.test re_other_key k then add_other out (k ++ "=" ++ vv)
    else out.

Definition extractFromEntities (txt : string) (out : Out) : Out :=
  fold_left pair_step (entity_pairs txt) out.

Definition empty_out : Out :=
  {| o_skies := []; o_sounds := []; o_models := []; o_others := [] |}.

Definition analyzeBspBuffer (buf : list byte) : result AnalysisResult :=
  if Buffer.len buf <? 8 then Throw (JsError msg_too_small)
  else
    let magic := Buffer.toString buf 0 4 in
    let* version := Buffer.readInt32LE buf 4 in
    let errs := if String.eqb magic Q2_MAGIC then [] else [msg_signature magic] in
    let warns := if version =? Q2_VERSION then [] else [msg_version version] in
    let* table := read_lumps buf 19 8 [] errs in
    let '(lumps, errs) := table in
    let ent := nth_error lumps LUMP_ENTITIES in
    let '(out, warns) :=
      match ent with
      | Some e =>
          if lump_usable buf ent then
            let entsTxt :=
              Buffer.toString buf (lump_offset e) (lump_offset e + lump_length e) in
            (extractFromEntities entsTxt empty_out, warns)
          else (empty_out, (warns ++ [msg_entities])%list)
      | None => (empty_out, (warns ++ [msg_entities])%list)
      end in
    let tix := nth_error lumps LUMP_TEXINFO in
    let '(texs, warns) :=
      match tix with
      | Some t =>
          if lump_usable buf tix then
            let count := lump_length t / DTEXINFO_SIZE in
            (texinfo_loop buf (lump_offset t) (Z.to_nat count) 0 [], warns)
          else ([], (warns ++ [msg_texinfo])%list)
      | None => ([], (warns ++ [msg_texinfo])%list)
      end in
    Ok {| errors := errs;
          warnings := warns;
          textures := sort_strings texs;
          skies := sort_strings (o_skies out);
          sounds := sort_strings (o_sounds out);
          models := sort_strings (o_models out);
          others := sort_strings (o_others out) |}.

End V1.

(** The four buckets of the later [out] object as a first-version one. *)
Definition buckets_of (out : Out) : V1.Out :=
  {| V1.o_skies := o_skies out; V1.o_sounds := o_sounds out;
     V1.o_models := o_models out; V1.o_others := o_others out |}.

(** Agreement of a first-version result with a later one on the fields
    that both have. *)
Definition same_resources (r1 : V1.AnalysisResult) (r2 : AnalysisResult) : Prop :=
  V1.errors r1 = errors r2 ∧ V1.warnings r1 = warnings r2
  ∧ V1.textures r1 = textures r2 ∧ V1.skies r1 = skies r2
  ∧ V1.sounds r1 = sounds r2 ∧ V1.models r1 = models r2
  ∧ V1.others r1 = others r2.

(** Entry [i] of the directory fails the test of its consumer: it is
    missing, or its length is not positive, or it ends beyond the buffer. *)
Definition lump_rejected (buf : list byte) (i : nat) : Prop :=
  ∀ l, nth_error (lump_table buf) i = Some l →
       lump_length l <= 0 ∨ Buffer.len buf < lump_offset l + lump_length l.

(** A complete directory whose ENTITIES entry ends beyond the buffer and
    whose TEXINFO entry has length zero. *)
Definition rejected_buf : list byte :=
  bsp_head "IBSP" 38
    (fun i => if (i =? 0)%nat then (100, 2000)
              else if (i =? 5)%nat then (100, 0) else (0, 0)).

(** ** The title cleaner

    [cleanMapTitle] on strings of code units below 256, which covers every
    [mapName] of the analyser (7-bit text). *)

Definition is_nrt (c : ascii) : bool :=
  Ascii.eqb c "n" || Ascii.eqb c "r" || Ascii.eqb c "t".

(** A backslash followed by one of [n], [r], [t]: the first pattern of
    [cleanMapTitle]. *)
Definition re_escape_seq : Re.regex :=
  Re.Chr (Re.lit backslash) >> Re.Chr is_nrt.

(** The class [\x00-\x1F\x7F]. *)
Definition is_control (c : ascii) : bool :=
  ((Js.code c <=? 31) || (Js.code c =? 127))%N.

Definition re_control : Re.regex := Re.Plus is_control.

(** The class of the third pattern (U+00A0, U+200B to U+200F, U+2028,
    U+2029): below 256 its only member is U+00A0. *)
Definition is_wide_space (c : ascii) : bool := (Js.code c =? 160)%N.

Definition re_wide_space : Re.regex := Re.Plus is_wide_space.

(** [\s+].  Below 256 the class [\s] is [Js.is_space] and U+00A0; the step
    before has left no U+00A0, and the same holds for [trim]. *)
Definition re_spaces : Re.regex := Re.Plus Js.is_space.

Definition cleanMapTitle (name : option string) : string :=
  if negb (Js.truthy_opt name) then EmptyString
  else
    let s := match name with Some n => n | None => EmptyString end in
    let s := Re.replace_all re_escape_seq " " 0 s 0 in
    let s := Re.replace_all re_control " " 0 s 0 in
    let s := Re.replace_all re_wide_space " " 0 s 0 in
    let s := Re.replace_all re_spaces " " 0 s 0 in
    Js.trim s.

(** Every maximal run of characters of the class [p] becomes one space;
    [in_run] tells that the run has begun before. *)
Fixpoint collapse (p : ascii → bool) (in_run : bool) (s : string) : string :=
  match s with
  | EmptyString => EmptyString
  | String c s' =>
      if p c then
        if in_run then collapse p true s'
        else String " " (collapse p true s')
      else String c (collapse p false s')
  end.

Definition escape_pair (c d : ascii) : bool :=
  Ascii.eqb c backslash && is_nrt d.

(** Every backslash followed by [n], [r] or [t] becomes one space, read
    from the left. *)
Fixpoint blank_escapes (s : string) : string :=
  match s with
  | EmptyString => EmptyString
  | String c s' =>
      match s' with
      | String d s'' =>
          if escape_pair c d then String " " (blank_escapes s'')
          else String c (blank_escapes s')
      | EmptyString => String c EmptyString
      end
  end.

(** No two neighbours of [s] are related by [R]. *)
Fixpoint adjacent_free (R : ascii → ascii → bool) (s : string) : bool :=
  match s with
  | EmptyString => true
  | String c s' =>
      match s' with
      | String d _ => negb (R c d)
      | EmptyString => true
      end && adjacent_free R s'
  end.

Definition space_pair (c d : ascii) : bool := Js.is_space c && Js.is_space d.

Definition is_blank (c : ascii) : bool :=
  is_control c || is_wide_space c || Js.is_space c.

(** The characters of [s] that are not blank, in order. *)
Fixpoint visible (s : string) : string :=
  match s with
  | EmptyString => EmptyString
  | String c s' => if is_blank c then visible s' else String c (visible s')
  end.

(** A title that has nothing left to clean: no control character and no
    U+00A0, no escape sequence, no two white-space characters in a row and
    none at either end. *)
Definition clean_title (t : string) : Prop :=
  string_forall (fun c => negb (is_control c || is_wide_space c)) t = true
  ∧ adjacent_free escape_pair t = true
  ∧ adjacent_free space_pair t = true
  ∧ Js.trim t = t.

(** The length of the run of characters of the class [p] that [s] begins
    with. *)
Fixpoint run_length (p : ascii → bool) (s : string) : nat :=
  match s with
  | EmptyString => 0
  | String c s' => if p c then S (run_length p s') else 0
  end.

(** ** The signature field *)

(** The code of a byte as the ['ascii'] decoding reads it: the value of
    its seven low bits. *)
Definition low7 (b : byte) : Z := Z.land (Buffer.u8 b) 127.

(** The codes that [buf.toString('ascii', 0, 4)] reads from the four
    signature bytes. *)
Definition magic_codes (buf : list byte) : list Z :=
  List.map low7 (firstn 4 buf).

Definition char_codes (s : string) : list Z :=
  List.map (fun c => Z.of_N (N_of_ascii c)) (list_ascii_of_string s).

(** [clean_buf] with the high bit set in each of its four signature
    bytes: C9 C2 D3 D0 in place of 49 42 53 50. *)
Definition high_bit_buf : list byte :=
  ([xc9; xc2; xd3; xd0] ++ skipn 4 clean_buf)%list.

(** * Properties *)

#[local] Arguments String.append : simpl nomatch.

(** ** The Buffer readers *)

Lemma get_in_range (buf : list byte) (i : Z) :
  0 <= i < Buffer.len buf → ∃ b, Buffer.get buf i = Some b.
Proof.
  intros [Hlo Hhi]. unfold Buffer.get, Buffer.len in *.
  destruct (Z.ltb_spec i 0) as [Hneg|_]; [lia|].
  destruct (nth_error buf (Z.to_nat i)) as [b|] eqn:E; [eauto|].
  apply nth_error_None in E. lia.
Qed.

Lemma get_out_of_range (buf : list byte) (i : Z) :
  i < 0 ∨ Buffer.len buf <= i → Buffer.get buf i = None.
Proof.
  intros H. unfold Buffer.get, Buffer.len in *.
  destruct (Z.ltb_spec i 0) as [Hneg|Hpos]; [reflexivity|].
  apply nth_error_None. lia.
Qed.

Lemma readInt32LE_in_range (buf : list byte) (off : Z) :
  0 <= off → off + 4 <= Buffer.len buf →
  Buffer.readInt32LE buf off = Ok (int32_at buf off).
Proof.
  intros Hlo Hhi. unfold int32_at, Buffer.readInt32LE.
  destruct (get_in_range buf off) as [b0 ->]; [lia|].
  destruct (get_in_range buf (off + 3)) as [b3 ->]; [lia|].
  destruct (get_in_range buf (off + 1)) as [b1 ->]; [lia|].
  destruct (get_in_range buf (off + 2)) as [b2 ->]; [lia|].
  reflexivity.
Qed.

Lemma readInt32LE_out_of_range (buf : list byte) (off : Z) :
  off < 0 ∨ Buffer.len buf < off + 4 → Buffer.readInt32LE buf off = Throw RangeError.
Proof.
  intros H. unfold Buffer.readInt32LE.
  destruct H as [H|H].
  - rewrite (get_out_of_range buf off); [reflexivity|lia].
  - destruct (Buffer.get buf off); [|reflexivity].
    rewrite (get_out_of_range buf (off + 3)); [reflexivity|lia].
Qed.

(** ** The lump table *)

Lemma entries_from_S (buf : list byte) (off : Z) (m : nat) :
  entries_from buf off (S m) =
  mkLump (int32_at buf off) (int32_at buf (off + 4)) :: entries_from buf (off + 8) m.
Proof.
  unfold entries_from. cbn [seq map]. rewrite <- seq_shift, map_map.
  f_equal.
  - f_equal; f_equal; lia.
  - apply map_ext. intros j. f_equal; f_equal; lia.
Qed.

Lemma avail_small (buf : list byte) (off : Z) :
  Buffer.len buf < off + 8 → avail buf off = 0%nat.
Proof.
  intros H. unfold avail.
  destruct (Z.le_gt_cases 0 (Buffer.len buf - off)) as [Hge|Hlt].
  - rewrite Z.div_small; [reflexivity|lia].
  - assert ((Buffer.len buf - off) / 8 < 0) by (apply Z.div_lt_upper_bound; lia).
    lia.
Qed.

Lemma avail_step (buf : list byte) (off : Z) :
  off + 8 <= Buffer.len buf → avail buf off = S (avail buf (off + 8)).
Proof.
  intros H. unfold avail.
  replace (Buffer.len buf - off) with ((Buffer.len buf - (off + 8)) + 1 * 8) by lia.
  rewrite Z.div_add by lia.
  assert (0 <= (Buffer.len buf - (off + 8)) / 8) by (apply Z.div_pos; lia).
  lia.
Qed.

Lemma read_lumps_spec (buf : list byte) :
  ∀ (n : nat) (off : Z) (lumps : list Lump) (errs : list string),
    0 <= off →
    read_lumps buf n off lumps errs =
    Ok ((lumps ++ entries_from buf off (Nat.min n (avail buf off)))%list,
        (errs ++ if (avail buf off <? n)%nat then [msg_lump_eof] else [])%list).
Proof.
  induction n as [|n IH]; intros off lumps errs Hoff.
  - simpl. rewrite !app_nil_r. reflexivity.
  - simpl read_lumps.
    destruct (Z.ltb_spec (Buffer.len buf) (off + 8)) as [Hshort|Hlong].
    + rewrite avail_small by assumption. simpl. rewrite app_nil_r. reflexivity.
    + rewrite (readInt32LE_in_range buf off) by lia.
      rewrite (readInt32LE_in_range buf (off + 4)) by lia.
      simpl bind. rewrite IH by lia.
      rewrite (avail_step buf off) by assumption.
      rewrite <- Nat.succ_min_distr, entries_from_S, <- app_assoc.
      reflexivity.
Qed.

Lemma read_lumps_table (buf : list byte) (errs : list string) :
  read_lumps buf 19 8 [] errs =
  Ok (lump_table buf,
      (errs ++ if (avail buf 8 <? 19)%nat then [msg_lump_eof] else [])%list).
Proof. rewrite read_lumps_spec by lia. reflexivity. Qed.

Lemma lump_table_full (buf : list byte) :
  160 <= Buffer.len buf → lump_table buf = entries_from buf 8 19.
Proof.
  intros H. unfold lump_table, avail.
  assert (19 <= (Buffer.len buf - 8) / 8) by (apply Z.div_le_lower_bound; lia).
  f_equal. lia.
Qed.

Lemma avail_full (buf : list byte) :
  (avail buf 8 <? 19)%nat = (Buffer.len buf <? 160).
Proof.
  unfold avail.
  destruct (Z.ltb_spec (Buffer.len buf) 160) as [Hs|Hl].
  - apply Nat.ltb_lt.
    assert ((Buffer.len buf - 8) / 8 < 19) by (apply Z.div_lt_upper_bound; lia).
    lia.
  - apply Nat.ltb_ge.
    assert (19 <= (Buffer.len buf - 8) / 8) by (apply Z.div_le_lower_bound; lia).
    lia.
Qed.

(** ** The sequential code computes the closed form *)

Lemma analyze_unfold (buf : list byte) :
  8 <= Buffer.len buf → analyzeBspBuffer buf = Ok (analysis buf).
Proof.
  intros Hlen. unfold analyzeBspBuffer.
  destruct (Z.ltb_spec (Buffer.len buf) 8) as [Hs|_]; [lia|].
  rewrite (readInt32LE_in_range buf 4) by lia. cbn [bind].
  rewrite read_lumps_table. cbn [bind].
  unfold analysis, emitted_errors, emitted_warnings, texinfo_set, entities_out,
    entities_text, usable_lump.
  rewrite avail_full.
  destruct (nth_error (lump_table buf) LUMP_ENTITIES) as [e|];
    destruct (nth_error (lump_table buf) LUMP_TEXINFO) as [t|];
    repeat match goal with
           | |- context [lump_usable buf (Some ?l)] =>
               destruct (lump_usable buf (Some l))
           end;
    cbn [fst snd]; rewrite ?app_nil_r, <- ?app_assoc; reflexivity.
Qed.

Lemma analyze_short (buf : list byte) :
  Buffer.len buf < 8 → analyzeBspBuffer buf = Throw (JsError msg_too_small).
Proof.
  intros Hlen. unfold analyzeBspBuffer.
  destruct (Z.ltb_spec (Buffer.len buf) 8) as [_|Hl]; [reflexivity|lia].
Qed.

(** ** Prefixes *)

Lemma strip_lit_prefix (w s : string) :
  Str.has_prefix Re.lit w s = String.prefix w s.
Proof.
  unfold Str.has_prefix. revert s.
  induction w as [|c w IH]; intros [|x s]; simpl; try reflexivity.
  unfold Re.lit at 1. rewrite Ascii.eqb_sym.
  destruct (Ascii.eqb_spec c x) as [->|Hne].
  - destruct (ascii_dec x x) as [_|n]; [apply IH|contradiction].
  - destruct (ascii_dec c x) as [e|_]; [contradiction|reflexivity].
Qed.

Lemma strip_app (f : ascii → ascii → bool) (w s rest : string) :
  Str.strip f w s = Some rest → ∃ p, s = p ++ rest ∧ String.length p = String.length w.
Proof.
  revert s. induction w as [|c w IH]; intros s H; simpl in H.
  - inversion H; subst. exists EmptyString. split; reflexivity.
  - destruct s as [|x s]; [discriminate|].
    destruct (f c x); [|discriminate].
    destruct (IH _ H) as (p & -> & Hl).
    exists (String x p). split; [reflexivity|simpl; f_equal; exact Hl].
Qed.

(** ** The matcher on the patterns of the source *)

Lemma rmatch_lits {A} (f : ascii → ascii → bool) (w : string) (k : Re.regex) :
  ∀ (pos : nat) (s : string) (caps : list string)
    (K : nat → string → list string → option A),
    Re.rmatch (Re.lits f w k) pos s caps K =
    match Str.strip f w s with
    | Some rest => Re.rmatch k (pos + String.length w) rest caps K
    | None => None
    end.
Proof.
  induction w as [|c w IH]; intros pos s caps K; simpl.
  - rewrite Nat.add_0_r. reflexivity.
  - destruct s as [|x s]; [reflexivity|].
    destruct (f c x); [|reflexivity].
    rewrite IH. replace (S pos + String.length w)%nat
      with (pos + S (String.length w))%nat by lia.
    reflexivity.
Qed.

(** A pattern that begins with [^] matches at position 0 only. *)
Lemma search_bol (r : Re.regex) :
  ∀ (s : string) (pos : nat), Re.search (Re.Bol >> r) (S pos) s = None.
Proof.
  induction s as [|c s IH]; intros pos; simpl; unfold Re.match_here; simpl;
    [reflexivity|apply IH].
Qed.

Lemma test_bol (r : Re.regex) (s : string) :
  Re.test (Re.Bol >> r) s =
  match Re.match_here r 0 s with Some _ => true | None => false end.
Proof.
  unfold Re.test. destruct s as [|c s]; simpl; unfold Re.match_here; simpl.
  - destruct (Re.rmatch r 0 "" [] _); reflexivity.
  - destruct (Re.rmatch r 0 (String c s) [] _); [reflexivity|].
    rewrite search_bol. reflexivity.
Qed.

Lemma search_anywhere (r : Re.regex) :
  ∀ (s : string) (pos : nat),
    match Re.search r pos s with Some _ => true | None => false end =
    anywhere (matches_here r) pos s.
Proof.
  induction s as [|c s IH]; intros pos; simpl; unfold matches_here.
  - destruct (Re.match_here r pos ""); reflexivity.
  - destruct (Re.match_here r pos (String c s)); [reflexivity|]. apply IH.
Qed.

Lemma anywhere_ext (f g : nat → string → bool) :
  (∀ pos s, f pos s = g pos s) → ∀ s pos, anywhere f pos s = anywhere g pos s.
Proof.
  intros H. induction s as [|c s IH]; intros pos; simpl; rewrite H; [reflexivity|].
  rewrite IH. reflexivity.
Qed.

Lemma anywhere_or (f g : nat → string → bool) :
  ∀ s pos, anywhere (fun p x => f p x || g p x) pos s =
           anywhere f pos s || anywhere g pos s.
Proof.
  induction s as [|c s IH]; intros pos; simpl.
  - destruct (f pos ""), (g pos ""); reflexivity.
  - rewrite IH. destruct (f pos (String c s)), (g pos (String c s)),
      (anywhere f (S pos) s), (anywhere g (S pos) s); reflexivity.
Qed.

Lemma matches_here_alt (r1 r2 : Re.regex) (pos : nat) (s : string) :
  matches_here (r1 <|> r2) pos s = matches_here r1 pos s || matches_here r2 pos s.
Proof.
  unfold matches_here, Re.match_here. simpl.
  destruct (Re.rmatch r1 pos s [] _); [reflexivity|].
  destruct (Re.rmatch r2 pos s [] _); reflexivity.
Qed.

Lemma matches_here_word_eps (f : ascii → ascii → bool) (w : string) (pos : nat) (s : string) :
  matches_here (Re.lits f w Re.Eps) pos s = Str.has_prefix f w s.
Proof.
  unfold matches_here, Re.match_here, Str.has_prefix. rewrite rmatch_lits.
  destruct (Str.strip f w s); reflexivity.
Qed.

Lemma matches_here_word_eol (f : ascii → ascii → bool) (w : string) (pos : nat) (s : string) :
  matches_here (Re.lits f w Re.Eol) pos s = Str.equal f w s.
Proof.
  unfold matches_here, Re.match_here, Str.equal. rewrite rmatch_lits.
  destruct (Str.strip f w s) as [[|c rest]|]; reflexivity.
Qed.

Lemma matches_here_bol (r : Re.regex) (pos : nat) (s : string) :
  matches_here (Re.Bol >> r) pos s = (pos =? 0)%nat && matches_here r pos s.
Proof.
  unfold matches_here, Re.match_here. simpl.
  destruct (pos =? 0)%nat; reflexivity.
Qed.

Lemma anywhere_contains (f : ascii → ascii → bool) (w : string) :
  ∀ s pos, anywhere (fun _ x => Str.has_prefix f w x) pos s = Str.contains f w s.
Proof.
  induction s as [|c s IH]; intros pos; simpl; [reflexivity|].
  rewrite IH. reflexivity.
Qed.

Lemma anywhere_ends_with (f : ascii → ascii → bool) (w : string) :
  ∀ s pos, anywhere (fun _ x => Str.equal f w x) pos s = Str.ends_with f w s.
Proof.
  induction s as [|c s IH]; intros pos; simpl; [reflexivity|].
  rewrite IH. reflexivity.
Qed.

Lemma anywhere_at_start (g : string → bool) :
  ∀ s, anywhere (fun p x => (p =? 0)%nat && g x) 0 s = g s.
Proof.
  assert (Hn : ∀ s pos, anywhere (fun p x => (p =? 0)%nat && g x) (S pos) s = false).
  { induction s as [|c s IH]; intros pos; simpl; [reflexivity|apply IH]. }
  intros [|c s]; simpl.
  - destruct (g ""); reflexivity.
  - rewrite Hn. destruct (g (String c s)); reflexivity.
Qed.

(** The key test [^path|file|script|shader$] with the [i] flag. *)
Lemma test_other_key (k : string) :
  Re.test re_other_key k =
  Str.has_prefix Re.lit_i "path" k || Str.contains Re.lit_i "file" k
  || Str.contains Re.lit_i "script" k || Str.ends_with Re.lit_i "shader" k.
Proof.
  unfold Re.test. rewrite search_anywhere. unfold re_other_key.
  rewrite (anywhere_ext _
    (fun p x => ((p =? 0)%nat && Str.has_prefix Re.lit_i "path" x)
                || (Str.has_prefix Re.lit_i "file" x
                    || (Str.has_prefix Re.lit_i "script" x
                        || Str.equal Re.lit_i "shader" x)))).
  2:{ intros pos s. rewrite !matches_here_alt, matches_here_bol.
      unfold Re.word_i. rewrite !matches_here_word_eps, matches_here_word_eol.
      reflexivity. }
  rewrite anywhere_or, anywhere_at_start.
  rewrite (anywhere_or (fun _ x => Str.has_prefix Re.lit_i "file" x)).
  rewrite (anywhere_or (fun _ x => Str.has_prefix Re.lit_i "script" x)).
  rewrite !anywhere_contains, anywhere_ends_with.
  rewrite !orb_assoc. reflexivity.
Qed.

(** The key test [^sound]. *)
Lemma test_sound_key (k : string) :
  Re.test re_sound_key k = Js.startsWith k "sound".
Proof.
  unfold re_sound_key. rewrite test_bol.
  change (match Re.match_here (Re.word "sound" Re.Eps) 0 k with
          | Some _ => true | None => false end)
    with (matches_here (Re.lits Re.lit "sound" Re.Eps) 0 k).
  rewrite matches_here_word_eps. apply strip_lit_prefix.
Qed.

(** Global replacement by a one-character pattern. *)
Lemma replace_all_subst (a b : ascii) :
  ∀ (s : string) (pos : nat),
    Re.replace_all (Re.Chr (Re.lit a)) (String b EmptyString) pos s 0 =
    Str.subst_char a b s.
Proof.
  induction s as [|c s IH]; intros pos; [reflexivity|].
  cbn [Re.replace_all Str.subst_char]. unfold Re.match_here. cbn [Re.rmatch].
  unfold Re.lit at 1. destruct (Ascii.eqb c a).
  - replace (S pos =? pos)%nat with false by (symmetry; apply Nat.eqb_neq; lia).
    replace (S pos - pos - 1)%nat with 0%nat by lia.
    simpl. rewrite IH. reflexivity.
  - rewrite IH. reflexivity.
Qed.

Lemma replace_all_remove (a : ascii) :
  ∀ (s : string) (pos : nat),
    Re.replace_all (Re.Chr (Re.lit a)) EmptyString pos s 0 = Str.remove_char a s.
Proof.
  induction s as [|c s IH]; intros pos; [reflexivity|].
  cbn [Re.replace_all Str.remove_char]. unfold Re.match_here. cbn [Re.rmatch].
  unfold Re.lit at 1. destruct (Ascii.eqb c a).
  - replace (S pos =? pos)%nat with false by (symmetry; apply Nat.eqb_neq; lia).
    replace (S pos - pos - 1)%nat with 0%nat by lia.
    simpl. apply IH.
  - rewrite IH. reflexivity.
Qed.

Lemma slashes_spec (v : string) : slashes v = Str.subst_char backslash slash v.
Proof. apply replace_all_subst. Qed.

(** A final greedy iteration takes the longest run. *)
Lemma star_final (p : ascii → bool) (caps : list string) :
  ∀ (s : string) (pos : nat),
    ∃ pos', Re.star p (fun q x => Some (q, x, caps)) pos s =
            Some (pos', Str.drop_while p s, caps).
Proof.
  induction s as [|c s IH]; intros pos; simpl; [eauto|].
  destruct (p c); [|eauto].
  destruct (IH (S pos)) as [pos' ->]. eauto.
Qed.

Lemma replace_textures_prefix (name : string) :
  Re.replace re_textures_prefix "" name = strip_textures name.
Proof.
  unfold Re.replace, strip_textures, re_textures_prefix.
  assert (Hhere : Re.match_here (Re.Bol >> Re.word_i "textures" (Re.Plus is_sep)) 0 name =
    match Str.strip Re.lit_i "textures" name with
    | Some (String c rest) =>
        if is_sep c
        then Re.star is_sep (fun q x => Some (q, x, [])) 9 rest
        else None
    | _ => None
    end).
  { unfold Re.match_here, Re.word_i. cbn [Re.rmatch Nat.eqb].
    rewrite rmatch_lits.
    destruct (Str.strip Re.lit_i "textures" name) as [[|c rest]|]; reflexivity. }
  destruct name as [|x name'].
  - reflexivity.
  - cbn [Re.search]. rewrite Hhere.
    destruct (Str.strip Re.lit_i "textures" (String x name')) as [[|c rest]|];
      try (rewrite search_bol; reflexivity).
    destruct (is_sep c); [|rewrite search_bol; reflexivity].
    destruct (star_final is_sep [] rest 9) as [pos' ->]. reflexivity.
Qed.

Lemma normalize_texture_spec (name : string) :
  normalize_texture name = Str.subst_char backslash slash (strip_textures name).
Proof.
  unfold normalize_texture. rewrite replace_textures_prefix. apply slashes_spec.
Qed.

(** ** The tokenizer loop advances

    Every match of the pair pattern consumes at least five characters and
    binds both groups, so [lastIndex] grows at each iteration of the loop
    of [extractFromEntities] and [m[1]], [m[2]] are always defined. *)

Lemma star_result {A} (p : ascii → bool) (k : nat → string → option A) :
  ∀ (s : string) (pos : nat) (x : A),
    Re.star p k pos s = Some x →
    ∃ pos' s', (pos <= pos')%nat ∧ k pos' s' = Some x.
Proof.
  induction s as [|c s IH]; intros pos x H; simpl in H.
  - eauto.
  - destruct (p c); [|eauto].
    destruct (Re.star p k (S pos) s) as [y|] eqn:E.
    + inversion H; subst. apply IH in E as (pos' & s' & Hle & Hk).
      exists pos', s'. split; [lia|exact Hk].
    + eauto.
Qed.

Lemma pair_match_shape {A} (pos : nat) (s : string)
    (k : nat → string → list string → option A) (x : A) :
  Re.rmatch re_pair pos s [] k = Some x →
  ∃ pos' s' g1 g2, (pos + 5 <= pos')%nat ∧ k pos' s' [g1; g2] = Some x.
Proof.
  unfold re_pair, Re.Plus. cbn [Re.rmatch]. intros H.
  destruct s as [|c0 s]; [discriminate H|].
  destruct (Re.lit dquote c0); [|discriminate H].
  destruct s as [|c1 s]; [discriminate H|].
  destruct (not_dquote c1); [|discriminate H].
  apply star_result in H as (p1 & s1 & Hp1 & H). cbn [app] in H.
  destruct s1 as [|c2 s1]; [discriminate H|].
  destruct (Re.lit dquote c2); [|discriminate H].
  apply star_result in H as (p2 & s2 & Hp2 & H).
  destruct s2 as [|c3 s2]; [discriminate H|].
  destruct (Re.lit dquote c3); [|discriminate H].
  apply star_result in H as (p3 & s3 & Hp3 & H).
  destruct s3 as [|c4 s3]; [discriminate H|].
  destruct (Re.lit dquote c4); [|discriminate H].
  cbn [app] in H. eexists _, _, _, _. split; [|exact H]. lia.
Qed.

Lemma pair_match_advances (pos pos' : nat) (s rest : string) (caps : list string) :
  Re.match_here re_pair pos s = Some (pos', rest, caps) →
  (pos + 5 <= pos')%nat ∧ List.length caps = 2%nat.
Proof.
  unfold Re.match_here. intros H.
  apply pair_match_shape in H as (p & s' & g1 & g2 & Hle & Heq).
  inversion Heq; subst. split; [exact Hle|reflexivity].
Qed.

(** ** The pass over the pairs *)

Ltac step_cases :=
  repeat match goal with
         | |- context [if ?b then _ else _] => destruct b
         end;
  try reflexivity.

Lemma world_step_buckets (k v : string) (out : Out) :
  o_skies (world_step k v out) = o_skies out
  ∧ o_sounds (world_step k v out) = o_sounds out
  ∧ o_models (world_step k v out) = o_models out
  ∧ o_others (world_step k v out) = o_others out
  ∧ o_entityStats (world_step k v out) = o_entityStats out.
Proof. unfold world_step. repeat split; step_cases. Qed.

Lemma class_step_buckets (k v : string) (out : Out) :
  o_skies (class_step k v out) = o_skies out
  ∧ o_sounds (class_step k v out) = o_sounds out
  ∧ o_models (class_step k v out) = o_models out
  ∧ o_others (class_step k v out) = o_others out
  ∧ o_worldInfo (class_step k v out) = o_worldInfo out.
Proof. unfold class_step. repeat split; step_cases. Qed.

Lemma resource_step_rest (k vv : string) (out : Out) :
  o_entityStats (resource_step k vv out) = o_entityStats out
  ∧ o_worldInfo (resource_step k vv out) = o_worldInfo out.
Proof. unfold resource_step. split; step_cases. Qed.

Lemma pair_step_name (out : Out) (k v : string) :
  wi_name (o_worldInfo (pair_step out (k, v))) =
  if Js.truthy v && is_name_key k && negb (Js.truthy_opt (wi_name (o_worldInfo out)))
  then Some v else wi_name (o_worldInfo out).
Proof.
  unfold pair_step. destruct (Js.truthy v); [|reflexivity]. cbn [negb andb].
  destruct (resource_step_rest k (slashes v) (class_step k v (world_step k v out)))
    as [_ ->].
  destruct (class_step_buckets k v (world_step k v out)) as (_ & _ & _ & _ & ->).
  unfold world_step, is_name_key.
  destruct ((String.eqb k "message" || String.eqb k "map" || String.eqb k "mapname")
            && negb (Js.truthy_opt (wi_name (o_worldInfo out)))); step_cases.
Qed.

Lemma pair_step_version (out : Out) (k v : string) :
  wi_version (o_worldInfo (pair_step out (k, v))) =
  if Js.truthy v && is_version_key k
     && negb (Js.truthy_opt (wi_version (o_worldInfo out)))
  then Some v else wi_version (o_worldInfo out).
Proof.
  unfold pair_step. destruct (Js.truthy v); [|reflexivity]. cbn [negb andb].
  destruct (resource_step_rest k (slashes v) (class_step k v (world_step k v out)))
    as [_ ->].
  destruct (class_step_buckets k v (world_step k v out)) as (_ & _ & _ & _ & ->).
  unfold world_step, is_version_key.
  destruct ((String.eqb k "message" || String.eqb k "map" || String.eqb k "mapname")
            && negb (Js.truthy_opt (wi_name (o_worldInfo out))));
    cbn [set_name o_worldInfo wi_version]; step_cases.
Qed.

Lemma pair_step_stats (out : Out) (k v : string) :
  o_entityStats (pair_step out (k, v)) =
  if Js.truthy v && String.eqb k "classname"
  then classifyClassname (Js.toLowerCase v) (o_entityStats out)
  else o_entityStats out.
Proof.
  unfold pair_step. destruct (Js.truthy v); [|reflexivity]. cbn [negb andb].
  destruct (resource_step_rest k (slashes v) (class_step k v (world_step k v out)))
    as [-> _].
  destruct (world_step_buckets k v out) as (_ & _ & _ & _ & Hst).
  unfold class_step. destruct (String.eqb k "classname"); cbn; rewrite Hst; reflexivity.
Qed.

Lemma process_pairs_cons (kv : string * string) (pairs : list (string * string)) (out : Out) :
  process_pairs (kv :: pairs) out = process_pairs pairs (pair_step out kv).
Proof. reflexivity. Qed.

Lemma process_pairs_name (pairs : list (string * string)) :
  ∀ out : Out,
    wi_name (o_worldInfo (process_pairs pairs out)) =
    if Js.truthy_opt (wi_name (o_worldInfo out)) then wi_name (o_worldInfo out)
    else match first_value is_name_key pairs with
         | Some v => Some v
         | None => wi_name (o_worldInfo out)
         end.
Proof.
  induction pairs as [|[k v] pairs IH]; intros out.
  - cbn. destruct (Js.truthy_opt _); reflexivity.
  - rewrite process_pairs_cons, IH, pair_step_name.
    unfold first_value. cbn [List.filter fst snd].
    destruct (Js.truthy_opt (wi_name (o_worldInfo out))) eqn:Hset.
    + rewrite andb_false_r, Hset. reflexivity.
    + rewrite andb_true_r.
      destruct (Js.truthy v && is_name_key k) eqn:Hkv.
      * apply andb_prop in Hkv as [Hv _]. cbn [Js.truthy_opt]. rewrite Hv.
        reflexivity.
      * rewrite Hset. reflexivity.
Qed.

Lemma process_pairs_version (pairs : list (string * string)) :
  ∀ out : Out,
    wi_version (o_worldInfo (process_pairs pairs out)) =
    if Js.truthy_opt (wi_version (o_worldInfo out)) then wi_version (o_worldInfo out)
    else match first_value is_version_key pairs with
         | Some v => Some v
         | None => wi_version (o_worldInfo out)
         end.
Proof.
  induction pairs as [|[k v] pairs IH]; intros out.
  - cbn. destruct (Js.truthy_opt _); reflexivity.
  - rewrite process_pairs_cons, IH, pair_step_version.
    unfold first_value. cbn [List.filter fst snd].
    destruct (Js.truthy_opt (wi_version (o_worldInfo out))) eqn:Hset.
    + rewrite andb_false_r, Hset. reflexivity.
    + rewrite andb_true_r.
      destruct (Js.truthy v && is_version_key k) eqn:Hkv.
      * apply andb_prop in Hkv as [Hv _]. cbn [Js.truthy_opt]. rewrite Hv.
        reflexivity.
      * rewrite Hset. reflexivity.
Qed.

Lemma process_pairs_stats (pairs : list (string * string)) :
  ∀ out : Out,
    o_entityStats (process_pairs pairs out) =
    fold_left (fun st cls => classifyClassname cls st) (classnames pairs)
      (o_entityStats out).
Proof.
  induction pairs as [|[k v] pairs IH]; intros out; [reflexivity|].
  rewrite process_pairs_cons, IH, pair_step_stats.
  unfold classnames. cbn [List.filter fst snd].
  destruct (Js.truthy v && String.eqb k "classname"); reflexivity.
Qed.

(** A pair with an empty value changes nothing. *)
Lemma process_pairs_skip_empty (pairs : list (string * string)) :
  ∀ out : Out,
    process_pairs pairs out =
    process_pairs (List.filter (fun kv => Js.truthy (snd kv)) pairs) out.
Proof.
  induction pairs as [|[k v] pairs IH]; intros out; [reflexivity|].
  cbn [List.filter snd]. destruct (Js.truthy v) eqn:Hv.
  - rewrite !process_pairs_cons. apply IH.
  - rewrite process_pairs_cons. unfold pair_step at 1. rewrite Hv. apply IH.
Qed.

(** ** Counters *)

Lemma inc_count (m : gmap string nat) (k : string) :
  count (inc m k) k = S (count m k).
Proof. unfold count, inc. rewrite lookup_insert_eq. simpl. lia. Qed.

Lemma inc_other (m : gmap string nat) (k k' : string) :
  k ≠ k' → inc m k !! k' = m !! k'.
Proof. intros H. unfold inc. apply lookup_insert_ne. exact H. Qed.

Lemma set_has_In (s : list string) (x : string) :
  set_has s x = true ↔ In x s.
Proof.
  unfold set_has. rewrite existsb_exists. split.
  - intros (y & Hy & Heq). apply String.eqb_eq in Heq. subst. exact Hy.
  - intros H. exists x. split; [exact H|apply String.eqb_refl].
Qed.

(** The contribution of one classname to the four spawn counters. *)
Lemma classify_spawn (cls : string) (st : EntityStats) :
  let sp := spawnPoints st in
  let sp' := spawnPoints (classifyClassname cls st) in
  let hit name := if string_dec cls name then 1%nat else 0%nat in
  deathmatch sp' = (deathmatch sp + hit "info_player_deathmatch")%nat
  ∧ start sp' = (start sp + hit "info_player_start")%nat
  ∧ coop sp' = (coop sp + hit "info_player_coop")%nat
  ∧ intermission sp' = (intermission sp + hit "info_player_intermission")%nat.
Proof.
  cbv beta zeta.
  destruct (string_dec cls "info_player_deathmatch") as [->|Hd];
    [cbn; repeat split; lia|].
  destruct (string_dec cls "info_player_start") as [->|Hs];
    [cbn; repeat split; lia|].
  destruct (string_dec cls "info_player_coop") as [->|Hc];
    [cbn; repeat split; lia|].
  destruct (string_dec cls "info_player_intermission") as [->|Hi];
    [cbn; repeat split; lia|].
  unfold classifyClassname.
  destruct (Js.startsWith cls "weapon_"); [cbn; repeat split; lia|].
  destruct (Js.startsWith cls "item_armor_"); [cbn; repeat split; lia|].
  destruct (Js.startsWith cls "info_player_").
  - destruct (String.eqb_spec cls "info_player_deathmatch"); [contradiction|].
    destruct (String.eqb_spec cls "info_player_start"); [contradiction|].
    destruct (String.eqb_spec cls "info_player_coop"); [contradiction|].
    destruct (String.eqb_spec cls "info_player_intermission"); [contradiction|].
    repeat split; lia.
  - destruct (set_has interestingItems cls); cbn; repeat split; lia.
Qed.

Lemma fold_classify_spawn (l : list string) :
  ∀ st : EntityStats,
    let sp' := spawnPoints (fold_left (fun st cls => classifyClassname cls st) l st) in
    deathmatch sp' =
      (deathmatch (spawnPoints st) + count_occ string_dec l "info_player_deathmatch")%nat
    ∧ start sp' =
      (start (spawnPoints st) + count_occ string_dec l "info_player_start")%nat
    ∧ coop sp' =
      (coop (spawnPoints st) + count_occ string_dec l "info_player_coop")%nat
    ∧ intermission sp' =
      (intermission (spawnPoints st)
       + count_occ string_dec l "info_player_intermission")%nat.
Proof.
  induction l as [|cls l IH]; intros st; cbv beta zeta.
  - cbn. repeat split; lia.
  - cbn [fold_left count_occ].
    destruct (IH (classifyClassname cls st)) as (Hd & Hs & Hc & Hi).
    destruct (classify_spawn cls st) as (Hd' & Hs' & Hc' & Hi').
    cbv beta zeta in *. rewrite Hd, Hs, Hc, Hi, Hd', Hs', Hc', Hi'.
    repeat split;
      match goal with
      | |- context [string_dec cls ?n] =>
          destruct (string_dec cls n) as [->|Hn];
          [destruct (string_dec n n); [lia|contradiction]
          |destruct (string_dec cls n); [contradiction|lia]]
      end.
Qed.

(** A classname outside the three prefixes and the allowlist, or an
    [info_player_] name that is not one of the four, leaves the statistics
    as they are. *)
Lemma classify_ignored (cls : string) (st : EntityStats) :
  Js.startsWith cls "weapon_" = false →
  Js.startsWith cls "item_armor_" = false →
  (Js.startsWith cls "info_player_" = true ∧ ¬ In cls spawn_names)
  ∨ (Js.startsWith cls "info_player_" = false ∧ ¬ In cls interestingItems) →
  classifyClassname cls st = st.
Proof.
  intros Hw Ha H. unfold classifyClassname. rewrite Hw, Ha.
  destruct H as [[Hp Hn]|[Hp Hn]]; rewrite Hp.
  - destruct (String.eqb_spec cls "info_player_deathmatch");
      [exfalso; apply Hn; subst cls; cbn; tauto|].
    destruct (String.eqb_spec cls "info_player_start");
      [exfalso; apply Hn; subst cls; cbn; tauto|].
    destruct (String.eqb_spec cls "info_player_coop");
      [exfalso; apply Hn; subst cls; cbn; tauto|].
    destruct (String.eqb_spec cls "info_player_intermission");
      [exfalso; apply Hn; subst cls; cbn; tauto|].
    reflexivity.
  - destruct (set_has interestingItems cls) eqn:E; [|reflexivity].
    apply set_has_In in E. contradiction.
Qed.

Lemma prefix_info_player (cls : string) :
  Js.startsWith cls "info_player_" = true →
  Js.startsWith cls "weapon_" = false ∧ Js.startsWith cls "item_armor_" = false.
Proof.
  unfold Js.startsWith. intros H.
  destruct cls as [|c1 [|c2 cls]]; cbn [String.prefix] in H; try discriminate H.
  - destruct (ascii_dec "i" c1); discriminate H.
  - destruct (ascii_dec "i" c1) as [<-|_]; [|discriminate H].
    destruct (ascii_dec "n" c2) as [<-|_]; [|discriminate H].
    split; reflexivity.
Qed.

Lemma classify_info_frame (cls : string) (st : EntityStats) :
  Js.startsWith cls "info_player_" = true →
  weapons (classifyClassname cls st) = weapons st
  ∧ armors (classifyClassname cls st) = armors st
  ∧ items (classifyClassname cls st) = items st.
Proof.
  intros Hp. destruct (prefix_info_player cls Hp) as [Hw Ha].
  unfold classifyClassname. rewrite Hw, Ha, Hp. repeat split; step_cases.
Qed.

(** ** Classification of classnames *)

Lemma count_insert (m : gmap string nat) (k : string) (v : nat) :
  count (<[k := v]> m) k = v.
Proof. unfold count. rewrite lookup_insert_eq. reflexivity. Qed.

Lemma classify_weapon (cls : string) (st : EntityStats) :
  Js.startsWith cls "weapon_" = true →
  classifyClassname cls st =
  {| weapons := <[cls := (count (weapons st) cls + 1)%nat]> (weapons st);
     armors := armors st; spawnPoints := spawnPoints st; items := items st |}.
Proof. unfold classifyClassname. intros ->. reflexivity. Qed.

(** [n + 1] entities of one weapon class, counted from any state. *)
Lemma fold_classify_weapon (cls : string) :
  Js.startsWith cls "weapon_" = true →
  ∀ (n : nat) (st : EntityStats),
    fold_left (fun st c => classifyClassname c st) (repeat cls (S n)) st =
    {| weapons := <[cls := (count (weapons st) cls + S n)%nat]> (weapons st);
       armors := armors st; spawnPoints := spawnPoints st; items := items st |}.
Proof.
  intros Hw. induction n as [|n IH]; intros st.
  - cbn [repeat fold_left]. apply classify_weapon, Hw.
  - change (repeat cls (S (S n))) with (cls :: repeat cls (S n)).
    cbn [fold_left]. rewrite IH, (classify_weapon cls st Hw).
    cbn [weapons armors spawnPoints items].
    rewrite count_insert, insert_insert_eq.
    replace (count (weapons st) cls + 1 + S n)%nat
      with (count (weapons st) cls + S (S n))%nat by lia.
    reflexivity.
Qed.

(** C3.  [classifyClassname] is a dispatch in priority order where the first
    test that holds decides: prefix [weapon_] increments [weapons[cls]],
    that is, stores the count held for [cls] (zero when there is none)
    plus one and leaves every other key and field alone; otherwise prefix
    [item_armor_] does the same on [armors]; otherwise prefix
    [info_player_] touches the spawn counters only, and a spawn counter
    grows by one exactly on its own name; otherwise membership in the
    allowlist of ten names increments [items[cls]]; anything else leaves
    the statistics as they are.  For an entity text whose classnames are
    [weapon_shotgun] three times (more generally [n + 1] times) the
    statistics are [weapons = {weapon_shotgun: 3}] ([n + 1]) and every
    other counter is untouched. *)
Theorem classify_first_match_wins (cls : string) (st : EntityStats) :
  (Js.startsWith cls "weapon_" = true →
   classifyClassname cls st =
   {| weapons := <[cls := (count (weapons st) cls + 1)%nat]> (weapons st);
      armors := armors st;
      spawnPoints := spawnPoints st; items := items st |})
  ∧ (Js.startsWith cls "weapon_" = false →
     Js.startsWith cls "item_armor_" = true →
     classifyClassname cls st =
     {| weapons := weapons st;
        armors := <[cls := (count (armors st) cls + 1)%nat]> (armors st);
        spawnPoints := spawnPoints st; items := items st |})
  ∧ (Js.startsWith cls "weapon_" = false →
     Js.startsWith cls "item_armor_" = false →
     Js.startsWith cls "info_player_" = true →
     weapons (classifyClassname cls st) = weapons st
     ∧ armors (classifyClassname cls st) = armors st
     ∧ items (classifyClassname cls st) = items st)
  ∧ (deathmatch (spawnPoints (classifyClassname cls st)) =
       (deathmatch (spawnPoints st)
        + if string_dec cls "info_player_deathmatch" then 1 else 0)%nat
     ∧ start (spawnPoints (classifyClassname cls st)) =
       (start (spawnPoints st)
        + if string_dec cls "info_player_start" then 1 else 0)%nat
     ∧ coop (spawnPoints (classifyClassname cls st)) =
       (coop (spawnPoints st)
        + if string_dec cls "info_player_coop" then 1 else 0)%nat
     ∧ intermission (spawnPoints (classifyClassname cls st)) =
       (intermission (spawnPoints st)
        + if string_dec cls "info_player_intermission" then 1 else 0)%nat)
  ∧ (Js.startsWith cls "weapon_" = false →
     Js.startsWith cls "item_armor_" = false →
     Js.startsWith cls "info_player_" = false →
     In cls interestingItems →
     classifyClassname cls st =
     {| weapons := weapons st; armors := armors st;
        spawnPoints := spawnPoints st;
        items := <[cls := (count (items st) cls + 1)%nat]> (items st) |})
  ∧ (Js.startsWith cls "weapon_" = false →
     Js.startsWith cls "item_armor_" = false →
     Js.startsWith cls "info_player_" = false →
     ¬ In cls interestingItems →
     classifyClassname cls st = st)
  ∧ List.length interestingItems = 10%nat
  ∧ (∀ txt : string,
       classnames (entity_pairs txt)
       = ["weapon_shotgun"; "weapon_shotgun"; "weapon_shotgun"] →
       o_entityStats (extractFromEntities txt empty_out) =
       {| weapons := {[ "weapon_shotgun" := 3%nat ]}; armors := ∅;
          spawnPoints := {| deathmatch := 0; coop := 0; start := 0;
                            intermission := 0 |};
          items := ∅ |})
  ∧ (∀ (txt : string) (n : nat),
       classnames (entity_pairs txt) = repeat "weapon_shotgun" (S n) →
       o_entityStats (extractFromEntities txt empty_out) =
       {| weapons := {[ "weapon_shotgun" := S n ]}; armors := ∅;
          spawnPoints := {| deathmatch := 0; coop := 0; start := 0;
                            intermission := 0 |};
          items := ∅ |}).
Proof.
  assert (Hn : ∀ (txt : string) (n : nat),
             classnames (entity_pairs txt) = repeat "weapon_shotgun" (S n) →
             o_entityStats (extractFromEntities txt empty_out) =
             {| weapons := {[ "weapon_shotgun" := S n ]}; armors := ∅;
                spawnPoints := {| deathmatch := 0; coop := 0; start := 0;
                                  intermission := 0 |};
                items := ∅ |}).
  { intros txt n Hcls. unfold extractFromEntities.
    rewrite process_pairs_stats, Hcls, fold_classify_weapon by reflexivity.
    reflexivity. }
  split; [|split; [|split; [|split; [|split; [|split; [|split; [|split]]]]]]].
  - apply classify_weapon.
  - unfold classifyClassname. intros -> ->. reflexivity.
  - intros _ _ Hp. apply classify_info_frame. exact Hp.
  - apply (classify_spawn cls st).
  - unfold classifyClassname. intros -> -> -> Hin.
    apply set_has_In in Hin. rewrite Hin. reflexivity.
  - unfold classifyClassname. intros -> -> -> Hin.
    destruct (set_has interestingItems cls) eqn:E; [|reflexivity].
    apply set_has_In in E. contradiction.
  - reflexivity.
  - intros txt Hcls. apply (Hn txt 2%nat). exact Hcls.
  - exact Hn.
Qed.

Lemma classify_first_match_wins_witness :
  classifyClassname "weapon_shotgun" createEmptyEntityStats =
  {| weapons := {[ "weapon_shotgun" := 1%nat ]}; armors := ∅;
     spawnPoints := {| deathmatch := 0; coop := 0; start := 0; intermission := 0 |};
     items := ∅ |}
  ∧ classifyClassname "item_armor_body" createEmptyEntityStats =
    {| weapons := ∅; armors := {[ "item_armor_body" := 1%nat ]};
       spawnPoints := {| deathmatch := 0; coop := 0; start := 0; intermission := 0 |};
       items := ∅ |}
  ∧ classifyClassname "item_quad" createEmptyEntityStats =
    {| weapons := ∅; armors := ∅;
       spawnPoints := {| deathmatch := 0; coop := 0; start := 0; intermission := 0 |};
       items := {[ "item_quad" := 1%nat ]} |}
  ∧ classifyClassname "func_door" createEmptyEntityStats = createEmptyEntityStats
  ∧ o_entityStats (extractFromEntities shotgun_text empty_out) =
    {| weapons := {[ "weapon_shotgun" := 3%nat ]}; armors := ∅;
       spawnPoints := {| deathmatch := 0; coop := 0; start := 0; intermission := 0 |};
       items := ∅ |}.
Proof.
  split; [|split; [|split; [|split]]].
  - apply (classify_first_match_wins "weapon_shotgun" createEmptyEntityStats).
    reflexivity.
  - apply (classify_first_match_wins "item_armor_body" createEmptyEntityStats);
      reflexivity.
  - apply (classify_first_match_wins "item_quad" createEmptyEntityStats);
      try reflexivity.
    cbn. tauto.
  - apply (classify_first_match_wins "func_door" createEmptyEntityStats);
      try reflexivity.
    cbn. intros H. repeat (destruct H as [H|H]; [discriminate H|]). exact H.
  - apply (classify_first_match_wins "" createEmptyEntityStats).
    vm_compute. reflexivity.
Defined.

(** C4.  Among the classnames with prefix [info_player_] exactly the four
    names [info_player_deathmatch], [info_player_start], [info_player_coop]
    and [info_player_intermission] are counted, each in its own spawn
    counter and in nothing else; any other [info_player_] name leaves the
    statistics as they are (the classifier has no diagnostics to emit).
    So two [info_player_deathmatch] and one [info_player_start] give
    [{deathmatch: 2, start: 1, coop: 0, intermission: 0}]. *)
Theorem spawn_points_counted (txt : string) :
  let st := o_entityStats (extractFromEntities txt empty_out) in
  let n name := count_occ string_dec (classnames (entity_pairs txt)) name in
  spawnPoints st =
    {| deathmatch := n "info_player_deathmatch"; coop := n "info_player_coop";
       start := n "info_player_start";
       intermission := n "info_player_intermission" |}
  ∧ (∀ (cls : string) (st0 : EntityStats),
       Js.startsWith cls "info_player_" = true →
       ¬ In cls spawn_names →
       classifyClassname cls st0 = st0)
  ∧ (∀ (cls : string) (st0 : EntityStats),
       Js.startsWith cls "info_player_" = true →
       weapons (classifyClassname cls st0) = weapons st0
       ∧ armors (classifyClassname cls st0) = armors st0
       ∧ items (classifyClassname cls st0) = items st0).
Proof.
  cbv beta zeta. split; [|split].
  - unfold extractFromEntities. rewrite process_pairs_stats.
    destruct (fold_classify_spawn (classnames (entity_pairs txt))
                (o_entityStats empty_out)) as (Hd & Hs & Hc & Hi).
    cbv beta zeta in *. cbn [empty_out o_entityStats createEmptyEntityStats
      spawnPoints deathmatch start coop intermission Nat.add] in *.
    destruct (spawnPoints _) as [d c s i]. cbn in *. congruence.
  - intros cls st0 Hp Hn. destruct (prefix_info_player cls Hp) as [Hw Ha].
    apply classify_ignored; auto.
  - intros cls st0 Hp. apply classify_info_frame. exact Hp.
Qed.

Lemma spawn_points_counted_witness :
  spawnPoints (o_entityStats (extractFromEntities spawn_text empty_out)) =
  {| deathmatch := 2; coop := 0; start := 1; intermission := 0 |}
  ∧ classifyClassname "info_player_team1" createEmptyEntityStats
    = createEmptyEntityStats
  ∧ weapons (classifyClassname "info_player_start" createEmptyEntityStats) = ∅.
Proof.
  destruct (spawn_points_counted spawn_text) as (Hsp & Hign & Hframe).
  split; [|split].
  - rewrite Hsp. vm_compute. reflexivity.
  - apply Hign; [reflexivity|].
    cbn. intros H. repeat (destruct H as [H|H]; [discriminate H|]). exact H.
  - apply (Hframe "info_player_start" createEmptyEntityStats). reflexivity.
Defined.

(** ** Map name and map version *)

Lemma analyze_ok_inv (buf : list byte) (r : AnalysisResult) :
  analyzeBspBuffer buf = Ok r → 8 <= Buffer.len buf ∧ r = analysis buf.
Proof.
  intros H. destruct (Z.lt_ge_cases (Buffer.len buf) 8) as [Hs|Hl].
  - rewrite analyze_short in H by assumption. discriminate H.
  - rewrite analyze_unfold in H by assumption. split; [assumption|congruence].
Qed.

Lemma first_value_app (p : string → bool) (l1 l2 : list (string * string))
    (k v : string) :
  (∀ k' v', In (k', v') l1 → Js.truthy v' = true → p k' = false) →
  Js.truthy v = true → p k = true →
  first_value p (l1 ++ (k, v) :: l2) = Some v.
Proof.
  intros Hl1 Hv Hk. unfold first_value.
  induction l1 as [|[k' v'] l1 IH]; cbn [app List.filter fst snd].
  - rewrite Hv, Hk. reflexivity.
  - destruct (Js.truthy v') eqn:Hv'.
    + rewrite (Hl1 k' v') by (cbn; auto). cbn [andb].
      apply IH. intros k0 v0 Hin. apply Hl1. right. exact Hin.
    + cbn [andb]. apply IH. intros k0 v0 Hin. apply Hl1. right. exact Hin.
Qed.

Lemma first_value_truthy (p : string → bool) (pairs : list (string * string)) :
  or_null (first_value p pairs) = first_value p pairs.
Proof.
  unfold first_value.
  destruct (List.filter _ pairs) as [|[k v] l] eqn:E; [reflexivity|].
  assert (Hin : In (k, v) (List.filter
            (fun kv => Js.truthy (snd kv) && p (fst kv)) pairs))
    by (rewrite E; left; reflexivity).
  apply filter_In in Hin as [_ Hkv]. apply andb_prop in Hkv as [Hv _].
  cbn in *. unfold or_null. cbn. rewrite Hv. reflexivity.
Qed.

Lemma extract_name (txt : string) :
  wi_name (o_worldInfo (extractFromEntities txt empty_out))
  = first_value is_name_key (entity_pairs txt).
Proof.
  unfold extractFromEntities. rewrite process_pairs_name. cbn.
  destruct (first_value is_name_key (entity_pairs txt)); reflexivity.
Qed.

Lemma extract_version (txt : string) :
  wi_version (o_worldInfo (extractFromEntities txt empty_out))
  = first_value is_version_key (entity_pairs txt).
Proof.
  unfold extractFromEntities. rewrite process_pairs_version. cbn.
  destruct (first_value is_version_key (entity_pairs txt)); reflexivity.
Qed.

(** C5.  Over the flat stream of pairs of the ENTITIES text, [mapName] is the
    raw value of the first pair with a non-empty value whose key is
    [message], [map] or [mapname], whatever comes later; [mapVersion] is the
    raw value of the first such pair with key [mapversion] or [version];
    and pairs with an empty value are skipped: the pass gives the same
    result without them. *)
Theorem map_name_first_wins (buf : list byte) (r : AnalysisResult) (txt : string) :
  analyzeBspBuffer buf = Ok r →
  entities_text buf = Some txt →
  mapName r = first_value is_name_key (entity_pairs txt)
  ∧ mapVersion r = first_value is_version_key (entity_pairs txt)
  ∧ (∀ l1 k v l2,
       entity_pairs txt = (l1 ++ (k, v) :: l2)%list →
       Js.truthy v = true → is_name_key k = true →
       (∀ k' v', In (k', v') l1 → Js.truthy v' = true → is_name_key k' = false) →
       mapName r = Some v)
  ∧ (∀ l1 k v l2,
       entity_pairs txt = (l1 ++ (k, v) :: l2)%list →
       Js.truthy v = true → is_version_key k = true →
       (∀ k' v', In (k', v') l1 → Js.truthy v' = true → is_version_key k' = false) →
       mapVersion r = Some v)
  ∧ (∀ pairs out,
       process_pairs pairs out
       = process_pairs (List.filter (fun kv => Js.truthy (snd kv)) pairs) out).
Proof.
  intros Hr Htxt. apply analyze_ok_inv in Hr as [_ ->].
  assert (Hn : mapName (analysis buf) = first_value is_name_key (entity_pairs txt)).
  { cbn [analysis mapName]. unfold entities_out. rewrite Htxt, extract_name.
    apply first_value_truthy. }
  assert (Hv : mapVersion (analysis buf)
               = first_value is_version_key (entity_pairs txt)).
  { cbn [analysis mapVersion]. unfold entities_out. rewrite Htxt, extract_version.
    apply first_value_truthy. }
  split; [exact Hn|]. split; [exact Hv|]. split; [|split].
  - intros l1 k v l2 Hp Htv Hk Hl1. rewrite Hn, Hp.
    apply first_value_app; assumption.
  - intros l1 k v l2 Hp Htv Hk Hl1. rewrite Hv, Hp.
    apply first_value_app; assumption.
  - intros pairs out. apply process_pairs_skip_empty.
Qed.

Lemma map_name_first_wins_witness :
  ∃ r, analyzeBspBuffer (bsp_with_entities "IBSP" 38 frag_text) = Ok r
       ∧ mapName r = Some "Frag Pit"
       ∧ mapVersion r = None.
Proof.
  eexists. split; [vm_compute; reflexivity|].
  match goal with
  | |- mapName ?r = _ ∧ _ =>
      destruct (map_name_first_wins (bsp_with_entities "IBSP" 38 frag_text) r
                  frag_text) as (Hn & Hv & Hfirst & _)
  end.
  - vm_compute. reflexivity.
  - vm_compute. reflexivity.
  - split.
    + apply (Hfirst [("classname", "worldspawn")] "message" "Frag Pit"
               [("classname", "target_help"); ("message", "Other Name")]).
      * vm_compute. reflexivity.
      * reflexivity.
      * reflexivity.
      * intros k' v' [Heq|[]] _. inversion Heq. reflexivity.
    + rewrite Hv. vm_compute. reflexivity.
Defined.

(** ** Sets and sorting *)

Lemma set_add_NoDup (x : string) (s : list string) :
  NoDup s → NoDup (set_add x s).
Proof.
  intros Hs. unfold set_add.
  destruct (existsb (String.eqb x) s) eqn:E; [exact Hs|].
  apply NoDup_app. split; [exact Hs|]. split.
  - intros y Hy Hyx. apply list_elem_of_singleton in Hyx. subst y.
    assert (set_has s x = true) as Hc
        by (apply set_has_In, list_elem_of_In; exact Hy).
    unfold set_has in Hc. congruence.
  - apply NoDup_singleton.
Qed.

Lemma set_add_In (x y : string) (s : list string) :
  In y (set_add x s) ↔ y = x ∨ In y s.
Proof.
  unfold set_add. destruct (existsb (String.eqb x) s) eqn:E.
  - split; [auto|]. intros [->|H]; [|exact H].
    apply (set_has_In s x). exact E.
  - rewrite in_app_iff. cbn. split; intros H; intuition (subst; auto).
Qed.

Lemma resource_step_nodup (k vv : string) (out : Out) :
  buckets_nodup out → buckets_nodup (resource_step k vv out).
Proof.
  intros (H1 & H2 & H3 & H4). unfold resource_step, buckets_nodup.
  repeat match goal with
         | |- context [if ?b then _ else _] => destruct b
         end;
    cbn; repeat split; try assumption; apply set_add_NoDup; assumption.
Qed.

Lemma pair_step_nodup (out : Out) (kv : string * string) :
  buckets_nodup out → buckets_nodup (pair_step out kv).
Proof.
  intros H. destruct kv as [k v]. unfold pair_step.
  destruct (Js.truthy v); [|exact H]. cbn [negb].
  apply resource_step_nodup. unfold buckets_nodup in *.
  destruct (class_step_buckets k v (world_step k v out)) as (-> & -> & -> & -> & _).
  destruct (world_step_buckets k v out) as (-> & -> & -> & -> & _).
  exact H.
Qed.

Lemma process_pairs_nodup (pairs : list (string * string)) :
  ∀ out, buckets_nodup out → buckets_nodup (process_pairs pairs out).
Proof.
  induction pairs as [|kv pairs IH]; intros out H; [exact H|].
  rewrite process_pairs_cons. apply IH, pair_step_nodup, H.
Qed.

Lemma entities_out_nodup (buf : list byte) : buckets_nodup (entities_out buf).
Proof.
  assert (He : buckets_nodup empty_out)
    by (unfold buckets_nodup; cbn; repeat split; apply NoDup_nil_2).
  unfold entities_out. destruct (entities_text buf); [|exact He].
  apply process_pairs_nodup, He.
Qed.

Lemma texinfo_loop_nodup (buf : list byte) (off : Z) (n : nat) :
  ∀ (i : Z) (acc : list string),
    NoDup acc → NoDup (texinfo_loop buf off n i acc).
Proof.
  induction n as [|n IH]; intros i acc H; [exact H|].
  cbn [texinfo_loop]. apply IH.
  destruct (Js.truthy _); [apply set_add_NoDup|]; exact H.
Qed.

Lemma texinfo_set_nodup (buf : list byte) : NoDup (texinfo_set buf).
Proof.
  unfold texinfo_set. destruct (usable_lump buf LUMP_TEXINFO).
  - apply texinfo_loop_nodup, NoDup_nil_2.
  - apply NoDup_nil_2.
Qed.

Lemma leb_trans (a b c : string) :
  String.leb a b = true → String.leb b c = true → String.leb a c = true.
Proof.
  intros H1 H2. apply Is_true_true. apply Is_true_true in H1, H2.
  exact (transitivity (R := String.le) H1 H2).
Qed.

Lemma ltb_of_leb (a b : string) :
  String.leb a b = true → a ≠ b → String.ltb a b = true.
Proof.
  unfold String.leb, String.ltb. intros Hle Hne.
  destruct (String.compare a b) eqn:E; try reflexivity; try discriminate.
  apply String.compare_eq_iff in E. contradiction.
Qed.

Lemma strongly_sorted_strict (l : list string) :
  StronglySorted (fun a b => String.leb a b = true) l → NoDup l → ascending l.
Proof.
  unfold ascending. induction 1 as [|a l Hs IH Hall]; intros Hnd.
  - constructor.
  - apply NoDup_cons in Hnd as [Hnotin Hnd].
    constructor; [apply IH, Hnd|].
    rewrite List.Forall_forall in *. intros y Hy.
    apply ltb_of_leb; [apply Hall, Hy|].
    intros ->. apply Hnotin, list_elem_of_In, Hy.
Qed.

Lemma sort_strings_ascending (l : list string) :
  NoDup l → ascending (sort_strings l) ∧ NoDup (sort_strings l)
            ∧ Permutation l (sort_strings l).
Proof.
  intros Hnd. unfold sort_strings.
  pose proof (StringSort.Permuted_sort l) as Hp.
  assert (Hnd' : NoDup (StringSort.sort l)) by (rewrite <- Hp; exact Hnd).
  split; [|split; assumption].
  apply strongly_sorted_strict; [|exact Hnd'].
  apply StringSort.StronglySorted_sort.
  intros a b c. apply leb_trans.
Qed.

(** C8.  In every result the five resource lists are strictly ascending in
    lexicographic order, hence free of duplicates, and hold exactly the
    members of their sets; [errors] and [warnings] are the diagnostics in
    the order in which the code pushes them, neither sorted nor
    deduplicated. *)
Theorem resources_sorted_unique (buf : list byte) (r : AnalysisResult) :
  analyzeBspBuffer buf = Ok r →
  (ascending (textures r) ∧ NoDup (textures r)
   ∧ Permutation (texinfo_set buf) (textures r))
  ∧ (ascending (skies r) ∧ NoDup (skies r)
     ∧ Permutation (o_skies (entities_out buf)) (skies r))
  ∧ (ascending (sounds r) ∧ NoDup (sounds r)
     ∧ Permutation (o_sounds (entities_out buf)) (sounds r))
  ∧ (ascending (models r) ∧ NoDup (models r)
     ∧ Permutation (o_models (entities_out buf)) (models r))
  ∧ (ascending (others r) ∧ NoDup (others r)
     ∧ Permutation (o_others (entities_out buf)) (others r))
  ∧ errors r = emitted_errors buf
  ∧ warnings r = emitted_warnings buf.
Proof.
  intros Hr. apply analyze_ok_inv in Hr as [_ ->].
  destruct (entities_out_nodup buf) as (H1 & H2 & H3 & H4).
  cbn [analysis textures skies sounds models others errors warnings].
  repeat split; try (apply sort_strings_ascending; first
    [apply texinfo_set_nodup | assumption]).
Qed.

Lemma resources_sorted_unique_witness :
  (∃ r, analyzeBspBuffer dup_buf = Ok r
        ∧ ascending (sounds r)
        ∧ sounds r = ["world/amb0.wav"; "world/amb1.wav"]
        ∧ textures r = ["textures/e1u1/floor.wal"; "textures/e1u1/wall01.wal"]
        ∧ errors r = [msg_signature "XXXX"])
  ∧ (∃ r, analyzeBspBuffer bare_buf = Ok r
          ∧ warnings r = [msg_version 39; msg_entities; msg_texinfo]
          ∧ String.ltb msg_entities (msg_version 39) = true).
Proof.
  split.
  - eexists. split; [vm_compute; reflexivity|].
    match goal with
    | |- ascending (sounds ?r) ∧ _ =>
        destruct (resources_sorted_unique dup_buf r)
          as (_ & _ & (Hs & _ & _) & _ & _ & He & _)
    end.
    + vm_compute. reflexivity.
    + split; [exact Hs|]. split; [vm_compute; reflexivity|].
      split; [vm_compute; reflexivity|].
      rewrite He. vm_compute. reflexivity.
  - eexists. split; [vm_compute; reflexivity|].
    match goal with
    | |- warnings ?r = _ ∧ _ =>
        destruct (resources_sorted_unique bare_buf r)
          as (_ & _ & _ & _ & _ & _ & Hw)
    end.
    + vm_compute. reflexivity.
    + split; [rewrite Hw; vm_compute; reflexivity|vm_compute; reflexivity].
Defined.

(** ** The catch-all key pattern *)

(** C10.  For a pair with a non-empty value whose key is none of [sky],
    [model], [music], [cdtrack], [wav], [wad], [noise], [snd] and does not
    start with [sound], the pass adds [key=value] (value with forward
    slashes) to [others] exactly when the key starts with [path], or
    contains [file], or contains [script], or ends with [shader], compared
    without regard to case; the other three buckets are not touched. *)
Theorem others_by_key_pattern (out : Out) (k v : string) :
  Js.truthy v = true →
  k ≠ "sky" → k ≠ "model" → k ≠ "music" → k ≠ "cdtrack" → k ≠ "wav" →
  k ≠ "wad" → k ≠ "noise" → k ≠ "snd" → Js.startsWith k "sound" = false →
  o_others (pair_step out (k, v)) =
    (if Str.has_prefix Re.lit_i "path" k || Str.contains Re.lit_i "file" k
        || Str.contains Re.lit_i "script" k || Str.ends_with Re.lit_i "shader" k
     then set_add (k ++ "=" ++ slashes v) (o_others out)
     else o_others out)
  ∧ o_skies (pair_step out (k, v)) = o_skies out
  ∧ o_sounds (pair_step out (k, v)) = o_sounds out
  ∧ o_models (pair_step out (k, v)) = o_models out.
Proof.
  intros Hv Hsky Hmodel Hmusic Hcd Hwav Hwad Hnoise Hsnd Hsound.
  assert (Hso : String.eqb k "sound" = false).
  { apply String.eqb_neq. intros ->. discriminate Hsound. }
  apply String.eqb_neq in Hsky, Hmodel, Hmusic, Hcd, Hwav, Hwad, Hnoise, Hsnd.
  unfold pair_step. rewrite Hv. cbn [negb].
  destruct (class_step_buckets k v (world_step k v out)) as (Hc1 & Hc2 & Hc3 & Hc4 & _).
  destruct (world_step_buckets k v out) as (Hw1 & Hw2 & Hw3 & Hw4 & _).
  unfold resource_step.
  rewrite Hsky, Hso, Hnoise, Hsnd, test_sound_key, Hsound, Hmodel, Hmusic, Hcd,
    Hwav, Hwad, test_other_key.
  cbn [orb].
  destruct (Str.has_prefix Re.lit_i "path" k || Str.contains Re.lit_i "file" k
            || Str.contains Re.lit_i "script" k || Str.ends_with Re.lit_i "shader" k);
    cbn [add_other o_others o_skies o_sounds o_models];
    rewrite ?Hc1, ?Hc2, ?Hc3, ?Hc4, ?Hw1, ?Hw2, ?Hw3, ?Hw4; auto.
Qed.

Lemma others_by_key_pattern_witness :
  o_others (pair_step empty_out ("profiled", "maps\prof.dat"))
  = ["profiled=maps/prof.dat"]
  ∧ o_others (pair_step empty_out ("shaders", "x")) = []
  ∧ o_others (pair_step empty_out ("xpath", "x")) = []
  ∧ o_others (pair_step empty_out ("myshader", "x")) = ["myshader=x"].
Proof.
  split; [|split; [|split]].
  - destruct (others_by_key_pattern empty_out "profiled" "maps\prof.dat")
      as [H _];
      [reflexivity | discriminate .. | reflexivity
      | rewrite H; vm_compute; reflexivity].
  - destruct (others_by_key_pattern empty_out "shaders" "x")
      as [H _];
      [reflexivity | discriminate .. | reflexivity
      | rewrite H; vm_compute; reflexivity].
  - destruct (others_by_key_pattern empty_out "xpath" "x")
      as [H _];
      [reflexivity | discriminate .. | reflexivity
      | rewrite H; vm_compute; reflexivity].
  - destruct (others_by_key_pattern empty_out "myshader" "x")
      as [H _];
      [reflexivity | discriminate .. | reflexivity
      | rewrite H; vm_compute; reflexivity].
Defined.

(** ** Fatal and recoverable inputs *)

(** C1.  A buffer shorter than 8 bytes makes [analyzeBspBuffer] throw; on
    every buffer of at least 8 bytes it returns a result, whatever the
    bytes are. *)
Theorem analyze_throws_iff_short (buf : list byte) :
  (Buffer.len buf < 8 → analyzeBspBuffer buf = Throw (JsError msg_too_small))
  ∧ (8 <= Buffer.len buf → ∃ r, analyzeBspBuffer buf = Ok r).
Proof.
  split.
  - apply analyze_short.
  - intros H. exists (analysis buf). apply analyze_unfold. exact H.
Qed.

Lemma analyze_throws_iff_short_witness :
  analyzeBspBuffer (bytes_of "IBSP" ++ [x26; x00; x00])%list
  = Throw (JsError msg_too_small)
  ∧ (∃ r, analyzeBspBuffer (bytes_of "XXXX" ++ le32 (-1) ++ [xff; xff; xff])%list = Ok r)
  ∧ (∃ r, analyzeBspBuffer
            (bsp_head "IBSP" 38
               (fun i => if (i =? 0)%nat then (100, 2000)
                         else if (i =? 5)%nat then (-2147483648, 2147483647)
                         else (-1, -1))) = Ok r).
Proof.
  split; [|split].
  - apply analyze_throws_iff_short. vm_compute. reflexivity.
  - apply analyze_throws_iff_short. vm_compute. discriminate.
  - apply analyze_throws_iff_short. vm_compute. discriminate.
Defined.

(** ** Strings *)

Lemma append_assoc (a b c : string) : (a ++ b) ++ c = a ++ (b ++ c).
Proof. induction a as [|x a IH]; simpl; [reflexivity|]. rewrite IH. reflexivity. Qed.

Lemma substring_all (s : string) : String.substring 0 (String.length s) s = s.
Proof. induction s as [|c s IH]; simpl; [reflexivity|]. rewrite IH. reflexivity. Qed.

Lemma ends_with_append (f : ascii → ascii → bool) (w : string) :
  Str.equal f w w = true → ∀ p, Str.ends_with f w (p ++ w) = true.
Proof.
  intros Hw. induction p as [|c p IH]; cbn [String.append Str.ends_with].
  - destruct w; cbn [Str.ends_with]; rewrite Hw; reflexivity.
  - rewrite IH. apply orb_true_r.
Qed.

Lemma subst_char_head (a b : ascii) (s : string) (c : ascii) (rest : string) :
  a ≠ b → Str.subst_char a b s = String c rest → c ≠ a.
Proof.
  intros Hab H. destruct s as [|c0 s]; [discriminate H|].
  simpl in H. inversion H; subst.
  destruct (Ascii.eqb_spec c0 a); congruence.
Qed.

Lemma drop_while_head (p : ascii → bool) (c : ascii) (s : string) :
  p c = false → Str.drop_while p (String c s) = String c s.
Proof. intros H. simpl. rewrite H. reflexivity. Qed.

Lemma append_length (a b : string) :
  String.length (a ++ b) = (String.length a + String.length b)%nat.
Proof. induction a as [|c a IH]; cbn; [reflexivity|]. rewrite IH. reflexivity. Qed.

Lemma subst_char_length (a b : ascii) (s : string) :
  String.length (Str.subst_char a b s) = String.length s.
Proof. induction s as [|c s IH]; cbn; [reflexivity|]. rewrite IH. reflexivity. Qed.

Lemma subst_char_idem (a b : ascii) (s : string) :
  Ascii.eqb b a = false →
  Str.subst_char a b (Str.subst_char a b s) = Str.subst_char a b s.
Proof.
  intros Hab. induction s as [|c s IH]; cbn; [reflexivity|].
  rewrite IH. destruct (Ascii.eqb c a) eqn:E; [rewrite Hab|rewrite E]; reflexivity.
Qed.

Lemma subst_char_append (a b : ascii) (s t : string) :
  Str.subst_char a b (s ++ t) = Str.subst_char a b s ++ Str.subst_char a b t.
Proof. induction s as [|c s IH]; cbn; [reflexivity|]. rewrite IH. reflexivity. Qed.

Lemma drop_while_length (p : ascii → bool) (s : string) :
  (String.length (Str.drop_while p s) <= String.length s)%nat.
Proof.
  induction s as [|c s IH]; cbn; [lia|].
  destruct (p c); cbn; lia.
Qed.

Lemma drop_while_sep_head (s : string) :
  match Str.drop_while is_sep s with
  | String c _ => is_sep c = false
  | EmptyString => True
  end.
Proof.
  induction s as [|c s IH]; cbn; [exact I|].
  destruct (is_sep c) eqn:E; [exact IH|exact E].
Qed.

Lemma is_sep_slashes (c : ascii) :
  is_sep (if Ascii.eqb c backslash then slash else c) = is_sep c.
Proof.
  unfold is_sep. destruct (Ascii.eqb c backslash) eqn:E; [reflexivity|].
  rewrite E. reflexivity.
Qed.

Lemma lit_i_t_not_sep (x : ascii) : Re.lit_i "t" x = true → is_sep x = false.
Proof.
  destruct x as [[] [] [] [] [] [] [] []]; vm_compute; intros; congruence.
Qed.

(** The normalised name begins with a separator exactly when the name
    does: a matched prefix begins with a letter and is removed with the
    whole run of separators after it. *)
Lemma subst_char_head_sep (name : string) :
  match Str.subst_char backslash slash name, name with
  | String c _, String d _ => is_sep c = is_sep d
  | String c _, EmptyString => False
  | EmptyString, String d _ => is_sep d = false
  | EmptyString, EmptyString => True
  end.
Proof. destruct name as [|d name]; cbn; [exact I|apply is_sep_slashes]. Qed.

Lemma normalize_texture_head (name : string) :
  match normalize_texture name, name with
  | String c _, String d _ => is_sep c = is_sep d
  | String c _, EmptyString => False
  | EmptyString, String d _ => is_sep d = false
  | EmptyString, EmptyString => True
  end.
Proof.
  rewrite normalize_texture_spec. unfold strip_textures.
  destruct (Str.strip Re.lit_i "textures" name) as [[|c rest]|] eqn:E.
  - apply subst_char_head_sep.
  - destruct (is_sep c) eqn:Ec; [|apply subst_char_head_sep].
    destruct name as [|d name]; [discriminate E|].
    cbn [Str.strip] in E. destruct (Re.lit_i "t" d) eqn:Ed; [|discriminate E].
    apply lit_i_t_not_sep in Ed.
    pose proof (drop_while_sep_head rest) as Hh.
    destruct (Str.drop_while is_sep rest) as [|x t]; cbn [Str.subst_char];
      [exact Ed|].
    rewrite is_sep_slashes, Hh, Ed. reflexivity.
  - apply subst_char_head_sep.
Qed.

(** The normaliser run over its own output. *)
Lemma normalize_texture_output (n : string) :
  normalize_texture ("textures/" ++ n ++ ".wal")
  = Str.subst_char backslash slash (Str.drop_while is_sep (n ++ ".wal")).
Proof.
  rewrite normalize_texture_spec. reflexivity.
Qed.

(** ** The texture names *)

(** C9.  The output of the texture normaliser is ["textures/"], the
    normalised name and [".wal"]: removing the nine characters of the
    prefix ["textures/"] that the normaliser put there and putting them
    back gives the same string, and the output always ends with [".wal"].
    Normalising the output again and putting the prefix back gives the
    same string exactly when the name does not begin with a slash or a
    backslash: on the output of such a name the prefix pattern takes the
    separators that follow ["textures/"] as well. *)
Theorem texture_path_shape (name : string) :
  let out := texture_path name in
  String.prefix "textures/" out = true
  ∧ String.substring 9 (String.length out - 9) out = normalize_texture name ++ ".wal"
  ∧ "textures/" ++ String.substring 9 (String.length out - 9) out = out
  ∧ Str.ends_with Re.lit ".wal" out = true
  ∧ ("textures/" ++ normalize_texture out = out ↔ head_is_sep name = false).
Proof.
  cbv zeta. unfold texture_path.
  pose proof (normalize_texture_head name) as Hhead.
  assert (Hid : Str.subst_char backslash slash (normalize_texture name ++ ".wal")
                = normalize_texture name ++ ".wal").
  { rewrite subst_char_append. f_equal.
    rewrite normalize_texture_spec. apply subst_char_idem. reflexivity. }
  remember (normalize_texture name) as n eqn:En.
  assert (Hsub : String.substring 9 (String.length ("textures/" ++ n ++ ".wal") - 9)
                   ("textures/" ++ n ++ ".wal") = n ++ ".wal").
  { simpl. rewrite Nat.sub_0_r. apply substring_all. }
  split; [simpl; destruct (n ++ ".wal"); reflexivity|].
  split; [exact Hsub|]. split; [rewrite Hsub; reflexivity|].
  split.
  - rewrite <- append_assoc. apply ends_with_append. reflexivity.
  - rewrite normalize_texture_output.
    assert (Hn : head_is_sep name = head_is_sep n).
    { destruct n as [|c n]; destruct name as [|d name]; cbn [head_is_sep];
        try reflexivity; try contradiction; congruence. }
    rewrite Hn. clear Hn Hhead En. split.
    + intros H. destruct n as [|c n]; [reflexivity|]. cbn [head_is_sep].
      destruct (is_sep c) eqn:Ec; [|reflexivity]. exfalso.
      apply (f_equal String.length) in H.
      cbn [String.append Str.drop_while] in H. rewrite Ec in H.
      cbn [String.length] in H. rewrite subst_char_length in H.
      pose proof (drop_while_length is_sep (n ++ ".wal")) as Hl.
      lia.
    + intros H. destruct n as [|c n]; [reflexivity|]. cbn [head_is_sep] in H.
      change (String c n ++ ".wal") with (String c (n ++ ".wal")) in *.
      rewrite (drop_while_head is_sep c (n ++ ".wal") H), Hid. reflexivity.
Qed.

Lemma texture_path_shape_witness :
  texture_path "e1u1/wall01" = "textures/e1u1/wall01.wal"
  ∧ "textures/" ++ normalize_texture (texture_path "e1u1/wall01")
    = texture_path "e1u1/wall01"
  ∧ Str.ends_with Re.lit ".wal" (texture_path "Textures\E1U1\Wall.TGA") = true.
Proof.
  split; [vm_compute; reflexivity|]. split.
  - destruct (texture_path_shape "e1u1/wall01") as (_ & _ & _ & _ & [_ H]).
    apply H. reflexivity.
  - apply (texture_path_shape "Textures\E1U1\Wall.TGA").
Defined.

(** C9 as stated fails on a name that begins with a separator: the name
    [/a] is read from a name field as it is and gives [textures//a.wal];
    normalising that output again removes both slashes after
    [textures], and putting the prefix back gives [textures/a.wal]. *)
Lemma texture_renormalize_counterexample :
  readCString (bytes_of "/a" ++ [x00]) 0 32 = "/a"
  ∧ texture_path "/a" = "textures//a.wal"
  ∧ "textures/" ++ normalize_texture (texture_path "/a") = "textures/a.wal"
  ∧ "textures/" ++ normalize_texture (texture_path "/a") ≠ texture_path "/a".
Proof.
  split; [vm_compute; reflexivity|].
  split; [vm_compute; reflexivity|].
  split; [vm_compute; reflexivity|].
  vm_compute. discriminate.
Qed.

(** ** Reading a name field *)

Lemma get_skipn (buf : list byte) (s : Z) :
  0 <= s → Buffer.get buf s = hd_error (skipn (Z.to_nat s) buf).
Proof.
  intros Hs. unfold Buffer.get.
  destruct (Z.ltb_spec s 0) as [Hneg|_]; [lia|].
  generalize (Z.to_nat s). intros n. revert buf.
  induction n as [|n IH]; intros [|b buf]; simpl; auto.
Qed.

Lemma skipn_succ (buf : list byte) (n : nat) (b : byte) (rest : list byte) :
  skipn n buf = b :: rest → skipn (S n) buf = rest.
Proof.
  revert buf. induction n as [|n IH]; intros [|x buf] H; cbn [skipn] in *;
    try discriminate.
  - inversion H. reflexivity.
  - apply IH. exact H.
Qed.

Lemma scan_nul_in_range (buf : list byte) :
  ∀ (n : nat) (s : Z),
    0 <= s → s + Z.of_nat n <= Buffer.len buf →
    scan_nul buf s n
    = s + Z.of_nat (zero_index (firstn n (skipn (Z.to_nat s) buf))).
Proof.
  induction n as [|n IH]; intros s Hs Hlen.
  - simpl. lia.
  - cbn [scan_nul]. rewrite get_skipn by lia.
    destruct (skipn (Z.to_nat s) buf) as [|b rest] eqn:E.
    + exfalso. apply (f_equal (@List.length byte)) in E.
      rewrite List.length_skipn in E. unfold Buffer.len in Hlen. simpl in E. lia.
    + cbn [hd_error firstn zero_index].
      destruct (Buffer.u8 b =? 0); [lia|].
      rewrite IH by lia.
      replace (Z.to_nat (s + 1)) with (S (Z.to_nat s)) by lia.
      rewrite (skipn_succ _ _ _ _ E). lia.
Qed.

Lemma zero_index_le (field : list byte) : (zero_index field <= List.length field)%nat.
Proof.
  induction field as [|b field IH]; simpl; [lia|].
  destruct (Buffer.u8 b =? 0); lia.
Qed.

Lemma toString_slice (buf : list byte) (s : Z) (k : nat) :
  0 <= s → s + Z.of_nat k <= Buffer.len buf →
  Buffer.toString buf s (s + Z.of_nat k)
  = Buffer.decode (firstn k (skipn (Z.to_nat s) buf)).
Proof.
  intros Hs Hlen. unfold Buffer.toString. cbv zeta.
  destruct (Z.ltb_spec 0 s); destruct (Z.leb_spec (Buffer.len buf) s);
    destruct (Z.leb_spec s 0);
    destruct (Z.ltb_spec (Buffer.len buf) (s + Z.of_nat k));
    cbn [andb]; cbv iota; try lia;
    try (assert (k = 0%nat) by lia; subst k; reflexivity);
    match goal with
    | |- context [Z.leb ?a ?b] => destruct (Z.leb_spec a b)
    end;
    try (assert (k = 0%nat) by lia; subst k; reflexivity);
    do 2 f_equal; try lia.
  assert (s = 0) by lia. subst s. reflexivity.
Qed.

(** A name field that lies inside the buffer decides the name. *)
Lemma readCString_in_range (buf : list byte) (s : Z) :
  0 <= s → s + 32 <= Buffer.len buf →
  readCString buf s 32 = cstring_of (firstn 32 (skipn (Z.to_nat s) buf)).
Proof.
  intros Hs Hlen. unfold readCString, cstring_of.
  rewrite Z.min_l by lia.
  replace (Z.to_nat (s + 32 - s)) with 32%nat by lia.
  assert (H32 : Z.of_nat 32 = 32) by reflexivity.
  rewrite scan_nul_in_range by lia.
  set (field := firstn 32 (skipn (Z.to_nat s) buf)).
  assert (Hk : (zero_index field <= 32)%nat).
  { etransitivity; [apply zero_index_le|]. unfold field.
    rewrite List.length_firstn. lia. }
  rewrite toString_slice by lia.
  unfold re_nul. rewrite replace_all_remove.
  do 3 f_equal. unfold field in *. rewrite List.firstn_firstn. f_equal. lia.
Qed.

(** ** The loop over the TEXINFO records *)

Lemma texinfo_loop_fold (buf : list byte) (off : Z) :
  ∀ (n i : nat) (acc : list string),
    texinfo_loop buf off n (Z.of_nat i) acc =
    fold_left add_texture
      (map (fun j => readCString buf (off + Z.of_nat j * DTEXINFO_SIZE + 32 + 4 + 4) 32)
           (seq i n))
      acc.
Proof.
  induction n as [|n IH]; intros i acc; [reflexivity|].
  cbn [texinfo_loop seq map fold_left].
  replace (Z.of_nat i + 1) with (Z.of_nat (S i)) by lia.
  rewrite IH. reflexivity.
Qed.

Lemma fold_add_texture_In (names : list string) :
  ∀ (acc : list string) (x : string),
    In x (fold_left add_texture names acc) ↔
    In x acc ∨ ∃ name, In name names ∧ Js.truthy name = true ∧ x = texture_path name.
Proof.
  induction names as [|name names IH]; intros acc x; cbn [fold_left].
  - split; [auto|]. intros [H|(n & [] & _)]. exact H.
  - rewrite IH. unfold add_texture at 1.
    destruct (Js.truthy name) eqn:Ht.
    + rewrite set_add_In. split.
      * intros [[->|H]|(n & Hn & Hn1 & Hn2)].
        -- right. exists name. cbn. auto.
        -- left. exact H.
        -- right. exists n. cbn. auto.
      * intros [H|(n & [<-|Hn] & Hn1 & Hn2)].
        -- left. right. exact H.
        -- left. left. exact Hn2.
        -- right. exists n. auto.
    + split.
      * intros [H|(n & Hn & Hn1 & Hn2)]; [left; exact H|].
        right. exists n. cbn. auto.
      * intros [H|(n & [<-|Hn] & Hn1 & Hn2)]; [left; exact H|congruence|].
        right. exists n. auto.
Qed.

Lemma texinfo_set_names (buf : list byte) :
  texinfo_set buf =
  match usable_lump buf LUMP_TEXINFO with
  | Some t =>
      fold_left add_texture
        (record_names buf (lump_offset t) (Z.to_nat (lump_length t / DTEXINFO_SIZE)))
        []
  | None => []
  end.
Proof.
  unfold texinfo_set. destruct (usable_lump buf LUMP_TEXINFO) as [t|]; [|reflexivity].
  apply (texinfo_loop_fold buf (lump_offset t) _ 0 []).
Qed.

Lemma usable_lump_spec (buf : list byte) (i : nat) (l : Lump) :
  usable_lump buf i = Some l ↔
  nth_error (lump_table buf) i = Some l
  ∧ 0 < lump_length l
  ∧ lump_offset l + lump_length l <= Buffer.len buf.
Proof.
  unfold usable_lump, lump_usable.
  destruct (nth_error (lump_table buf) i) as [x|];
    [|split; [discriminate|intros [H _]; discriminate H]].
  destruct (Z.ltb_spec 0 (lump_length x));
    destruct (Z.leb_spec (lump_offset x + lump_length x) (Buffer.len buf));
    cbn [andb]; split;
    try discriminate;
    try (intros (H' & ? & ?); inversion H'; subst; first [reflexivity|lia]).
  intros H'. inversion H'; subst. auto.
Qed.

(** ** The prefix pattern, case by case *)

Lemma strip_equal_append (f : ascii → ascii → bool) (w : string) :
  ∀ p s, Str.equal f w p = true → Str.strip f w (p ++ s) = Some s.
Proof.
  unfold Str.equal. induction w as [|c w IH]; intros p s H; simpl in *.
  - destruct p; [reflexivity|discriminate H].
  - destruct p as [|x p]; [discriminate H|]. simpl.
    destruct (f c x); [|discriminate H]. apply IH. exact H.
Qed.

Lemma strip_word_append (f : ascii → ascii → bool) (w1 w2 : string) :
  ∀ s, Str.strip f (w1 ++ w2) s =
       match Str.strip f w1 s with
       | Some rest => Str.strip f w2 rest
       | None => None
       end.
Proof.
  induction w1 as [|c w1 IH]; intros s; simpl; [reflexivity|].
  destruct s as [|x s]; [reflexivity|].
  destruct (f c x); [apply IH|reflexivity].
Qed.

Lemma drop_while_append (p : ascii → bool) (a b : string) :
  Str.drop_while p a = EmptyString →
  Str.drop_while p (a ++ b) = Str.drop_while p b.
Proof.
  induction a as [|c a IH]; simpl; [reflexivity|].
  destruct (p c); [exact IH|discriminate].
Qed.

Lemma drop_while_no_sep (s : string) :
  head_is_sep s = false → Str.drop_while is_sep s = s.
Proof. destruct s as [|c s]; simpl; [reflexivity|]. intros ->. reflexivity. Qed.

Lemma strip_textures_run (p seps rest : string) :
  Str.equal Re.lit_i "textures" p = true →
  seps ≠ EmptyString → Str.drop_while is_sep seps = EmptyString →
  head_is_sep rest = false →
  strip_textures (p ++ seps ++ rest) = rest.
Proof.
  intros Hp Hne Hseps Hrest. unfold strip_textures.
  rewrite (strip_equal_append _ _ p (seps ++ rest) Hp).
  destruct seps as [|c seps]; [contradiction|].
  cbn [String.append]. cbn [Str.drop_while] in Hseps.
  destruct (is_sep c) eqn:Hc; [|discriminate Hseps].
  rewrite drop_while_append by exact Hseps.
  apply drop_while_no_sep, Hrest.
Qed.

Lemma strip_textures_none (name : string) :
  Str.has_prefix Re.lit_i "textures/" name = false →
  Str.has_prefix Re.lit_i textures_bs name = false →
  strip_textures name = name.
Proof.
  unfold Str.has_prefix, strip_textures, textures_bs.
  change "textures/" with ("textures" ++ "/").
  rewrite !strip_word_append.
  destruct (Str.strip Re.lit_i "textures" name) as [[|c rest]|]; try reflexivity.
  cbn [Str.strip]. unfold is_sep, Re.lit_i.
  destruct (Ascii.eqb_spec c backslash) as [->|Hb]; [intros _ H; discriminate H|].
  destruct (Ascii.eqb_spec c slash) as [->|Hs]; [intros H; discriminate H|].
  reflexivity.
Qed.

(** C2 (as the code has it).  The textures of a result are exactly the
    paths [texture_path name] of the TEXINFO records whose name is not
    empty, where [texture_path name] is ["textures/"], the stripped name
    with every backslash replaced by a slash, and [".wal"], whatever
    extension the name carries.  Stripping removes a leading "textures"
    in any case together with the whole run of one or more slashes or
    backslashes after it, and leaves a name without such a prefix as it
    is.  A TEXINFO lump of length 76 whose name field holds "e1u1/wall01"
    padded with NUL gives exactly ["textures/e1u1/wall01.wal"]. *)
Theorem texture_of_record (buf : list byte) (r : AnalysisResult) :
  analyzeBspBuffer buf = Ok r →
  (∀ x, In x (textures r) ↔
        ∃ t name,
          usable_lump buf LUMP_TEXINFO = Some t
          ∧ In name (record_names buf (lump_offset t)
                       (Z.to_nat (lump_length t / DTEXINFO_SIZE)))
          ∧ Js.truthy name = true
          ∧ x = texture_path name)
  ∧ (∀ name,
       texture_path name =
       "textures/" ++ Str.subst_char backslash slash (strip_textures name) ++ ".wal")
  ∧ (∀ p seps rest,
       Str.equal Re.lit_i "textures" p = true →
       seps ≠ EmptyString → Str.drop_while is_sep seps = EmptyString →
       head_is_sep rest = false →
       strip_textures (p ++ seps ++ rest) = rest)
  ∧ (∀ name,
       Str.has_prefix Re.lit_i "textures/" name = false →
       Str.has_prefix Re.lit_i textures_bs name = false →
       strip_textures name = name)
  ∧ (∀ t,
       usable_lump buf LUMP_TEXINFO = Some t →
       lump_length t = 76 → 0 <= lump_offset t →
       name_field buf (lump_offset t) 0
       = (bytes_of "e1u1/wall01" ++ repeat x00 21)%list →
       textures r = ["textures/e1u1/wall01.wal"]).
Proof.
  intros Hr. apply analyze_ok_inv in Hr as [_ ->].
  cbn [analysis textures].
  split; [|split; [|split; [|split]]].
  - intros x.
    pose proof (StringSort.Permuted_sort (texinfo_set buf)) as Hp.
    unfold sort_strings. split.
    + intros Hx. apply (Permutation_in _ (Permutation_sym Hp)) in Hx.
      rewrite texinfo_set_names in Hx.
      destruct (usable_lump buf LUMP_TEXINFO) as [t|]; [|contradiction].
      apply fold_add_texture_In in Hx as [[]|(name & H1 & H2 & H3)].
      exists t, name. auto.
    + intros (t & name & Ht & H1 & H2 & H3).
      apply (Permutation_in _ Hp).
      rewrite texinfo_set_names, Ht. apply fold_add_texture_In.
      right. exists name. auto.
  - intros name. unfold texture_path. rewrite normalize_texture_spec. reflexivity.
  - apply strip_textures_run.
  - apply strip_textures_none.
  - intros t Ht Hlen Hoff Hfield.
    rewrite texinfo_set_names, Ht, Hlen.
    apply usable_lump_spec in Ht as (_ & _ & Hfit).
    change (Z.to_nat (76 / DTEXINFO_SIZE)) with 1%nat.
    unfold record_names. cbn [seq map].
    rewrite readCString_in_range by (unfold DTEXINFO_SIZE; lia).
    unfold name_field in Hfield.
    replace (lump_offset t + Z.of_nat 0 * DTEXINFO_SIZE + 32 + 4 + 4)
      with (lump_offset t + Z.of_nat 0 * DTEXINFO_SIZE + 40) by lia.
    rewrite Hfield. vm_compute. reflexivity.
Qed.

Lemma texture_of_record_witness :
  ∃ r, analyzeBspBuffer wall_buf = Ok r
       ∧ textures r = ["textures/e1u1/wall01.wal"]
       ∧ strip_textures "TEXTURES\/e1u1/wall01" = "e1u1/wall01"
       ∧ strip_textures "texturesque/wall01" = "texturesque/wall01".
Proof.
  eexists. split; [vm_compute; reflexivity|].
  match goal with
  | |- textures ?r = _ ∧ _ =>
      destruct (texture_of_record wall_buf r) as (_ & _ & Hrun & Hnone & Hex)
  end.
  - vm_compute. reflexivity.
  - split; [|split].
    + apply (Hex (mkLump 160 76)).
      * vm_compute. reflexivity.
      * reflexivity.
      * vm_compute. discriminate.
      * vm_compute. reflexivity.
    + apply (Hrun "TEXTURES" (String backslash "/") "e1u1/wall01").
      * vm_compute. reflexivity.
      * discriminate.
      * vm_compute. reflexivity.
      * reflexivity.
    + apply Hnone; vm_compute; reflexivity.
Defined.

(** C2 as stated fails on a name with two separators after "textures":
    the code removes both, the statement removes one. *)
Lemma texture_double_separator_counterexample :
  ∃ r, analyzeBspBuffer double_sep_buf = Ok r
       ∧ record_names double_sep_buf 160 1 = ["textures//a"]
       ∧ textures r = ["textures/a.wal"]
       ∧ spec_texture_path "textures//a" = "textures//a.wal"
       ∧ textures r ≠ [spec_texture_path "textures//a"].
Proof.
  eexists. split; [vm_compute; reflexivity|].
  split; [vm_compute; reflexivity|].
  split; [vm_compute; reflexivity|].
  split; [vm_compute; reflexivity|].
  vm_compute. discriminate.
Qed.

(** ** Lumps that fail the test of their consumer *)

Lemma sort_strings_nil : sort_strings [] = [].
Proof. reflexivity. Qed.

(** A lump that is missing, empty, of negative length or that ends beyond
    the buffer is treated as absent: its bucket is empty, its warning is
    emitted and the analysis returns. *)
Lemma unusable_lump_absent (buf : list byte) (r : AnalysisResult) :
  analyzeBspBuffer buf = Ok r →
  (usable_lump buf LUMP_ENTITIES = None →
   In msg_entities (warnings r)
   ∧ skies r = [] ∧ sounds r = [] ∧ models r = [] ∧ others r = []
   ∧ entityStats r = createEmptyEntityStats
   ∧ mapName r = None ∧ mapVersion r = None)
  ∧ (usable_lump buf LUMP_TEXINFO = None →
     In msg_texinfo (warnings r) ∧ textures r = []).
Proof.
  intros Hr. apply analyze_ok_inv in Hr as [_ ->]. split; intros Hu.
  - cbn [analysis warnings skies sounds models others entityStats mapName mapVersion].
    unfold emitted_warnings, entities_out, entities_text. rewrite Hu.
    repeat split. rewrite !in_app_iff. right. left. left. reflexivity.
  - cbn [analysis warnings textures]. unfold emitted_warnings, texinfo_set.
    rewrite Hu. split; [|reflexivity].
    rewrite !in_app_iff. right. right. left. reflexivity.
Qed.

Lemma usable_lump_none (buf : list byte) (i : nat) :
  usable_lump buf i = None ↔
  ∀ l, nth_error (lump_table buf) i = Some l →
       lump_length l <= 0 ∨ Buffer.len buf < lump_offset l + lump_length l.
Proof.
  split.
  - intros Hn l Hl.
    destruct (Z.lt_ge_cases 0 (lump_length l)) as [Hp|Hp]; [|left; lia].
    destruct (Z.lt_ge_cases (Buffer.len buf) (lump_offset l + lump_length l))
      as [Hb|Hb]; [right; exact Hb|].
    assert (usable_lump buf i = Some l) as Hs by (apply usable_lump_spec; auto).
    congruence.
  - intros H. destruct (usable_lump buf i) as [l|] eqn:E; [|reflexivity].
    apply usable_lump_spec in E as (Hl & Hp & Hb).
    destruct (H l Hl); lia.
Qed.

(** C6 (what the code does at a negative offset).  A TEXINFO entry with
    offset -40 and length 76 passes the test [offset + length <=
    buf.length]: no warning is emitted for it and the name is read from the
    first bytes of the file, the header.  An ENTITIES entry with offset -1
    passes the test in the same way and its text is read from byte 0. *)
Theorem negative_offset_lump_is_read :
  (∃ r, analyzeBspBuffer neg_texinfo_buf = Ok r
        ∧ usable_lump neg_texinfo_buf LUMP_TEXINFO = Some (mkLump (-40) 76)
        ∧ textures r = ["textures/IBSP&.wal"]
        ∧ warnings r = [msg_entities])
  ∧ (∃ r, analyzeBspBuffer neg_entities_buf = Ok r
          ∧ lump_offset <$> usable_lump neg_entities_buf LUMP_ENTITIES = Some (-1)
          ∧ count (weapons (entityStats r)) "weapon_shotgun" = 3%nat
          ∧ warnings r = [msg_texinfo]).
Proof.
  split.
  - eexists. split; [vm_compute; reflexivity|].
    repeat split; vm_compute; reflexivity.
  - eexists. split; [vm_compute; reflexivity|].
    repeat split; vm_compute; reflexivity.
Qed.

(** ** Buffers that differ in the signature only *)

Section SameTail.

Variables b1 b2 : list byte.
Hypothesis Hsame : same_tail b1 b2.

Lemma same_tail_len : Buffer.len b1 = Buffer.len b2.
Proof. unfold Buffer.len. destruct Hsame as [-> _]. reflexivity. Qed.

Lemma same_tail_skipn (n : nat) : (4 <= n)%nat → skipn n b1 = skipn n b2.
Proof.
  intros Hn. replace n with ((n - 4) + 4)%nat by lia.
  rewrite <- !List.skipn_skipn. destruct Hsame as [_ ->]. reflexivity.
Qed.

Lemma same_tail_get (i : Z) : 4 <= i → Buffer.get b1 i = Buffer.get b2 i.
Proof.
  intros Hi. rewrite !get_skipn by lia.
  rewrite same_tail_skipn by lia. reflexivity.
Qed.

Lemma same_tail_int32 (off : Z) : 4 <= off → int32_at b1 off = int32_at b2 off.
Proof.
  intros Hoff. unfold int32_at, Buffer.readInt32LE.
  rewrite !(same_tail_get off), !(same_tail_get (off + 1)),
    !(same_tail_get (off + 2)), !(same_tail_get (off + 3)) by lia.
  reflexivity.
Qed.

Lemma same_tail_entries (m : nat) (off : Z) :
  4 <= off → entries_from b1 off m = entries_from b2 off m.
Proof.
  intros Hoff. unfold entries_from. apply map_ext. intros j.
  rewrite !same_tail_int32 by lia. reflexivity.
Qed.

Lemma same_tail_table : lump_table b1 = lump_table b2.
Proof.
  unfold lump_table, avail. rewrite same_tail_len.
  apply same_tail_entries. lia.
Qed.

Lemma same_tail_usable (i : nat) : usable_lump b1 i = usable_lump b2 i.
Proof.
  unfold usable_lump, lump_usable. rewrite same_tail_table, same_tail_len.
  reflexivity.
Qed.

Lemma same_tail_toString (s e : Z) :
  4 <= s → Buffer.toString b1 s e = Buffer.toString b2 s e.
Proof.
  intros Hs. unfold Buffer.toString. rewrite same_tail_len. cbv zeta.
  destruct (Z.leb_spec s 0); [lia|].
  rewrite same_tail_skipn by lia. reflexivity.
Qed.

Lemma same_tail_scan (n : nat) :
  ∀ s, 4 <= s → scan_nul b1 s n = scan_nul b2 s n.
Proof.
  induction n as [|n IH]; intros s Hs; [reflexivity|].
  cbn [scan_nul]. rewrite same_tail_get by lia. rewrite IH by lia. reflexivity.
Qed.

Lemma same_tail_readCString (s m : Z) :
  4 <= s → readCString b1 s m = readCString b2 s m.
Proof.
  intros Hs. unfold readCString. rewrite same_tail_len, same_tail_scan by lia.
  rewrite same_tail_toString by lia. reflexivity.
Qed.

Lemma same_tail_texinfo_loop (off : Z) (n : nat) :
  0 <= off →
  ∀ i acc, 0 <= i →
    texinfo_loop b1 off n i acc = texinfo_loop b2 off n i acc.
Proof.
  intros Hoff. induction n as [|n IH]; intros i acc Hi; [reflexivity|].
  cbn [texinfo_loop].
  rewrite same_tail_readCString by (unfold DTEXINFO_SIZE; nia).
  apply IH. lia.
Qed.

Lemma same_tail_analysis :
  (∀ l, usable_lump b1 LUMP_ENTITIES = Some l → 4 <= lump_offset l) →
  (∀ l, usable_lump b1 LUMP_TEXINFO = Some l → 0 <= lump_offset l) →
  entities_out b1 = entities_out b2
  ∧ texinfo_set b1 = texinfo_set b2
  ∧ emitted_warnings b1 = emitted_warnings b2.
Proof.
  intros Hent Htex. split; [|split].
  - unfold entities_out, entities_text. rewrite <- same_tail_usable.
    destruct (usable_lump b1 LUMP_ENTITIES) as [l|] eqn:E; [|reflexivity].
    rewrite same_tail_toString by (apply Hent; reflexivity). reflexivity.
  - unfold texinfo_set. rewrite <- same_tail_usable.
    destruct (usable_lump b1 LUMP_TEXINFO) as [l|] eqn:E; [|reflexivity].
    apply same_tail_texinfo_loop; [apply Htex; reflexivity|lia].
  - unfold emitted_warnings. rewrite !same_tail_usable, same_tail_int32 by lia.
    reflexivity.
Qed.

End SameTail.

(** ** Signature and version *)

(** The recoverable signature error.  On a buffer that holds the complete
    directory, a signature that [toString('ascii', 0, 4)] decodes to
    something other than "IBSP" gives exactly one error, which quotes
    "IBSP" and the signature found, and the rest of the analysis goes on as for the same
    bytes under the right signature: the directory has its 19 entries and
    every field of the result other than [errors] is the one that the
    file with the first four bytes replaced would give (the lumps in use
    lying after those bytes).  With the right signature there is no error
    whatever the version is; a version other than 38 puts its warning
    first in [warnings]. *)
Theorem bad_signature_recoverable (buf : list byte) (r : AnalysisResult) :
  analyzeBspBuffer buf = Ok r →
  160 <= Buffer.len buf →
  let magic := Buffer.toString buf 0 4 in
  (magic ≠ Q2_MAGIC →
   errors r = [msg_signature magic]
   ∧ (∃ p s, msg_signature magic = p ++ Q2_MAGIC ++ s)
   ∧ (∃ p s, msg_signature magic = p ++ magic ++ s))
  ∧ (magic = Q2_MAGIC → errors r = [])
  ∧ List.length (lump_table buf) = 19%nat
  ∧ (∀ buf' r',
       same_tail buf buf' →
       (∀ l, usable_lump buf LUMP_ENTITIES = Some l → 4 <= lump_offset l) →
       (∀ l, usable_lump buf LUMP_TEXINFO = Some l → 0 <= lump_offset l) →
       analyzeBspBuffer buf' = Ok r' →
       warnings r' = warnings r
       ∧ mapName r' = mapName r ∧ mapVersion r' = mapVersion r
       ∧ textures r' = textures r ∧ skies r' = skies r ∧ sounds r' = sounds r
       ∧ models r' = models r ∧ others r' = others r
       ∧ entityStats r' = entityStats r)
  ∧ (int32_at buf 4 ≠ Q2_VERSION →
     hd_error (warnings r) = Some (msg_version (int32_at buf 4))).
Proof.
  intros Hr Hlen. apply analyze_ok_inv in Hr as [_ ->]. cbv zeta.
  assert (Herr : errors (analysis buf) =
                 if String.eqb (Buffer.toString buf 0 4) Q2_MAGIC then []
                 else [msg_signature (Buffer.toString buf 0 4)]).
  { cbn [analysis errors]. unfold emitted_errors.
    destruct (Z.ltb_spec (Buffer.len buf) 160); [lia|]. apply app_nil_r. }
  split; [|split; [|split; [|split]]].
  - intros Hne. apply String.eqb_neq in Hne. rewrite Herr, Hne.
    split; [reflexivity|]. split.
    + exists ("Неверная сигнатура: ожидается " ++ dq),
        (dq ++ ", получено " ++ dq ++ Buffer.toString buf 0 4 ++ dq).
      reflexivity.
    + exists ("Неверная сигнатура: ожидается " ++ dq ++ Q2_MAGIC ++ dq
              ++ ", получено " ++ dq), dq.
      reflexivity.
  - intros Heq. rewrite Herr, Heq. reflexivity.
  - rewrite lump_table_full by assumption. unfold entries_from.
    rewrite List.length_map, List.length_seq. reflexivity.
  - intros buf' r' Hsame Hent Htex Hr'.
    apply analyze_ok_inv in Hr' as [_ ->].
    destruct (same_tail_analysis buf buf' Hsame Hent Htex) as (He & Ht & Hw).
    cbn [analysis warnings mapName mapVersion textures skies sounds models
         others entityStats].
    rewrite He, Ht, Hw. repeat split.
  - intros Hv. cbn [analysis warnings]. unfold emitted_warnings.
    apply Z.eqb_neq in Hv. rewrite Hv. reflexivity.
Qed.

Lemma bad_signature_recoverable_witness :
  ∃ r, analyzeBspBuffer dup_buf = Ok r
       ∧ errors r = [msg_signature "XXXX"]
       ∧ hd_error (warnings r) = Some (msg_version 39)
       ∧ (∃ r', analyzeBspBuffer dup_buf_ibsp = Ok r'
                ∧ errors r' = []
                ∧ textures r' = textures r
                ∧ sounds r' = sounds r
                ∧ textures r = ["textures/e1u1/floor.wal"; "textures/e1u1/wall01.wal"]).
Proof.
  eexists. split; [vm_compute; reflexivity|].
  match goal with
  | |- errors ?r = _ ∧ _ =>
      destruct (bad_signature_recoverable dup_buf r)
        as (Hbad & _ & _ & Hrest & Hver)
  end.
  - vm_compute. reflexivity.
  - vm_compute. discriminate.
  - split; [|split].
    + destruct Hbad as (He & _ & _); [vm_compute; discriminate|].
      rewrite He. vm_compute. reflexivity.
    + rewrite Hver; [vm_compute; reflexivity|vm_compute; discriminate].
    + eexists. split; [vm_compute; reflexivity|].
      split.
      * match goal with
        | |- errors ?r' = _ =>
            destruct (bad_signature_recoverable dup_buf_ibsp r')
              as (_ & Hgood & _)
        end.
        -- vm_compute. reflexivity.
        -- vm_compute. discriminate.
        -- apply Hgood. vm_compute. reflexivity.
      * match goal with
        | |- textures ?r' = _ ∧ _ =>
            destruct (Hrest dup_buf_ibsp r')
              as (_ & _ & _ & Ht & _ & Hs & _)
        end.
        -- split; vm_compute; reflexivity.
        -- intros l H. vm_compute in H. inversion H. vm_compute. discriminate.
        -- intros l H. vm_compute in H. inversion H. vm_compute. discriminate.
        -- vm_compute. reflexivity.
        -- split; [exact Ht|]. split; [exact Hs|]. vm_compute. reflexivity.
Defined.

(** ** What the signature test reads *)

Lemma low7_ascii_char (b : byte) :
  low7 b = Z.of_N (N_of_ascii (Buffer.ascii_char b)).
Proof. destruct b; reflexivity. Qed.

Lemma N_of_ascii_inj (c d : ascii) :
  Z.of_N (N_of_ascii c) = Z.of_N (N_of_ascii d) → c = d.
Proof.
  intros H. apply N2Z.inj in H.
  rewrite <- (ascii_N_embedding c), <- (ascii_N_embedding d), H. reflexivity.
Qed.

(** A run of bytes decodes to [s] exactly when the seven low bits of each
    byte are the code of the character of [s] at its place. *)
Lemma decode_codes (bs : list byte) :
  ∀ s : string, Buffer.decode bs = s ↔ List.map low7 bs = char_codes s.
Proof.
  unfold char_codes. induction bs as [|b bs IH]; intros [|c s];
    cbn [Buffer.decode List.map list_ascii_of_string]; split;
    try discriminate; try reflexivity.
  - intros H. inversion H as [[Hc Hs]].
    rewrite low7_ascii_char. f_equal. apply IH. reflexivity.
  - intros H. inversion H as [[Hc Hs]].
    rewrite low7_ascii_char in Hc. apply N_of_ascii_inj in Hc.
    apply IH in Hs. rewrite Hc, Hs. reflexivity.
Qed.

Lemma magic_codes_spec (buf : list byte) :
  4 <= Buffer.len buf →
  (Buffer.toString buf 0 4 = Q2_MAGIC ↔ magic_codes buf = [73; 66; 83; 80]).
Proof.
  intros Hlen.
  assert (H : Buffer.toString buf 0 4 = Buffer.decode (firstn 4 buf)).
  { apply (toString_slice buf 0 4%nat); cbn; lia. }
  rewrite H. apply (decode_codes (firstn 4 buf) Q2_MAGIC).
Qed.

(** C7 (what the code does on signature bytes with the high bit set).
    The signature is compared after [toString('ascii', 0, 4)], which
    clears the high bit of every byte: the four bytes C9 C2 D3 D0 are not
    "IBSP", yet they decode to "IBSP", no signature error is pushed and the
    file is analysed as a Quake 2 file without any diagnostic. *)
Theorem high_bit_signature_accepted :
  firstn 4 high_bit_buf = [xc9; xc2; xd3; xd0]
  ∧ firstn 4 high_bit_buf ≠ bytes_of Q2_MAGIC
  ∧ 160 <= Buffer.len high_bit_buf
  ∧ Buffer.toString high_bit_buf 0 4 = Q2_MAGIC
  ∧ (∃ r, analyzeBspBuffer high_bit_buf = Ok r
          ∧ errors r = []
          ∧ warnings r = []
          ∧ textures r = ["textures/e1u1/floor.wal"; "textures/e1u1/wall01.wal"]
          ∧ skies r = ["env/unit1_*"]).
Proof.
  split; [reflexivity|].
  split; [vm_compute; discriminate|].
  split; [vm_compute; discriminate|].
  split; [vm_compute; reflexivity|].
  eexists. split; [vm_compute; reflexivity|].
  repeat split; vm_compute; reflexivity.
Qed.

(** * Further properties *)

(** ** What readCString returns *)

Lemma scan_nul_bounds (buf : list byte) :
  ∀ (n : nat) (s : Z), s <= scan_nul buf s n <= s + Z.of_nat n.
Proof.
  induction n as [|n IH]; intros s; cbn [scan_nul]; [lia|].
  specialize (IH (s + 1)).
  destruct (Buffer.get buf s) as [b|]; [destruct (Buffer.u8 b =? 0)|]; lia.
Qed.

Lemma decode_length (bs : list byte) :
  String.length (Buffer.decode bs) = List.length bs.
Proof. induction bs as [|b bs IH]; simpl; [reflexivity|]. rewrite IH. reflexivity. Qed.

Lemma toString_length (buf : list byte) (s e : Z) :
  (String.length (Buffer.toString buf s e) <= Z.to_nat (e - s))%nat.
Proof.
  unfold Buffer.toString. cbv zeta.
  destruct ((0 <? s) && (Buffer.len buf <=? s)); [simpl; lia|].
  destruct (Z.leb_spec s 0); destruct (Z.ltb_spec (Buffer.len buf) e);
    match goal with
    | |- context [Z.leb ?a ?b] => destruct (Z.leb_spec a b)
    end;
    try (simpl; lia);
    rewrite decode_length, List.length_firstn; lia.
Qed.

Lemma toString_empty (buf : list byte) (s e : Z) :
  e <= s ∨ e <= 0 → Buffer.toString buf s e = EmptyString.
Proof.
  intros H. pose proof (toString_length buf s e) as Hl.
  destruct (Buffer.toString buf s e) as [|c t] eqn:E; [reflexivity|].
  exfalso. destruct H as [H|H].
  - simpl in Hl. lia.
  - revert E. unfold Buffer.toString. cbv zeta.
    destruct ((0 <? s) && (Buffer.len buf <=? s)); [discriminate|].
    destruct (Z.leb_spec s 0); destruct (Z.ltb_spec (Buffer.len buf) e);
      match goal with
      | |- context [Z.leb ?a ?b] => destruct (Z.leb_spec a b)
      end; try discriminate; try lia.
Qed.

Lemma remove_char_length (a : ascii) (s : string) :
  (String.length (Str.remove_char a s) <= String.length s)%nat.
Proof.
  induction s as [|c s IH]; simpl; [lia|].
  destruct (Ascii.eqb c a); simpl; lia.
Qed.

Lemma trimStart_length (s : string) :
  (String.length (Js.trimStart s) <= String.length s)%nat.
Proof.
  induction s as [|c s IH]; simpl; [lia|].
  destruct (Js.is_space c); simpl; lia.
Qed.

Lemma trimEnd_length (s : string) :
  (String.length (Js.trimEnd s) <= String.length s)%nat.
Proof.
  induction s as [|c s IH]; simpl; [lia|].
  destruct (Js.trimEnd s); [destruct (Js.is_space c)|]; simpl in *; lia.
Qed.

Lemma trim_length (s : string) :
  (String.length (Js.trim s) <= String.length s)%nat.
Proof.
  unfold Js.trim. etransitivity; [apply trimEnd_length|apply trimStart_length].
Qed.

(** X1.  Whatever the buffer and the start index are, [readCString] returns
    at most [maxLen] characters: a texture name has at most 32. *)
Theorem readCString_length (buf : list byte) (start maxLen : Z) :
  (String.length (readCString buf start maxLen) <= Z.to_nat maxLen)%nat.
Proof.
  unfold readCString.
  set (end_ := Z.min (start + maxLen) (Buffer.len buf)).
  pose proof (scan_nul_bounds buf (Z.to_nat (end_ - start)) start) as Hi.
  etransitivity; [apply trim_length|].
  unfold re_nul. rewrite replace_all_remove.
  etransitivity; [apply remove_char_length|].
  etransitivity; [apply toString_length|].
  unfold end_ in *. lia.
Qed.

Lemma trimStart_forall (p : ascii → bool) (s : string) :
  string_forall p s = true → string_forall p (Js.trimStart s) = true.
Proof.
  induction s as [|c s IH]; simpl; [auto|].
  intros H. apply andb_prop in H as [Hc Hs].
  destruct (Js.is_space c); [auto|]. simpl. rewrite Hc, Hs. reflexivity.
Qed.

Lemma trimEnd_forall (p : ascii → bool) (s : string) :
  string_forall p s = true → string_forall p (Js.trimEnd s) = true.
Proof.
  induction s as [|c s IH]; simpl; [auto|].
  intros H. apply andb_prop in H as [Hc Hs]. specialize (IH Hs).
  destruct (Js.trimEnd s) as [|d t]; [destruct (Js.is_space c)|];
    simpl in *; rewrite ?Hc, ?IH; reflexivity.
Qed.

Lemma remove_char_forall (a : ascii) (s : string) :
  string_forall (fun c => negb (Ascii.eqb c a)) (Str.remove_char a s) = true.
Proof.
  induction s as [|c s IH]; simpl; [reflexivity|].
  destruct (Ascii.eqb c a) eqn:E; [exact IH|]. simpl. rewrite E, IH. reflexivity.
Qed.

Lemma trimEnd_idem (s : string) : Js.trimEnd (Js.trimEnd s) = Js.trimEnd s.
Proof.
  induction s as [|c s IH]; [reflexivity|]. cbn [Js.trimEnd].
  destruct (Js.trimEnd s) as [|d t] eqn:E.
  - destruct (Js.is_space c) eqn:Hc; [reflexivity|].
    cbn [Js.trimEnd]. rewrite Hc. reflexivity.
  - cbn [Js.trimEnd] in *. rewrite IH. reflexivity.
Qed.

Lemma trimEnd_head (c : ascii) (s : string) :
  Js.is_space c = false → ∃ t, Js.trimEnd (String c s) = String c t.
Proof.
  intros Hc. cbn [Js.trimEnd].
  destruct (Js.trimEnd s); [rewrite Hc|]; eauto.
Qed.

Lemma trimStart_head (s : string) :
  Js.trimStart s = EmptyString
  ∨ ∃ c t, Js.trimStart s = String c t ∧ Js.is_space c = false.
Proof.
  induction s as [|c s IH]; simpl; [auto|].
  destruct (Js.is_space c) eqn:Hc; [exact IH|]. right. eauto.
Qed.

Lemma trim_idem (s : string) : Js.trim (Js.trim s) = Js.trim s.
Proof.
  unfold Js.trim. destruct (trimStart_head s) as [->|(c & t & -> & Hc)].
  - reflexivity.
  - destruct (trimEnd_head c t Hc) as [u Hu]. rewrite Hu.
    cbn [Js.trimStart]. rewrite Hc, <- Hu. apply trimEnd_idem.
Qed.

(** X2.  The string that [readCString] returns holds no NUL character and
    has no white space at either end (trimming it again changes nothing),
    for every buffer, start index and length. *)
Theorem readCString_clean (buf : list byte) (start maxLen : Z) :
  string_forall (fun c => negb (Ascii.eqb c nul)) (readCString buf start maxLen) = true
  ∧ Js.trim (readCString buf start maxLen) = readCString buf start maxLen.
Proof.
  unfold readCString. split.
  - unfold Js.trim, re_nul. rewrite replace_all_remove.
    apply trimEnd_forall, trimStart_forall, remove_char_forall.
  - apply trim_idem.
Qed.

(** X3.  A name field that lies wholly outside the buffer, beyond its end or
    before its first byte, reads as the empty name; nothing is thrown. *)
Theorem readCString_outside (buf : list byte) (start maxLen : Z) :
  Buffer.len buf <= start ∨ start + maxLen <= 0 →
  readCString buf start maxLen = EmptyString.
Proof.
  intros H. unfold readCString.
  set (end_ := Z.min (start + maxLen) (Buffer.len buf)).
  pose proof (scan_nul_bounds buf (Z.to_nat (end_ - start)) start) as Hi.
  rewrite toString_empty; [reflexivity|].
  assert (Hlen : 0 <= Buffer.len buf) by (unfold Buffer.len; lia).
  unfold end_ in *. lia.
Qed.

Lemma readCString_outside_witness :
  readCString short_buf 48 32 = EmptyString
  ∧ readCString short_buf (-100) 32 = EmptyString.
Proof.
  split; apply readCString_outside; [left|right]; vm_compute; discriminate.
Defined.

(** ** The shape of the resource lists *)

Lemma string_forall_append (p : ascii → bool) (a b : string) :
  string_forall p (a ++ b) = string_forall p a && string_forall p b.
Proof.
  induction a as [|c a IH]; simpl; [reflexivity|].
  rewrite IH, andb_assoc. reflexivity.
Qed.

Lemma subst_char_forall (a b : ascii) (s : string) :
  Ascii.eqb b a = false →
  string_forall (fun c => negb (Ascii.eqb c a)) (Str.subst_char a b s) = true.
Proof.
  intros Hab. induction s as [|c s IH]; simpl; [reflexivity|].
  rewrite IH, andb_true_r.
  destruct (Ascii.eqb c a) eqn:E; [rewrite Hab|rewrite E]; reflexivity.
Qed.

Lemma slashes_no_backslash (v : string) : no_backslash (slashes v).
Proof. unfold no_backslash. rewrite slashes_spec. apply subst_char_forall. reflexivity. Qed.

Lemma texture_path_form (name : string) :
  String.prefix "textures/" (texture_path name) = true
  ∧ Str.ends_with Re.lit ".wal" (texture_path name) = true
  ∧ no_backslash (texture_path name).
Proof.
  unfold texture_path, normalize_texture. split; [|split].
  - simpl. destruct (slashes _ ++ ".wal"); reflexivity.
  - rewrite <- append_assoc. apply ends_with_append. reflexivity.
  - unfold no_backslash. rewrite !string_forall_append.
    rewrite (slashes_no_backslash _). reflexivity.
Qed.

Lemma fold_add_texture_length (names : list string) :
  ∀ acc, (List.length (fold_left add_texture names acc)
          <= List.length acc + List.length names)%nat.
Proof.
  induction names as [|name names IH]; intros acc; cbn [fold_left List.length]; [lia|].
  etransitivity; [apply IH|].
  unfold add_texture, set_add.
  destruct (Js.truthy name); [|lia].
  destruct (existsb _ acc); [lia|]. rewrite List.length_app. simpl. lia.
Qed.

(** X4.  Every entry of [textures] begins with ["textures/"], ends with
    [".wal"] and holds no backslash, and there are at most as many entries
    as the TEXINFO lump has complete 76-byte records. *)
Theorem textures_shape (buf : list byte) (r : AnalysisResult) :
  analyzeBspBuffer buf = Ok r →
  Forall (fun x => String.prefix "textures/" x = true
                   ∧ Str.ends_with Re.lit ".wal" x = true
                   ∧ no_backslash x) (textures r)
  ∧ (List.length (textures r) <=
     match usable_lump buf LUMP_TEXINFO with
     | Some t => Z.to_nat (lump_length t / DTEXINFO_SIZE)
     | None => 0
     end)%nat.
Proof.
  intros Hr. apply analyze_ok_inv in Hr as [_ ->]. cbn [analysis textures].
  pose proof (StringSort.Permuted_sort (texinfo_set buf)) as Hp.
  unfold sort_strings. split.
  - apply List.Forall_forall. intros x Hx.
    apply (Permutation_in _ (Permutation_sym Hp)) in Hx.
    rewrite texinfo_set_names in Hx.
    destruct (usable_lump buf LUMP_TEXINFO) as [t|]; [|contradiction].
    apply fold_add_texture_In in Hx as [[]|(name & _ & _ & ->)].
    apply texture_path_form.
  - rewrite <- (Permutation_length Hp), texinfo_set_names.
    destruct (usable_lump buf LUMP_TEXINFO) as [t|]; [|simpl; lia].
    etransitivity; [apply fold_add_texture_length|].
    unfold record_names. rewrite List.length_map, List.length_seq. simpl. lia.
Qed.

Lemma textures_shape_witness :
  ∃ r, analyzeBspBuffer clean_buf = Ok r
       ∧ textures r = ["textures/e1u1/floor.wal"; "textures/e1u1/wall01.wal"]
       ∧ Forall no_backslash (textures r)
       ∧ (List.length (textures r) <= 2)%nat.
Proof.
  eexists. split; [vm_compute; reflexivity|].
  match goal with
  | |- textures ?r = _ ∧ _ =>
      destruct (textures_shape clean_buf r) as [Hall Hlen]
  end.
  - vm_compute. reflexivity.
  - split; [vm_compute; reflexivity|]. split.
    + eapply List.Forall_impl; [|exact Hall]. intros x (_ & _ & H). exact H.
    + exact Hlen.
Defined.

Lemma Forall_set_add (P : string → Prop) (x : string) (s : list string) :
  P x → Forall P s → Forall P (set_add x s).
Proof.
  intros Hx Hs. unfold set_add. destruct (existsb _ s); [exact Hs|].
  apply List.Forall_app. split; [exact Hs|]. constructor; [exact Hx|constructor].
Qed.

Lemma resource_step_paths_ok (k v : string) (out : Out) :
  paths_ok out → paths_ok (resource_step k (slashes v) out).
Proof.
  intros (H1 & H2 & H3).
  assert (Hsky : no_backslash ("env/" ++ slashes v ++ "*")).
  { unfold no_backslash. rewrite !string_forall_append.
    rewrite (slashes_no_backslash v). reflexivity. }
  pose proof (slashes_no_backslash v) as Hv.
  unfold resource_step, paths_ok.
  repeat match goal with
         | |- context [if ?b then _ else _] => destruct b
         end;
    cbn; repeat split; try assumption; apply Forall_set_add; assumption.
Qed.

Lemma pair_step_paths_ok (out : Out) (kv : string * string) :
  paths_ok out → paths_ok (pair_step out kv).
Proof.
  intros H. destruct kv as [k v]. unfold pair_step.
  destruct (Js.truthy v); [|exact H]. cbn [negb].
  apply resource_step_paths_ok. unfold paths_ok in *.
  destruct (class_step_buckets k v (world_step k v out)) as (-> & -> & -> & _).
  destruct (world_step_buckets k v out) as (-> & -> & -> & _).
  exact H.
Qed.

Lemma process_pairs_paths_ok (pairs : list (string * string)) :
  ∀ out, paths_ok out → paths_ok (process_pairs pairs out).
Proof.
  induction pairs as [|kv pairs IH]; intros out H; [exact H|].
  rewrite process_pairs_cons. apply IH, pair_step_paths_ok, H.
Qed.

Lemma sort_strings_Forall (P : string → Prop) (l : list string) :
  Forall P l → Forall P (sort_strings l).
Proof.
  intros H. unfold sort_strings.
  eapply Permutation_Forall; [apply StringSort.Permuted_sort|exact H].
Qed.

(** X5.  The paths of a result use forward slashes only: no entry of
    [skies], [sounds] or [models] holds a backslash, whatever the values
    in the entity text are. *)
Theorem entity_paths_forward_slashes (buf : list byte) (r : AnalysisResult) :
  analyzeBspBuffer buf = Ok r →
  Forall no_backslash (skies r) ∧ Forall no_backslash (sounds r)
  ∧ Forall no_backslash (models r).
Proof.
  intros Hr. apply analyze_ok_inv in Hr as [_ ->].
  cbn [analysis skies sounds models].
  assert (H : paths_ok (entities_out buf)).
  { assert (He : paths_ok empty_out) by (repeat split; constructor).
    unfold entities_out. destruct (entities_text buf); [|exact He].
    apply process_pairs_paths_ok, He. }
  destruct H as (H1 & H2 & H3).
  repeat split; apply sort_strings_Forall; assumption.
Qed.

Lemma entity_paths_forward_slashes_witness :
  ∃ r, analyzeBspBuffer clean_buf = Ok r
       ∧ sounds r = ["world/amb1.wav"]
       ∧ Forall no_backslash (sounds r).
Proof.
  eexists. split; [vm_compute; reflexivity|].
  split; [vm_compute; reflexivity|].
  match goal with
  | |- Forall _ (sounds ?r) => apply (entity_paths_forward_slashes clean_buf r)
  end.
  vm_compute. reflexivity.
Defined.

(** ** The sky rule *)

Lemma pair_step_skies (out : Out) (k v x : string) :
  In x (o_skies (pair_step out (k, v))) ↔
  In x (o_skies out)
  ∨ (k = "sky" ∧ Js.truthy v = true ∧ x = "env/" ++ slashes v ++ "*").
Proof.
  unfold pair_step. destruct (Js.truthy v) eqn:Hv; cbn [negb].
  2:{ split; [auto|]. intros [H|(_ & H & _)]; [exact H|discriminate H]. }
  destruct (class_step_buckets k v (world_step k v out)) as (Hc & _).
  destruct (world_step_buckets k v out) as (Hw & _).
  unfold resource_step.
  destruct (String.eqb_spec k "sky") as [->|Hk].
  - cbn [add_sky o_skies]. rewrite set_add_In, Hc, Hw. split.
    + intros [->|H]; auto.
    + intros [H|(_ & _ & ->)]; auto.
  - assert (Hs : ∀ o, o_skies o = o_skies out → In x (o_skies o) ↔
        In x (o_skies out)
        ∨ k = "sky" ∧ true = true ∧ x = "env/" ++ slashes v ++ "*").
    { intros o ->. split; [auto|]. intros [H|(H & _)]; [exact H|contradiction]. }
    repeat match goal with
           | |- context [if ?b then _ else _] => destruct b
           end;
      apply Hs; cbn; rewrite ?Hc, ?Hw; reflexivity.
Qed.

Lemma process_pairs_skies (pairs : list (string * string)) :
  ∀ out x,
    In x (o_skies (process_pairs pairs out)) ↔
    In x (o_skies out)
    ∨ ∃ v, In ("sky", v) pairs ∧ Js.truthy v = true
           ∧ x = "env/" ++ slashes v ++ "*".
Proof.
  induction pairs as [|[k v] pairs IH]; intros out x.
  - cbn. split; [auto|]. intros [H|(v & [] & _)]. exact H.
  - rewrite process_pairs_cons, IH, pair_step_skies. split.
    + intros [[H|(-> & Hv & ->)]|(w & Hin & Hw & ->)].
      * auto.
      * right. exists v. cbn. auto.
      * right. exists w. cbn. auto.
    + intros [H|(w & [Heq|Hin] & Hw & ->)].
      * auto.
      * inversion Heq; subst. left. right. auto.
      * right. exists w. auto.
Qed.

(** X6.  The entries of [skies] are exactly the strings [env/<value>*] of
    the pairs with key [sky] and a non-empty value in the ENTITIES text,
    the value written with forward slashes; without a usable ENTITIES lump
    the list is empty. *)
Theorem skies_membership (buf : list byte) (r : AnalysisResult) :
  analyzeBspBuffer buf = Ok r →
  (∀ txt x,
     entities_text buf = Some txt →
     (In x (skies r) ↔
      ∃ v, In ("sky", v) (entity_pairs txt) ∧ Js.truthy v = true
           ∧ x = "env/" ++ slashes v ++ "*"))
  ∧ (entities_text buf = None → skies r = []).
Proof.
  intros Hr. apply analyze_ok_inv in Hr as [_ ->].
  cbn [analysis skies]. unfold entities_out. split.
  - intros txt x ->. unfold extractFromEntities.
    pose proof (StringSort.Permuted_sort
                  (o_skies (process_pairs (entity_pairs txt) empty_out))) as Hp.
    unfold sort_strings. split.
    + intros Hx. apply (Permutation_in _ (Permutation_sym Hp)) in Hx.
      apply process_pairs_skies in Hx as [[]|H]. exact H.
    + intros H. apply (Permutation_in _ Hp). apply process_pairs_skies. auto.
  - intros ->. reflexivity.
Qed.

Lemma skies_membership_witness :
  ∃ r, analyzeBspBuffer clean_buf = Ok r ∧ In "env/unit1_*" (skies r).
Proof.
  eexists. split; [vm_compute; reflexivity|].
  match goal with
  | |- In _ (skies ?r) =>
      destruct (skies_membership clean_buf r) as [Hin _]
  end.
  - vm_compute. reflexivity.
  - eapply Hin; [vm_compute; reflexivity|].
    exists "unit1_". split; [|split; reflexivity].
    vm_compute. tauto.
Defined.

(** ** The sound and model rules *)

(** Under the [i] flag the literals [/] and [.] match themselves only. *)
Lemma lit_i_slash (x : ascii) : Re.lit_i "/" x = Re.lit "/" x.
Proof. destruct x as [[] [] [] [] [] [] [] []]; reflexivity. Qed.

Lemma lit_i_dot (x : ascii) : Re.lit_i "." x = Re.lit "." x.
Proof. destruct x as [[] [] [] [] [] [] [] []]; reflexivity. Qed.

(** A prefix pattern: [^], a word under the [i] flag and a slash. *)
Lemma test_dir_prefix (w : string) (s : string) :
  Re.test (Re.Bol >> Re.word_i w (Re.Chr (Re.lit slash))) s
  = Str.has_prefix Re.lit_i (w ++ "/") s.
Proof.
  rewrite test_bol. unfold Re.match_here, Re.word_i, Str.has_prefix.
  rewrite rmatch_lits, strip_word_append.
  destruct (Str.strip Re.lit_i w s) as [[|c rest]|]; try reflexivity.
  cbn [Re.rmatch Str.strip]. rewrite lit_i_slash. unfold slash.
  destruct (Re.lit "/" c); reflexivity.
Qed.

Lemma equal_dot_word (w : string) (s : string) :
  Str.equal Re.lit_i (String "." w) s =
  match s with
  | String c s' => Re.lit "." c && Str.equal Re.lit_i w s'
  | EmptyString => false
  end.
Proof.
  unfold Str.equal. cbn [Str.strip]. destruct s as [|c s']; [reflexivity|].
  rewrite lit_i_dot. destruct (Re.lit "." c); reflexivity.
Qed.

(** The extension pattern of the sound rule. *)
Lemma test_sound_ext (s : string) :
  Re.test re_sound_ext s =
  Str.ends_with Re.lit_i ".wav" s || Str.ends_with Re.lit_i ".ogg" s
  || Str.ends_with Re.lit_i ".mp3" s.
Proof.
  unfold Re.test. rewrite search_anywhere.
  rewrite (anywhere_ext _
    (fun _ x => Str.equal Re.lit_i ".wav" x
                || (Str.equal Re.lit_i ".ogg" x || Str.equal Re.lit_i ".mp3" x))).
  2:{ intros pos x. rewrite !equal_dot_word.
      unfold matches_here, Re.match_here, re_sound_ext, Re.word_i.
      cbn [Re.rmatch]. destruct x as [|c x]; [reflexivity|].
      destruct (Re.lit "." c); [|reflexivity]. cbn [andb].
      rewrite !rmatch_lits. unfold Str.equal.
      destruct (Str.strip Re.lit_i "wav" x) as [[|? ?]|];
        destruct (Str.strip Re.lit_i "ogg" x) as [[|? ?]|];
        destruct (Str.strip Re.lit_i "mp3" x) as [[|? ?]|]; reflexivity. }
  rewrite (anywhere_or (fun _ x => Str.equal Re.lit_i ".wav" x)).
  rewrite (anywhere_or (fun _ x => Str.equal Re.lit_i ".ogg" x)).
  rewrite !anywhere_ends_with, orb_assoc. reflexivity.
Qed.

(** The extension pattern of the model rule. *)
Lemma test_model_ext (s : string) :
  Re.test re_model_ext s =
  Str.ends_with Re.lit_i ".md2" s || Str.ends_with Re.lit_i ".sp2" s
  || Str.ends_with Re.lit_i ".iqm" s || Str.ends_with Re.lit_i ".md3" s.
Proof.
  unfold Re.test. rewrite search_anywhere.
  rewrite (anywhere_ext _
    (fun _ x => Str.equal Re.lit_i ".md2" x
                || (Str.equal Re.lit_i ".sp2" x
                    || (Str.equal Re.lit_i ".iqm" x || Str.equal Re.lit_i ".md3" x)))).
  2:{ intros pos x. rewrite !equal_dot_word.
      unfold matches_here, Re.match_here, re_model_ext, Re.word_i.
      cbn [Re.rmatch]. destruct x as [|c x]; [reflexivity|].
      destruct (Re.lit "." c); [|reflexivity]. cbn [andb].
      rewrite !rmatch_lits. unfold Str.equal.
      destruct (Str.strip Re.lit_i "md2" x) as [[|? ?]|];
        destruct (Str.strip Re.lit_i "sp2" x) as [[|? ?]|];
        destruct (Str.strip Re.lit_i "iqm" x) as [[|? ?]|];
        destruct (Str.strip Re.lit_i "md3" x) as [[|? ?]|]; reflexivity. }
  rewrite (anywhere_or (fun _ x => Str.equal Re.lit_i ".md2" x)).
  rewrite (anywhere_or (fun _ x => Str.equal Re.lit_i ".sp2" x)).
  rewrite (anywhere_or (fun _ x => Str.equal Re.lit_i ".iqm" x)).
  rewrite !anywhere_ends_with, !orb_assoc. reflexivity.
Qed.

(** X7.  A pair with a non-empty value whose key is [noise], [snd] or starts
    with [sound] puts its value (with forward slashes) into [sounds] when
    the value starts with [sound/] or ends with [.wav], [.ogg] or [.mp3],
    compared without regard to case, and otherwise puts [key=value] into
    [others]; a pair with key [music], [cdtrack] or [wav] always puts its
    value into [sounds]. *)
Theorem sound_rule (out : Out) (k v : string) :
  Js.truthy v = true →
  (k = "noise" ∨ k = "snd" ∨ Js.startsWith k "sound" = true →
   if Str.has_prefix Re.lit_i "sound/" (slashes v)
      || Str.ends_with Re.lit_i ".wav" (slashes v)
      || Str.ends_with Re.lit_i ".ogg" (slashes v)
      || Str.ends_with Re.lit_i ".mp3" (slashes v)
   then o_sounds (pair_step out (k, v)) = set_add (slashes v) (o_sounds out)
        ∧ o_others (pair_step out (k, v)) = o_others out
   else o_sounds (pair_step out (k, v)) = o_sounds out
        ∧ o_others (pair_step out (k, v))
          = set_add (k ++ "=" ++ slashes v) (o_others out))
  ∧ (k = "music" ∨ k = "cdtrack" ∨ k = "wav" →
     o_sounds (pair_step out (k, v)) = set_add (slashes v) (o_sounds out)
     ∧ o_others (pair_step out (k, v)) = o_others out).
Proof.
  intros Hv. unfold pair_step. rewrite Hv. cbn [negb].
  destruct (class_step_buckets k v (world_step k v out)) as (_ & Hc2 & _ & Hc4 & _).
  destruct (world_step_buckets k v out) as (_ & Hw2 & _ & Hw4 & _).
  split.
  - intros Hk.
    assert (Hkey : String.eqb k "sky" = false
                   ∧ (String.eqb k "sound" || String.eqb k "noise"
                      || String.eqb k "snd" || Re.test re_sound_key k) = true).
    { rewrite test_sound_key.
      destruct Hk as [->|[->|Hs]]; [split; reflexivity|split; reflexivity|].
      rewrite Hs, !orb_true_r. split; [|reflexivity].
      apply String.eqb_neq. intros ->. discriminate Hs. }
    destruct Hkey as [Hsky Hsnd]. unfold resource_step. rewrite Hsky, Hsnd.
    unfold re_sound_dir. rewrite test_dir_prefix, test_sound_ext, !orb_assoc.
    change ("sound" ++ "/") with "sound/".
    destruct (Str.has_prefix Re.lit_i "sound/" (slashes v)
              || Str.ends_with Re.lit_i ".wav" (slashes v)
              || Str.ends_with Re.lit_i ".ogg" (slashes v)
              || Str.ends_with Re.lit_i ".mp3" (slashes v));
      cbn [add_sound add_other o_sounds o_others];
      rewrite ?Hc2, ?Hc4, ?Hw2, ?Hw4; auto.
  - intros Hk. unfold resource_step.
    destruct Hk as [-> | [-> | ->]]; cbn [add_sound o_sounds o_others];
      rewrite ?Hc2, ?Hc4, ?Hw2, ?Hw4; auto.
Qed.

Lemma sound_rule_witness :
  o_sounds (pair_step empty_out ("noise", "world\AMB1.WAV")) = ["world/AMB1.WAV"]
  ∧ o_others (pair_step empty_out ("soundtrack", "7")) = ["soundtrack=7"]
  ∧ o_sounds (pair_step empty_out ("music", "track02")) = ["track02"].
Proof.
  split; [|split].
  - destruct (sound_rule empty_out "noise" "world\AMB1.WAV") as [H _];
      [reflexivity|].
    specialize (H (or_introl eq_refl)).
    vm_compute in H. apply H.
  - destruct (sound_rule empty_out "soundtrack" "7") as [H _]; [reflexivity|].
    specialize (H (or_intror (or_intror eq_refl))).
    vm_compute in H. apply H.
  - destruct (sound_rule empty_out "music" "track02") as [_ H]; [reflexivity|].
    specialize (H (or_introl eq_refl)).
    vm_compute in H. apply H.
Defined.

(** X8.  A pair with key [model] and a non-empty value puts its value (with
    forward slashes) into [models] when the value starts with [models/] or
    ends with [.md2], [.sp2], [.iqm] or [.md3], compared without regard to
    case, and otherwise puts [model=value] into [others]. *)
Theorem model_rule (out : Out) (v : string) :
  Js.truthy v = true →
  if Str.has_prefix Re.lit_i "models/" (slashes v)
     || Str.ends_with Re.lit_i ".md2" (slashes v)
     || Str.ends_with Re.lit_i ".sp2" (slashes v)
     || Str.ends_with Re.lit_i ".iqm" (slashes v)
     || Str.ends_with Re.lit_i ".md3" (slashes v)
  then o_models (pair_step out ("model", v)) = set_add (slashes v) (o_models out)
       ∧ o_others (pair_step out ("model", v)) = o_others out
  else o_models (pair_step out ("model", v)) = o_models out
       ∧ o_others (pair_step out ("model", v))
         = set_add ("model=" ++ slashes v) (o_others out).
Proof.
  intros Hv. unfold pair_step. rewrite Hv. cbn [negb].
  destruct (class_step_buckets "model" v (world_step "model" v out))
    as (_ & _ & Hc3 & Hc4 & _).
  destruct (world_step_buckets "model" v out) as (_ & _ & Hw3 & Hw4 & _).
  unfold resource_step.
  change (String.eqb "model" "sky") with false.
  change (String.eqb "model" "sound" || String.eqb "model" "noise"
          || String.eqb "model" "snd" || Re.test re_sound_key "model") with false.
  change (String.eqb "model" "model") with true. cbv iota.
  unfold re_models_dir. rewrite test_dir_prefix, test_model_ext, !orb_assoc.
  change ("models" ++ "/") with "models/".
  destruct (Str.has_prefix Re.lit_i "models/" (slashes v)
            || Str.ends_with Re.lit_i ".md2" (slashes v)
            || Str.ends_with Re.lit_i ".sp2" (slashes v)
            || Str.ends_with Re.lit_i ".iqm" (slashes v)
            || Str.ends_with Re.lit_i ".md3" (slashes v));
    cbn [add_model add_other o_models o_others String.append];
    rewrite ?Hc3, ?Hc4, ?Hw3, ?Hw4; auto.
Qed.

Lemma model_rule_witness :
  o_models (pair_step empty_out ("model", "Models\items\quad.MD2"))
  = ["Models/items/quad.MD2"]
  ∧ o_others (pair_step empty_out ("model", "*12")) = ["model=*12"].
Proof.
  split.
  - pose proof (model_rule empty_out "Models\items\quad.MD2" eq_refl) as H.
    vm_compute in H. apply H.
  - pose proof (model_rule empty_out "*12" eq_refl) as H.
    vm_compute in H. apply H.
Defined.

(** ** The counter objects *)

Lemma prefix_item_armor (cls : string) :
  Js.startsWith cls "item_armor_" = true → Js.startsWith cls "weapon_" = false.
Proof.
  unfold Js.startsWith. intros H.
  destruct cls as [|c1 cls]; cbn [String.prefix] in H; [discriminate H|].
  destruct (ascii_dec "i" c1) as [<-|_]; [reflexivity|discriminate H].
Qed.

Lemma allowlist_no_prefix (cls : string) :
  set_has interestingItems cls = true →
  Js.startsWith cls "weapon_" = false
  ∧ Js.startsWith cls "item_armor_" = false
  ∧ Js.startsWith cls "info_player_" = false.
Proof.
  intros H. apply set_has_In in H. cbn [interestingItems In] in H.
  repeat (destruct H as [<-|H]; [repeat split; reflexivity|]).
  contradiction.
Qed.

Lemma inc_count_at (m : gmap string nat) (k cls : string) :
  count (inc m k) cls = (count m cls + if String.eqb k cls then 1 else 0)%nat.
Proof.
  destruct (String.eqb_spec k cls) as [->|Hne].
  - rewrite inc_count. lia.
  - unfold count. rewrite inc_other by exact Hne. lia.
Qed.

(** The contribution of one classname to the three counter objects. *)
Lemma classify_counts (c cls : string) (st : EntityStats) :
  let hit (b : bool) := if b && String.eqb c cls then 1%nat else 0%nat in
  count (weapons (classifyClassname c st)) cls
    = (count (weapons st) cls + hit (Js.startsWith cls "weapon_"))%nat
  ∧ count (armors (classifyClassname c st)) cls
    = (count (armors st) cls + hit (Js.startsWith cls "item_armor_"))%nat
  ∧ count (items (classifyClassname c st)) cls
    = (count (items st) cls + hit (set_has interestingItems cls))%nat.
Proof.
  cbv beta zeta.
  assert (Hz : ∀ b : bool, (if b && false then 1 else 0)%nat = 0%nat)
    by (intros []; reflexivity).
  destruct (String.eqb_spec c cls) as [->|Hne].
  - rewrite !andb_true_r. unfold classifyClassname.
    destruct (Js.startsWith cls "weapon_") eqn:Hw.
    + cbn [weapons armors items]. rewrite inc_count.
      destruct (Js.startsWith cls "item_armor_") eqn:Ha;
        [apply prefix_item_armor in Ha; congruence|].
      destruct (set_has interestingItems cls) eqn:Hi;
        [apply allowlist_no_prefix in Hi as (Hi & _); congruence|].
      repeat split; lia.
    + destruct (Js.startsWith cls "item_armor_") eqn:Ha.
      * cbn [weapons armors items]. rewrite inc_count.
        destruct (set_has interestingItems cls) eqn:Hi;
          [apply allowlist_no_prefix in Hi as (_ & Hi & _); congruence|].
        repeat split; lia.
      * destruct (Js.startsWith cls "info_player_") eqn:Hp.
        -- destruct (set_has interestingItems cls) eqn:Hi;
             [apply allowlist_no_prefix in Hi as (_ & _ & Hi); congruence|].
           step_cases; cbn; repeat split; lia.
        -- destruct (set_has interestingItems cls) eqn:Hi;
             cbn [weapons armors items]; rewrite ?inc_count; repeat split; lia.
  - rewrite !Hz. apply String.eqb_neq in Hne. unfold classifyClassname.
    step_cases; cbn [weapons armors items with_spawnPoints];
      rewrite ?inc_count_at, ?Hne; repeat split; lia.
Qed.

Lemma fold_classify_counts (l : list string) (cls : string) :
  ∀ st : EntityStats,
    let st' := fold_left (fun st c => classifyClassname c st) l st in
    let n (b : bool) := if b then count_occ string_dec l cls else 0%nat in
    count (weapons st') cls
      = (count (weapons st) cls + n (Js.startsWith cls "weapon_"))%nat
    ∧ count (armors st') cls
      = (count (armors st) cls + n (Js.startsWith cls "item_armor_"))%nat
    ∧ count (items st') cls
      = (count (items st) cls + n (set_has interestingItems cls))%nat.
Proof.
  induction l as [|c l IH]; intros st; cbv beta zeta.
  - cbn. repeat split; destruct (_ : bool); lia.
  - cbn [fold_left count_occ].
    destruct (IH (classifyClassname c st)) as (Hw & Ha & Hi).
    destruct (classify_counts c cls st) as (Hw' & Ha' & Hi').
    cbv beta zeta in *. rewrite Hw, Ha, Hi, Hw', Ha', Hi'.
    destruct (string_dec c cls) as [->|Hne].
    + rewrite String.eqb_refl, !andb_true_r.
      destruct (Js.startsWith cls "weapon_"), (Js.startsWith cls "item_armor_"),
        (set_has interestingItems cls); cbv iota; repeat split; lia.
    + apply String.eqb_neq in Hne. rewrite Hne, !andb_false_r.
      destruct (Js.startsWith cls "weapon_"), (Js.startsWith cls "item_armor_"),
        (set_has interestingItems cls); cbv iota; repeat split; lia.
Qed.

(** X9.  The three counter objects hold, for every classname, the number of
    [classname] pairs of the text with that value (lowercased): [weapons]
    for names with prefix [weapon_], [armors] for names with prefix
    [item_armor_], [items] for the names of the allowlist; every other
    name has count zero in each of them. *)
Theorem counters_count_occurrences (txt cls : string) :
  let st := o_entityStats (extractFromEntities txt empty_out) in
  let n := count_occ string_dec (classnames (entity_pairs txt)) cls in
  count (weapons st) cls = (if Js.startsWith cls "weapon_" then n else 0%nat)
  ∧ count (armors st) cls = (if Js.startsWith cls "item_armor_" then n else 0%nat)
  ∧ count (items st) cls = (if set_has interestingItems cls then n else 0%nat).
Proof.
  cbv beta zeta. unfold extractFromEntities. rewrite process_pairs_stats.
  destruct (fold_classify_counts (classnames (entity_pairs txt)) cls
              (o_entityStats empty_out)) as (Hw & Ha & Hi).
  cbv beta zeta in *. rewrite Hw, Ha, Hi. repeat split; reflexivity.
Qed.

(** ** The pair pattern of the tokenizer *)

Lemma star_split {A} (p : ascii → bool) (k : nat → string → option A) :
  ∀ (s : string) (pos : nat) (x : A),
    Re.star p k pos s = Some x →
    ∃ a b, s = a ++ b ∧ string_forall p a = true
           ∧ k (pos + String.length a)%nat b = Some x.
Proof.
  induction s as [|c s IH]; intros pos x H; cbn [Re.star] in H.
  - exists EmptyString, EmptyString. rewrite Nat.add_0_r. auto.
  - destruct (p c) eqn:Hc.
    + destruct (Re.star p k (S pos) s) as [y|] eqn:E.
      * inversion H; subst. apply IH in E as (a & b & -> & Ha & Hk).
        exists (String c a), b. cbn. rewrite Hc, Ha.
        replace (pos + S (String.length a))%nat
          with (S pos + String.length a)%nat by lia.
        auto.
      * exists EmptyString, (String c s). rewrite Nat.add_0_r. auto.
    + exists EmptyString, (String c s). rewrite Nat.add_0_r. auto.
Qed.

(** A greedy iteration stops exactly where the class stops, when the
    continuation accepts there. *)
Lemma star_exact {A} (p : ascii → bool) (k : nat → string → option A)
    (b : string) (x : A) :
  match b with String c _ => p c = false | EmptyString => True end →
  ∀ (a : string) (pos : nat),
    string_forall p a = true →
    k (pos + String.length a)%nat b = Some x →
    Re.star p k pos (a ++ b) = Some x.
Proof.
  intros Hb. induction a as [|c a IH]; intros pos Ha Hk.
  - cbn in *. rewrite Nat.add_0_r in Hk.
    destruct b as [|d b]; cbn [Re.star]; [exact Hk|]. rewrite Hb. exact Hk.
  - cbn in Ha. apply andb_prop in Ha as [Hc Ha].
    cbn [String.append Re.star]. rewrite Hc, (IH (S pos)); [reflexivity|exact Ha|].
    cbn in Hk. replace (S pos + String.length a)%nat
      with (pos + S (String.length a))%nat by lia. exact Hk.
Qed.

Lemma substring_prefix (a b : string) :
  String.substring 0 (String.length a) (a ++ b) = a.
Proof.
  induction a as [|c a IH]; cbn.
  - destruct b; reflexivity.
  - rewrite IH. reflexivity.
Qed.

Lemma lit_dquote (c : ascii) : Re.lit dquote c = true → c = dquote.
Proof. unfold Re.lit. intros H. apply Ascii.eqb_eq in H. exact H. Qed.

Lemma pair_match_groups {A} (pos : nat) (s : string)
    (k : nat → string → list string → option A) (x : A) :
  Re.rmatch re_pair pos s [] k = Some x →
  ∃ key ws v rest,
    s = dq ++ key ++ dq ++ ws ++ dq ++ v ++ dq ++ rest
    ∧ key ≠ EmptyString
    ∧ string_forall not_dquote key = true
    ∧ string_forall Js.is_space ws = true
    ∧ string_forall not_dquote v = true
    ∧ k (pos + String.length key + String.length ws + String.length v + 4)%nat
        rest [key; v] = Some x.
Proof.
  unfold re_pair, Re.Plus. cbn [Re.rmatch]. intros H.
  destruct s as [|c0 s]; [discriminate H|].
  destruct (Re.lit dquote c0) eqn:H0; [|discriminate H].
  apply lit_dquote in H0. subst c0.
  destruct s as [|c1 s]; [discriminate H|].
  destruct (not_dquote c1) eqn:H1; [|discriminate H].
  apply star_split in H as (a & s1 & -> & Ha & H). cbn [app] in H.
  destruct s1 as [|c2 s1]; [discriminate H|].
  destruct (Re.lit dquote c2) eqn:H2; [|discriminate H].
  apply lit_dquote in H2. subst c2.
  apply star_split in H as (ws & s2 & -> & Hws & H).
  destruct s2 as [|c3 s2]; [discriminate H|].
  destruct (Re.lit dquote c3) eqn:H3; [|discriminate H].
  apply lit_dquote in H3. subst c3.
  apply star_split in H as (v & s3 & -> & Hv & H).
  destruct s3 as [|c4 s3]; [discriminate H|].
  destruct (Re.lit dquote c4) eqn:H4; [|discriminate H].
  apply lit_dquote in H4. subst c4. cbn [app] in H.
  exists (String c1 a), ws, v, s3.
  split; [reflexivity|]. split; [discriminate|].
  split; [cbn; rewrite H1, Ha; reflexivity|].
  split; [exact Hws|]. split; [exact Hv|].
  match type of H with
  | k ?p _ [String.substring 0 ?n1 ?t1; String.substring 0 ?n2 ?t2] = _ =>
      replace n1 with (String.length (String c1 a)) in H by (cbn; lia);
      replace n2 with (String.length v) in H by lia;
      replace p with (pos + String.length (String c1 a) + String.length ws
                      + String.length v + 4)%nat in H by (cbn; lia)
  end.
  change (String c1 (a ++ String dquote (ws ++ String dquote (v ++ String dquote s3))))
    with (String c1 a ++ String dquote (ws ++ String dquote (v ++ String dquote s3)))
    in H.
  rewrite !substring_prefix in H. exact H.
Qed.

(** X10.  The pair pattern matches at a position exactly when the text there
    is a double quote, a non-empty key without double quotes, a double
    quote, a run of white space, a double quote, a value without double
    quotes and a double quote; the two groups are the key and the value,
    and the match ends right after the last quote. *)
Theorem pair_pattern_spec (pos pos' : nat) (s rest : string) (caps : list string) :
  Re.match_here re_pair pos s = Some (pos', rest, caps) ↔
  ∃ key ws v,
    caps = [key; v]
    ∧ s = dq ++ key ++ dq ++ ws ++ dq ++ v ++ dq ++ rest
    ∧ key ≠ EmptyString
    ∧ string_forall not_dquote key = true
    ∧ string_forall Js.is_space ws = true
    ∧ string_forall not_dquote v = true
    ∧ pos' = (pos + String.length key + String.length ws + String.length v + 4)%nat.
Proof.
  split.
  - unfold Re.match_here. intros H.
    apply pair_match_groups in H
      as (key & ws & v & rest' & -> & Hne & Hk & Hws & Hv & Heq).
    inversion Heq; subst. exists key, ws, v. repeat split; assumption.
  - intros (key & ws & v & -> & -> & Hne & Hk & Hws & Hv & ->).
    destruct key as [|c1 a]; [contradiction|].
    cbn in Hk. apply andb_prop in Hk as [H1 Ha].
    unfold Re.match_here, re_pair, Re.Plus, dq.
    cbn [Re.rmatch String.append].
    change (Re.lit dquote dquote) with true. cbv iota. rewrite H1.
    apply star_exact; [reflexivity|exact Ha|].
    cbn [Re.rmatch app]. change (Re.lit dquote dquote) with true. cbv iota.
    apply star_exact; [reflexivity|exact Hws|].
    change (Re.lit dquote dquote) with true. cbv iota.
    apply star_exact; [reflexivity|exact Hv|].
    change (Re.lit dquote dquote) with true. cbv iota. cbn [app].
    match goal with
    | |- Some (?p, _, [String.substring 0 ?n1 ?t1; String.substring 0 ?n2 ?t2]) = _ =>
        replace n1 with (String.length (String c1 a)) by (cbn; lia);
        replace n2 with (String.length v) by lia;
        replace p with (pos + String.length (String c1 a) + String.length ws
                        + String.length v + 4)%nat by (cbn; lia)
    end.
    change (String c1 (a ++ String dquote (ws ++ String dquote (v ++ String dquote rest))))
      with (String c1 a ++ String dquote (ws ++ String dquote (v ++ String dquote rest))).
    rewrite !substring_prefix. reflexivity.
Qed.

Lemma pair_pattern_spec_witness :
  Re.match_here re_pair 0 (quoted "sky" ++ " " ++ quoted "unit1_" ++ "}")
  = Some (14%nat, "}", ["sky"; "unit1_"]).
Proof.
  apply (pair_pattern_spec 0 14 _ "}" ["sky"; "unit1_"]).
  exists "sky", " ", "unit1_".
  split; [reflexivity|]. split; [reflexivity|]. split; [discriminate|].
  split; [reflexivity|]. split; [reflexivity|]. split; reflexivity.
Defined.

Lemma exec_all_Forall (r : Re.regex) (P : list string → Prop) :
  (∀ pos s pos' rest caps,
     Re.match_here r pos s = Some (pos', rest, caps) → P caps) →
  ∀ s pos skip, Forall P (Re.exec_all r pos s skip).
Proof.
  intros HP. induction s as [|c s IH]; intros pos skip.
  - destruct skip; cbn [Re.exec_all]; [|constructor].
    destruct (Re.match_here r pos "") as [[[p' rest] caps]|] eqn:E; constructor.
    + eapply HP, E.
    + constructor.
  - destruct skip; cbn [Re.exec_all]; [|apply IH].
    destruct (Re.match_here r pos (String c s)) as [[[p' rest] caps]|] eqn:E.
    + constructor; [eapply HP, E|apply IH].
    + apply IH.
Qed.

Lemma lower_char_idem (c : ascii) :
  Js.lower_char (Js.lower_char c) = Js.lower_char c.
Proof. destruct c as [[] [] [] [] [] [] [] []]; reflexivity. Qed.

Lemma lower_char_dquote (c : ascii) :
  not_dquote (Js.lower_char c) = not_dquote c.
Proof. destruct c as [[] [] [] [] [] [] [] []]; reflexivity. Qed.

Lemma toLowerCase_idem (s : string) :
  Js.toLowerCase (Js.toLowerCase s) = Js.toLowerCase s.
Proof.
  induction s as [|c s IH]; cbn; [reflexivity|].
  rewrite lower_char_idem, IH. reflexivity.
Qed.

Lemma toLowerCase_dquote (s : string) :
  string_forall not_dquote (Js.toLowerCase s) = string_forall not_dquote s.
Proof.
  induction s as [|c s IH]; cbn; [reflexivity|].
  rewrite lower_char_dquote, IH. reflexivity.
Qed.

(** X11.  Every pair that the tokenizer produces has a non-empty key in
    lower case, and neither its key nor its value holds a double quote. *)
Theorem entity_pairs_shape (txt : string) :
  Forall (fun kv => fst kv ≠ EmptyString
                    ∧ Js.toLowerCase (fst kv) = fst kv
                    ∧ string_forall not_dquote (fst kv) = true
                    ∧ string_forall not_dquote (snd kv) = true)
         (entity_pairs txt).
Proof.
  unfold entity_pairs. apply List.Forall_map.
  apply exec_all_Forall. intros pos s pos' rest caps H.
  unfold Re.match_here in H.
  apply pair_match_groups in H
    as (key & ws & v & rest' & _ & Hne & Hk & _ & Hv & Heq).
  inversion Heq; subst. cbn [nth fst snd].
  repeat split.
  - destruct key; [contradiction|discriminate].
  - apply toLowerCase_idem.
  - rewrite toLowerCase_dquote. exact Hk.
  - exact Hv.
Qed.

(** ** Keys of the map metadata and of the statistics *)

(** X12.  The keys [classname], [message], [map], [mapname], [mapversion]
    and [version] never reach a resource bucket: a pair with one of these
    keys leaves [skies], [sounds], [models] and [others] as they are. *)
Theorem metadata_keys_no_resource (out : Out) (k v : string) :
  In k ["classname"; "message"; "map"; "mapname"; "mapversion"; "version"] →
  o_skies (pair_step out (k, v)) = o_skies out
  ∧ o_sounds (pair_step out (k, v)) = o_sounds out
  ∧ o_models (pair_step out (k, v)) = o_models out
  ∧ o_others (pair_step out (k, v)) = o_others out.
Proof.
  intros Hk. unfold pair_step. destruct (Js.truthy v); cbn [negb]; [|auto].
  destruct (class_step_buckets k v (world_step k v out)) as (Hc1 & Hc2 & Hc3 & Hc4 & _).
  destruct (world_step_buckets k v out) as (Hw1 & Hw2 & Hw3 & Hw4 & _).
  assert (Hres : ∀ o, resource_step k (slashes v) o = o).
  { intros o. cbn [In] in Hk.
    repeat (destruct Hk as [<-|Hk]; [reflexivity|]). contradiction. }
  rewrite Hres, Hc1, Hc2, Hc3, Hc4, Hw1, Hw2, Hw3, Hw4. auto.
Qed.

Lemma metadata_keys_no_resource_witness :
  o_others (pair_step empty_out ("message", "my file script")) = []
  ∧ o_sounds (pair_step empty_out ("classname", "sound/x.wav")) = [].
Proof.
  split.
  - apply (metadata_keys_no_resource empty_out "message" "my file script").
    cbn. tauto.
  - apply (metadata_keys_no_resource empty_out "classname" "sound/x.wav").
    cbn. tauto.
Defined.

(** ** Results without diagnostics, truncated directories *)

(** X13.  A result has no error exactly when the four signature bytes,
    each read without its high bit as the ['ascii'] decoding does, have
    the codes 73 66 83 80 of I, B, S, P, and the buffer holds the whole
    directory (160 bytes): the bytes 49 42 53 50 pass, and so do C9 C2 D3
    D0.  It has no warning exactly when the version is 38 and both the
    ENTITIES and the TEXINFO entry pass the test of their consumer. *)
Theorem no_diagnostics_iff (buf : list byte) (r : AnalysisResult) :
  analyzeBspBuffer buf = Ok r →
  (errors r = [] ↔
   magic_codes buf = [73; 66; 83; 80] ∧ 160 <= Buffer.len buf)
  ∧ (warnings r = [] ↔
     int32_at buf 4 = Q2_VERSION
     ∧ is_Some (usable_lump buf LUMP_ENTITIES)
     ∧ is_Some (usable_lump buf LUMP_TEXINFO)).
Proof.
  intros Hr. apply analyze_ok_inv in Hr as [Hlen ->].
  rewrite <- magic_codes_spec by lia.
  cbn [analysis errors warnings]. unfold emitted_errors, emitted_warnings. split.
  - destruct (String.eqb_spec (Buffer.toString buf 0 4) Q2_MAGIC) as [He|Hne];
      destruct (Z.ltb_spec (Buffer.len buf) 160) as [Hs|Hl]; cbn [app]; split;
      try discriminate; try (intros [? ?]; first [contradiction|lia]); auto.
  - destruct (Z.eqb_spec (int32_at buf 4) Q2_VERSION) as [He|Hne];
      destruct (usable_lump buf LUMP_ENTITIES) as [e|];
      destruct (usable_lump buf LUMP_TEXINFO) as [t|]; cbn [app]; split;
      try discriminate;
      try (intros (? & He' & Ht'); first [contradiction
                                         |destruct He' as [? He']; discriminate He'
                                         |destruct Ht' as [? Ht']; discriminate Ht']);
      intros _; repeat split; eauto.
Qed.

Lemma no_diagnostics_iff_witness :
  (∃ r, analyzeBspBuffer clean_buf = Ok r ∧ errors r = [] ∧ warnings r = [])
  ∧ (∃ r, analyzeBspBuffer high_bit_buf = Ok r ∧ errors r = []).
Proof.
  split.
  - eexists. split; [vm_compute; reflexivity|].
    match goal with
    | |- errors ?r = _ ∧ _ =>
        destruct (no_diagnostics_iff clean_buf r) as [[_ He] [_ Hw]]
    end.
    + vm_compute. reflexivity.
    + split.
      * apply He. split; vm_compute; [reflexivity|discriminate].
      * apply Hw. split; [vm_compute; reflexivity|].
        split; vm_compute; eauto.
  - eexists. split; [vm_compute; reflexivity|].
    match goal with
    | |- errors ?r = _ =>
        destruct (no_diagnostics_iff high_bit_buf r) as [[_ He] _]
    end.
    + vm_compute. reflexivity.
    + apply He. split; vm_compute; [reflexivity|discriminate].
Defined.

Lemma lump_table_length (buf : list byte) :
  8 <= Buffer.len buf → Buffer.len buf < 160 →
  List.length (lump_table buf) = Z.to_nat ((Buffer.len buf - 8) / 8).
Proof.
  intros Hlo Hhi. unfold lump_table, entries_from, avail.
  rewrite List.length_map, List.length_seq.
  assert ((Buffer.len buf - 8) / 8 < 19) by (apply Z.div_lt_upper_bound; lia).
  assert (0 <= (Buffer.len buf - 8) / 8) by (apply Z.div_pos; lia).
  lia.
Qed.

Lemma usable_lump_beyond (buf : list byte) (i : nat) :
  (List.length (lump_table buf) <= i)%nat → usable_lump buf i = None.
Proof.
  intros H. unfold usable_lump.
  apply nth_error_None in H. rewrite H. reflexivity.
Qed.

(** X14.  On a buffer of 8 to 159 bytes the directory loop keeps the
    [(len - 8) / 8] complete entries and pushes the end-of-file error last;
    below 56 bytes there is no TEXINFO entry, so [textures] is empty and
    its warning is emitted; below 16 bytes there is no ENTITIES entry
    either, so nothing is extracted from entities. *)
Theorem truncated_directory (buf : list byte) (r : AnalysisResult) :
  analyzeBspBuffer buf = Ok r →
  Buffer.len buf < 160 →
  List.length (lump_table buf) = Z.to_nat ((Buffer.len buf - 8) / 8)
  ∧ (errors r = [msg_lump_eof]
     ∨ errors r = [msg_signature (Buffer.toString buf 0 4); msg_lump_eof])
  ∧ (Buffer.len buf < 56 → textures r = [] ∧ In msg_texinfo (warnings r))
  ∧ (Buffer.len buf < 16 →
     In msg_entities (warnings r)
     ∧ skies r = [] ∧ sounds r = [] ∧ models r = [] ∧ others r = []
     ∧ entityStats r = createEmptyEntityStats
     ∧ mapName r = None ∧ mapVersion r = None).
Proof.
  intros Hr Hlen. pose proof Hr as Hr'. apply analyze_ok_inv in Hr' as [Hlo ->].
  pose proof (lump_table_length buf Hlo Hlen) as Hn.
  destruct (unusable_lump_absent buf (analysis buf) Hr) as [Hent Htex].
  split; [exact Hn|]. split; [|split].
  - cbn [analysis errors]. unfold emitted_errors.
    destruct (Z.ltb_spec (Buffer.len buf) 160); [|lia].
    destruct (String.eqb _ Q2_MAGIC); cbn [app]; auto.
  - intros H56. apply and_comm, Htex, usable_lump_beyond. rewrite Hn.
    assert ((Buffer.len buf - 8) / 8 < 6) by (apply Z.div_lt_upper_bound; lia).
    unfold LUMP_TEXINFO. lia.
  - intros H16. apply Hent, usable_lump_beyond. rewrite Hn.
    assert ((Buffer.len buf - 8) / 8 < 1) by (apply Z.div_lt_upper_bound; lia).
    unfold LUMP_ENTITIES. lia.
Qed.

Lemma truncated_directory_witness :
  ∃ r, analyzeBspBuffer cut_buf = Ok r
       ∧ List.length (lump_table cut_buf) = 5%nat
       ∧ errors r = [msg_lump_eof]
       ∧ textures r = []
       ∧ In msg_texinfo (warnings r).
Proof.
  eexists. split; [vm_compute; reflexivity|].
  match goal with
  | |- _ ∧ errors ?r = _ ∧ _ =>
      destruct (truncated_directory cut_buf r) as (Hn & _ & Ht & _)
  end.
  - vm_compute. reflexivity.
  - vm_compute. reflexivity.
  - split; [rewrite Hn; vm_compute; reflexivity|].
    split; [vm_compute; reflexivity|].
    split; apply Ht; vm_compute; reflexivity.
Defined.

(** ** htmlEscape *)

Lemma substring_zero (s : string) : String.substring 0 0 s = EmptyString.
Proof. destruct s; reflexivity. Qed.

Lemma replace_all_with_chr (p : ascii → bool) (fn : string → string) :
  ∀ (s : string) (pos : nat),
    replace_all_with (Re.Chr p) fn pos s 0
    = expand p (fun c => fn (String c EmptyString)) s.
Proof.
  induction s as [|c s IH]; intros pos; [reflexivity|].
  cbn [replace_all_with expand]. unfold Re.match_here. cbn [Re.rmatch].
  destruct (p c).
  - replace (S pos =? pos)%nat with false by (symmetry; apply Nat.eqb_neq; lia).
    replace (S pos - pos - 1)%nat with 0%nat by lia.
    replace (S pos - pos)%nat with 1%nat by lia.
    cbn [String.substring]. rewrite substring_zero, IH. reflexivity.
  - rewrite IH. reflexivity.
Qed.

Lemma expand_append (p : ascii → bool) (f : ascii → string) (a b : string) :
  expand p f (a ++ b) = expand p f a ++ expand p f b.
Proof.
  induction a as [|c a IH]; cbn [String.append expand]; [reflexivity|].
  rewrite IH, append_assoc. reflexivity.
Qed.

Lemma expand_id (p : ascii → bool) (f : ascii → string) (s : string) :
  string_forall (fun c => negb (p c)) s = true → expand p f s = s.
Proof.
  induction s as [|c s IH]; cbn; [reflexivity|].
  intros H. apply andb_prop in H as [Hc Hs].
  apply negb_true_iff in Hc. rewrite Hc, IH by exact Hs. reflexivity.
Qed.

Lemma htmlEscape_expand (s : string) :
  htmlEscape s = expand is_html_special html_char s.
Proof. apply replace_all_with_chr. Qed.

Lemma html_special_cases (c : ascii) :
  is_html_special c = true →
  c = "&"%char ∨ c = "<"%char ∨ c = ">"%char ∨ c = dquote ∨ c = squote.
Proof.
  unfold is_html_special. intros H.
  repeat (apply orb_prop in H as [H|H]);
    apply Ascii.eqb_eq in H; auto 10.
Qed.

Lemma html_char_special (c : ascii) :
  is_html_special c = true →
  ∃ rest, html_char c = String "&" rest
          ∧ (3 <= String.length rest)%nat
          ∧ string_forall (fun x => negb (is_markup x)) rest = true.
Proof.
  intros H. apply html_special_cases in H as [-> | [-> | [-> | [-> | ->]]]];
    eexists; (split; [reflexivity|split; [cbn; lia|reflexivity]]).
Qed.

Lemma not_special_not_markup (c : ascii) :
  is_html_special c = false → is_markup c = false.
Proof.
  unfold is_html_special, is_markup. intros H.
  destruct (Ascii.eqb c "&"); [discriminate H|]. exact H.
Qed.

(** X15.  The output of [htmlEscape] holds no less-than sign, greater-than
    sign, double quote or single quote: text put through it cannot open or
    close a tag or an attribute value. *)
Theorem htmlEscape_no_markup (s : string) :
  string_forall (fun c => negb (is_markup c)) (htmlEscape s) = true.
Proof.
  rewrite htmlEscape_expand. induction s as [|c s IH]; [reflexivity|].
  cbn [expand]. rewrite string_forall_append, IH, andb_true_r.
  destruct (is_html_special c) eqn:E.
  - destruct (html_char_special c E) as (rest & -> & _ & Hr).
    cbn. exact Hr.
  - cbn. rewrite (not_special_not_markup c E). reflexivity.
Qed.

Lemma htmlEscape_length (s : string) :
  (String.length s <= String.length (htmlEscape s))%nat.
Proof.
  rewrite htmlEscape_expand. induction s as [|c s IH]; [reflexivity|].
  cbn [expand]. rewrite append_length.
  destruct (is_html_special c) eqn:E.
  - destruct (html_char_special c E) as (rest & -> & Hl & _). cbn. lia.
  - cbn. lia.
Qed.

(** X16.  [htmlEscape] works character by character: the escape of a
    concatenation is the concatenation of the escapes, and a text is
    returned unchanged exactly when it holds none of the five characters
    of the class. *)
Theorem htmlEscape_compositional (a b : string) :
  htmlEscape (a ++ b) = htmlEscape a ++ htmlEscape b
  ∧ (htmlEscape a = a ↔
     string_forall (fun c => negb (is_html_special c)) a = true).
Proof.
  split.
  - rewrite !htmlEscape_expand. apply expand_append.
  - split.
    + induction a as [|c a IH]; [reflexivity|].
      intros H. pose proof (htmlEscape_length a) as Hl.
      rewrite htmlEscape_expand in H. cbn [expand] in H.
      rewrite <- htmlEscape_expand in H.
      destruct (is_html_special c) eqn:E.
      * destruct (html_char_special c E) as (rest & Hr & Hlen & _).
        rewrite Hr in H. cbn [String.append] in H. inversion H as [[Hc Ha]].
        apply (f_equal String.length) in Ha. rewrite append_length in Ha. lia.
      * cbn [String.append] in H. inversion H as [Ha].
        cbn. rewrite E. rewrite Ha. apply IH. exact Ha.
    + intros H. rewrite htmlEscape_expand. apply expand_id. exact H.
Qed.

Lemma htmlEscape_compositional_witness :
  htmlEscape "q2dm1.bsp" = "q2dm1.bsp"
  ∧ htmlEscape ("a<" ++ "b") = htmlEscape "a<" ++ htmlEscape "b".
Proof.
  split.
  - destruct (htmlEscape_compositional "q2dm1.bsp" "") as [_ [_ H]].
    apply H. reflexivity.
  - apply (htmlEscape_compositional "a<" "b").
Defined.

Lemma html_char_prefix_free (c d : ascii) (x y : string) :
  (if is_html_special c then html_char c else String c EmptyString) ++ x
  = (if is_html_special d then html_char d else String d EmptyString) ++ y →
  c = d ∧ x = y.
Proof.
  destruct (is_html_special c) eqn:Ec; destruct (is_html_special d) eqn:Ed.
  - apply html_special_cases in Ec as [-> | [-> | [-> | [-> | ->]]]];
      apply html_special_cases in Ed as [-> | [-> | [-> | [-> | ->]]]];
      cbn; intros H; inversion H; auto.
  - apply html_special_cases in Ec as [-> | [-> | [-> | [-> | ->]]]];
      cbn; intros H; inversion H; subst; discriminate Ed.
  - apply html_special_cases in Ed as [-> | [-> | [-> | [-> | ->]]]];
      cbn; intros H; inversion H; subst; discriminate Ec.
  - cbn. intros H. inversion H. auto.
Qed.

(** X17.  [htmlEscape] loses nothing: two texts with the same escape are
    the same text. *)
Theorem htmlEscape_injective (a b : string) :
  htmlEscape a = htmlEscape b → a = b.
Proof.
  rewrite !htmlEscape_expand. revert b.
  induction a as [|c a IH]; intros [|d b] H; cbn [expand] in H.
  - reflexivity.
  - exfalso. apply (f_equal String.length) in H. rewrite append_length in H.
    destruct (is_html_special d) eqn:E.
    + destruct (html_char_special d E) as (rest & Hr & _). rewrite Hr in H.
      cbn in H. lia.
    + cbn in H. lia.
  - exfalso. apply (f_equal String.length) in H. rewrite append_length in H.
    destruct (is_html_special c) eqn:E.
    + destruct (html_char_special c E) as (rest & Hr & _). rewrite Hr in H.
      cbn in H. lia.
    + cbn in H. lia.
  - apply html_char_prefix_free in H as [-> H]. f_equal. apply IH, H.
Qed.

Lemma htmlEscape_injective_witness :
  htmlEscape ("<b>Tom " ++ String squote "s" ++ " & Co</b>")
  = "&lt;b&gt;Tom &#39;s &amp; Co&lt;/b&gt;"
  ∧ "<b>Tom & " ++ "Co</b>" = "<b>Tom" ++ " & Co</b>".
Proof.
  split; [vm_compute; reflexivity|].
  apply htmlEscape_injective. vm_compute. reflexivity.
Defined.

(** ** The extension of uploaded files *)

Lemma equal_length (f : ascii → ascii → bool) (w s : string) :
  Str.equal f w s = true → String.length s = String.length w.
Proof.
  unfold Str.equal. intros H.
  destruct (Str.strip f w s) as [[|c r]|] eqn:E; try discriminate H.
  apply strip_app in E as (p & -> & Hl). rewrite append_length. cbn. lia.
Qed.

Lemma matches_here_bsp (pos : nat) (s : string) :
  Re.match_here re_bsp_ext pos s =
  if Str.equal Re.lit_i ".bsp" s then Some ((pos + 4)%nat, EmptyString, [])
  else None.
Proof.
  rewrite equal_dot_word. unfold Re.match_here, re_bsp_ext, Re.word_i.
  cbn [Re.rmatch]. destruct s as [|c s]; [reflexivity|].
  destruct (Re.lit "." c); [|reflexivity]. cbn [andb].
  rewrite rmatch_lits. unfold Str.equal.
  destruct (Str.strip Re.lit_i "bsp" s) as [[|? ?]|]; try reflexivity.
  cbn [Re.rmatch String.length]. do 3 f_equal. lia.
Qed.

Lemma test_bsp_ext (s : string) :
  Re.test re_bsp_ext s = Str.ends_with Re.lit_i ".bsp" s.
Proof.
  unfold Re.test. rewrite search_anywhere.
  rewrite (anywhere_ext _ (fun _ x => Str.equal Re.lit_i ".bsp" x)).
  - apply anywhere_ends_with.
  - intros pos x. unfold matches_here. rewrite matches_here_bsp.
    destruct (Str.equal Re.lit_i ".bsp" x); reflexivity.
Qed.

Lemma search_bsp_suffix (ext : string) :
  Str.equal Re.lit_i ".bsp" ext = true →
  ∀ (base : string) (pos : nat),
    Re.search re_bsp_ext pos (base ++ ext)
    = Some ((pos + String.length base)%nat,
            ((pos + String.length base + 4)%nat, EmptyString, [])).
Proof.
  intros Hext. induction base as [|c base IH]; intros pos.
  - cbn [String.append String.length]. rewrite Nat.add_0_r.
    destruct ext as [|e ext]; [discriminate Hext|].
    cbn [Re.search]. rewrite matches_here_bsp, Hext. reflexivity.
  - cbn [String.append Re.search]. rewrite matches_here_bsp.
    destruct (Str.equal Re.lit_i ".bsp" (String c (base ++ ext))) eqn:E.
    + apply equal_length in E. apply equal_length in Hext.
      cbn in E. rewrite append_length in E. cbn in Hext. lia.
    + rewrite IH. cbn [String.length].
      replace (S pos + String.length base)%nat
        with (pos + S (String.length base))%nat by lia.
      reflexivity.
Qed.

Lemma append_nil_r (s : string) : s ++ "" = s.
Proof. induction s as [|c s IH]; cbn; [reflexivity|]. rewrite IH. reflexivity. Qed.

Lemma replace_bsp_suffix (base ext : string) :
  Str.equal Re.lit_i ".bsp" ext = true →
  Re.replace re_bsp_ext "" (base ++ ext) = base.
Proof.
  intros Hext. unfold Re.replace. rewrite (search_bsp_suffix ext Hext base 0).
  cbn [Nat.add]. rewrite substring_prefix. cbn [String.append].
  apply append_nil_r.
Qed.

Lemma replace_bsp_none (name : string) :
  Str.ends_with Re.lit_i ".bsp" name = false →
  Re.replace re_bsp_ext "" name = name.
Proof.
  intros H. unfold Re.replace.
  pose proof (test_bsp_ext name) as Ht. unfold Re.test in Ht. rewrite H in Ht.
  destruct (Re.search re_bsp_ext 0 name); [discriminate Ht|reflexivity].
Qed.

Lemma ends_with_split (f : ascii → ascii → bool) (w : string) :
  ∀ s, Str.ends_with f w s = true →
       ∃ base ext, s = base ++ ext ∧ Str.equal f w ext = true.
Proof.
  induction s as [|c s IH]; cbn [Str.ends_with]; intros H.
  - rewrite orb_false_r in H. exists EmptyString, EmptyString. auto.
  - apply orb_prop in H as [H|H].
    + exists EmptyString, (String c s). auto.
    + destruct (IH H) as (base & ext & -> & He).
      exists (String c base), ext. auto.
Qed.

(** X18.  [getBaseMapName] removes one final [.bsp], compared without
    regard to case, and nothing else: a name made of a base and such an
    extension gives the base, a name that does not end so is returned as
    it is, and a missing or empty name gives the empty string. *)
Theorem getBaseMapName_spec (name : string) :
  (∀ base ext,
     Str.equal Re.lit_i ".bsp" ext = true →
     getBaseMapName (Some (base ++ ext)) = base)
  ∧ (Str.ends_with Re.lit_i ".bsp" name = false →
     getBaseMapName (Some name) = name)
  ∧ getBaseMapName None = EmptyString
  ∧ getBaseMapName (Some EmptyString) = EmptyString.
Proof.
  split; [|split; [|split; reflexivity]].
  - intros base ext Hext. unfold getBaseMapName.
    assert (Ht : Js.truthy (base ++ ext) = true).
    { destruct base; [|reflexivity]. destruct ext; [discriminate Hext|reflexivity]. }
    rewrite Ht. apply replace_bsp_suffix, Hext.
  - intros H. unfold getBaseMapName.
    destruct name as [|c name]; [reflexivity|]. cbn [Js.truthy].
    apply replace_bsp_none, H.
Qed.

Lemma getBaseMapName_spec_witness :
  getBaseMapName (Some "Q2DM1.BSP") = "Q2DM1"
  ∧ getBaseMapName (Some "base1.bsp.bsp") = "base1.bsp"
  ∧ getBaseMapName (Some "notes.bsp.txt") = "notes.bsp.txt".
Proof.
  destruct (getBaseMapName_spec "notes.bsp.txt") as (Hext & Hnone & _).
  split; [|split].
  - apply (Hext "Q2DM1" ".BSP"). reflexivity.
  - apply (Hext "base1.bsp" ".bsp"). reflexivity.
  - apply Hnone. reflexivity.
Defined.

(** X19.  The upload filter accepts a file exactly when its name ends with
    [.bsp], compared without regard to case, and rejects every other name
    with the error "only .bsp"; the base name of an accepted file is its
    name without these last four characters. *)
Theorem fileFilter_spec (name : string) :
  (fileFilter name = Ok true ↔ Str.ends_with Re.lit_i ".bsp" name = true)
  ∧ (fileFilter name = Throw (JsError msg_only_bsp) ↔
     Str.ends_with Re.lit_i ".bsp" name = false)
  ∧ (fileFilter name = Ok true →
     ∃ ext, Str.equal Re.lit_i ".bsp" ext = true
            ∧ name = getBaseMapName (Some name) ++ ext).
Proof.
  unfold fileFilter. rewrite test_bsp_ext.
  destruct (Str.ends_with Re.lit_i ".bsp" name) eqn:E; cbn [negb];
    (split; [split; auto; discriminate|split; [split; auto; discriminate|]]).
  - intros _. apply ends_with_split in E as (base & ext & -> & Hext).
    exists ext. split; [exact Hext|].
    unfold getBaseMapName.
    assert (Ht : Js.truthy (base ++ ext) = true).
    { destruct base; [|reflexivity]. destruct ext; [discriminate Hext|reflexivity]. }
    rewrite Ht, replace_bsp_suffix by exact Hext. reflexivity.
  - discriminate.
Qed.

Lemma fileFilter_spec_witness :
  fileFilter "q2dm1.BSP" = Ok true
  ∧ fileFilter "q2dm1.bsp.zip" = Throw (JsError msg_only_bsp)
  ∧ ∃ ext, Str.equal Re.lit_i ".bsp" ext = true
           ∧ "q2dm1.BSP" = getBaseMapName (Some "q2dm1.BSP") ++ ext.
Proof.
  destruct (fileFilter_spec "q2dm1.BSP") as ([_ Hok] & _ & Hbase).
  destruct (fileFilter_spec "q2dm1.bsp.zip") as (_ & [_ Hrej] & _).
  split; [apply Hok; reflexivity|].
  split; [apply Hrej; reflexivity|].
  apply Hbase, Hok. reflexivity.
Defined.

(** ** escapeRegExp *)

Lemma escapeRegExp_expand (s : string) :
  escapeRegExp s
  = expand is_regexp_special (fun c => String backslash (String c EmptyString)) s.
Proof. apply replace_all_with_chr. Qed.

Lemma backslash_is_special (c : ascii) :
  is_regexp_special c = false → Ascii.eqb c backslash = false.
Proof.
  unfold is_regexp_special. cbn [existsb]. intros H.
  do 13 (apply orb_false_elim in H as [_ H]).
  apply orb_false_elim in H as [H _]. exact H.
Qed.

(** X20.  In the output of [escapeRegExp] every character of the class
    (the metacharacters of a regular expression and the backslash) comes
    right after a backslash that escapes it, and reading each backslash as
    an escape of the next character gives back the input: the search
    pattern built from a query denotes the query itself. *)
Theorem escapeRegExp_literal (s : string) :
  escaped (escapeRegExp s) = true ∧ unescape (escapeRegExp s) = s.
Proof.
  rewrite escapeRegExp_expand.
  induction s as [|c s [IH1 IH2]]; [split; reflexivity|].
  cbn [expand]. destruct (is_regexp_special c) eqn:E.
  - cbn [String.append escaped unescape].
    change (Ascii.eqb backslash backslash) with true. cbv iota.
    rewrite IH2. auto.
  - cbn [String.append escaped unescape].
    rewrite (backslash_is_special c E), E, IH1, IH2. auto.
Qed.

(** ** The two versions of the analyser *)

Lemma buckets_of_pair_step (out : Out) (kv : string * string) :
  buckets_of (pair_step out kv) = V1.pair_step (buckets_of out) kv.
Proof.
  destruct kv as [k v]. unfold pair_step, V1.pair_step.
  destruct (Js.truthy v); cbn [negb]; [|reflexivity].
  assert (Hin : buckets_of (class_step k v (world_step k v out)) = buckets_of out).
  { unfold buckets_of.
    destruct (class_step_buckets k v (world_step k v out)) as (-> & -> & -> & -> & _).
    destruct (world_step_buckets k v out) as (-> & -> & -> & -> & _).
    reflexivity. }
  rewrite <- Hin. generalize (class_step k v (world_step k v out)). intros o.
  unfold resource_step.
  repeat match goal with
         | |- context [if ?b then _ else _] => destruct b
         end; reflexivity.
Qed.

Lemma buckets_of_process (pairs : list (string * string)) :
  ∀ out, buckets_of (process_pairs pairs out)
         = fold_left V1.pair_step pairs (buckets_of out).
Proof.
  induction pairs as [|kv pairs IH]; intros out; [reflexivity|].
  rewrite process_pairs_cons, IH, buckets_of_pair_step. reflexivity.
Qed.

Lemma buckets_of_extract (txt : string) :
  buckets_of (extractFromEntities txt empty_out)
  = V1.extractFromEntities txt V1.empty_out.
Proof. apply buckets_of_process. Qed.

(** X21.  The first version of the analyser and the later one throw on the
    same buffers, and where they return they agree on [errors],
    [warnings] and the five resource lists: the statistics and the map
    name were added without changing what was there. *)
Theorem versions_agree (buf : list byte) :
  match V1.analyzeBspBuffer buf, analyzeBspBuffer buf with
  | Ok r1, Ok r2 => same_resources r1 r2
  | Throw e1, Throw e2 => e1 = e2
  | _, _ => False
  end.
Proof.
  unfold V1.analyzeBspBuffer, analyzeBspBuffer.
  destruct (Buffer.len buf <? 8); [reflexivity|].
  destruct (Buffer.readInt32LE buf 4) as [version|e]; cbn [bind]; [|reflexivity].
  destruct (read_lumps buf 19 8 []
              (if String.eqb (Buffer.toString buf 0 4) Q2_MAGIC then []
               else [msg_signature (Buffer.toString buf 0 4)]))
    as [[lumps errs]|e]; cbn [bind]; [|reflexivity].
  assert (Hb : ∀ txt,
    V1.extractFromEntities txt V1.empty_out
    = buckets_of (extractFromEntities txt empty_out))
    by (intros txt; symmetry; apply buckets_of_extract).
  destruct (nth_error lumps LUMP_ENTITIES) as [e|];
    destruct (nth_error lumps LUMP_TEXINFO) as [t|];
    repeat match goal with
           | |- context [lump_usable buf (Some ?l)] =>
               destruct (lump_usable buf (Some l))
           end;
    rewrite ?Hb; repeat split.
Qed.

(** ** Rejected lumps and their warnings *)

Lemma msg_version_head (v : Z) :
  ∃ rest, msg_version v = String "208" rest.
Proof. unfold msg_version. eexists. cbn [String.append]. reflexivity. Qed.

(** X22.  The warning of a lump is emitted exactly when the lump fails the
    test of its consumer (missing entry, length not positive, or end
    beyond the buffer); a rejected ENTITIES lump leaves every
    entity-derived field empty and a rejected TEXINFO lump leaves
    [textures] empty. *)
Theorem rejected_lump_warns (buf : list byte) (r : AnalysisResult) :
  analyzeBspBuffer buf = Ok r →
  (In msg_entities (warnings r) ↔ lump_rejected buf LUMP_ENTITIES)
  ∧ (In msg_texinfo (warnings r) ↔ lump_rejected buf LUMP_TEXINFO)
  ∧ (lump_rejected buf LUMP_ENTITIES →
     skies r = [] ∧ sounds r = [] ∧ models r = [] ∧ others r = []
     ∧ entityStats r = createEmptyEntityStats
     ∧ mapName r = None ∧ mapVersion r = None)
  ∧ (lump_rejected buf LUMP_TEXINFO → textures r = []).
Proof.
  intros Hr. destruct (unusable_lump_absent buf r Hr) as [Hent Htex].
  apply analyze_ok_inv in Hr as [_ ->].
  unfold lump_rejected. rewrite <- !usable_lump_none.
  destruct (msg_version_head (int32_at buf 4)) as [rest Hv].
  split; [|split; [|split]].
  - split; [|intros H; apply Hent, H].
    cbn [analysis warnings]. unfold emitted_warnings.
    rewrite !in_app_iff.
    destruct (usable_lump buf LUMP_ENTITIES); [|reflexivity].
    intros [H|[[]|H]].
    + destruct (int32_at buf 4 =? Q2_VERSION); [destruct H|].
      destruct H as [H|[]]. rewrite Hv in H. discriminate H.
    + destruct (usable_lump buf LUMP_TEXINFO); [destruct H|].
      destruct H as [H|[]]. discriminate H.
  - split; [|intros H; apply Htex, H].
    cbn [analysis warnings]. unfold emitted_warnings.
    rewrite !in_app_iff.
    destruct (usable_lump buf LUMP_TEXINFO); [|reflexivity].
    intros [H|[H|[]]].
    + destruct (int32_at buf 4 =? Q2_VERSION); [destruct H|].
      destruct H as [H|[]]. rewrite Hv in H. discriminate H.
    + destruct (usable_lump buf LUMP_ENTITIES); [destruct H|].
      destruct H as [H|[]]. discriminate H.
  - intros H. apply Hent, H.
  - intros H. apply Htex, H.
Qed.

Lemma rejected_lump_warns_witness :
  ∃ r, analyzeBspBuffer rejected_buf = Ok r
       ∧ warnings r = [msg_entities; msg_texinfo]
       ∧ textures r = [] ∧ skies r = [].
Proof.
  eexists. split; [vm_compute; reflexivity|].
  match goal with
  | |- warnings ?r = _ ∧ _ =>
      destruct (rejected_lump_warns rejected_buf r) as (_ & _ & He & Ht)
  end.
  - vm_compute. reflexivity.
  - split; [vm_compute; reflexivity|]. split.
    + apply Ht. intros l Hl. vm_compute in Hl. inversion Hl. left.
      vm_compute. discriminate.
    + apply He. intros l Hl. vm_compute in Hl. inversion Hl. right.
      vm_compute. reflexivity.
Defined.

(** ** The title cleaner *)

Lemma star_greedy (p : ascii → bool) (caps : list string) :
  ∀ (s : string) (pos : nat),
    ∃ rest,
      Re.star p (fun pos' s' => Some (pos', s', caps)) pos s
      = Some ((pos + run_length p s)%nat, rest, caps).
Proof.
  induction s as [|c s IH]; intros pos; cbn [Re.star run_length].
  - exists EmptyString. rewrite Nat.add_0_r. reflexivity.
  - destruct (p c).
    + destruct (IH (S pos)) as [rest ->]. exists rest.
      replace (S pos + run_length p s)%nat with (pos + S (run_length p s))%nat
        by lia.
      reflexivity.
    + exists (String c s). rewrite Nat.add_0_r. reflexivity.
Qed.

Lemma replace_all_plus (p : ascii → bool) :
  ∀ (s : string) (pos : nat),
    Re.replace_all (Re.Plus p) " " pos s 0 = collapse p false s
    ∧ Re.replace_all (Re.Plus p) " " pos s (run_length p s) = collapse p true s.
Proof.
  induction s as [|c s IH]; intros pos; [split; reflexivity|].
  cbn [run_length collapse]. destruct (p c) eqn:E.
  - split; [|cbn [Re.replace_all]; apply IH].
    cbn [Re.replace_all]. unfold Re.match_here, Re.Plus. cbn [Re.rmatch].
    rewrite E. destruct (star_greedy p [] s (S pos)) as [rest ->].
    replace (S pos + run_length p s =? pos)%nat with false
      by (symmetry; apply Nat.eqb_neq; lia).
    replace (S pos + run_length p s - pos - 1)%nat with (run_length p s) by lia.
    cbn [String.append]. f_equal. apply IH.
  - assert (H : Re.replace_all (Re.Plus p) " " pos (String c s) 0
                = String c (collapse p false s)).
    { cbn [Re.replace_all]. unfold Re.match_here, Re.Plus. cbn [Re.rmatch].
      rewrite E. f_equal. apply IH. }
    split; exact H.
Qed.

Lemma replace_all_escape :
  ∀ (s : string),
    (∀ pos, Re.replace_all re_escape_seq " " pos s 0 = blank_escapes s)
    ∧ (∀ c pos, Re.replace_all re_escape_seq " " pos (String c s) 0
                = blank_escapes (String c s)).
Proof.
  induction s as [|d s [IH1 IH2]].
  - split; [reflexivity|]. intros c pos.
    cbn [Re.replace_all blank_escapes]. unfold Re.match_here, re_escape_seq.
    cbn [Re.rmatch]. destruct (Re.lit backslash c); reflexivity.
  - split; [intros pos; apply IH2|]. intros c pos.
    cbn [Re.replace_all blank_escapes]. unfold Re.match_here, re_escape_seq.
    cbn [Re.rmatch]. unfold escape_pair, Re.lit.
    destruct (Ascii.eqb c backslash); cbn [andb].
    + destruct (is_nrt d).
      * replace (S (S pos) =? pos)%nat with false
          by (symmetry; apply Nat.eqb_neq; lia).
        replace (S (S pos) - pos - 1)%nat with 1%nat by lia.
        cbn [String.append Re.replace_all]. f_equal. apply IH1.
      * f_equal. apply IH2.
    + f_equal. apply IH2.
Qed.

(** [cleanMapTitle] in closed form. *)
Lemma cleanMapTitle_eq (n : string) :
  cleanMapTitle (Some n)
  = Js.trim (collapse Js.is_space false
               (collapse is_wide_space false
                  (collapse is_control false (blank_escapes n)))).
Proof.
  unfold cleanMapTitle. destruct n as [|c n]; [reflexivity|].
  cbn [Js.truthy_opt Js.truthy negb]. cbv zeta.
  destruct (replace_all_escape n) as [_ ->].
  unfold re_control, re_wide_space, re_spaces.
  rewrite !(fun p s => proj1 (replace_all_plus p s 0)). reflexivity.
Qed.

Lemma collapse_forall (q0 q p : ascii → bool) :
  q " "%char = true →
  (∀ c, p c = false → q0 c = true → q c = true) →
  ∀ (s : string) (b : bool),
    string_forall q0 s = true → string_forall q (collapse p b s) = true.
Proof.
  intros Hsp Hq. induction s as [|c s IH]; intros b H; [reflexivity|].
  cbn in H. apply andb_prop in H as [Hc Hs]. cbn [collapse].
  destruct (p c) eqn:E.
  - destruct b; cbn [string_forall]; rewrite ?Hsp; apply IH, Hs.
  - cbn [string_forall]. rewrite (Hq c E Hc). apply IH, Hs.
Qed.

Lemma string_forall_true (s : string) : string_forall (fun _ => true) s = true.
Proof. induction s; cbn; auto. Qed.

Lemma collapse_true_head (p : ascii → bool) (s : string) :
  match collapse p true s with
  | String d _ => p d = false
  | EmptyString => True
  end.
Proof.
  induction s as [|c s IH]; cbn [collapse]; [exact I|].
  destruct (p c) eqn:E; [exact IH|exact E].
Qed.

Lemma collapse_adjacent (R : ascii → ascii → bool) (p : ascii → bool) :
  (∀ d, R " "%char d = false) → (∀ c, R c " "%char = false) →
  ∀ (s : string) (b : bool),
    adjacent_free R s = true → adjacent_free R (collapse p b s) = true.
Proof.
  intros Hl Hr. induction s as [|c s IH]; intros b H; [reflexivity|].
  cbn [adjacent_free] in H. apply andb_prop in H as [Hc Hs].
  cbn [collapse]. destruct (p c) eqn:E.
  - destruct b; [apply IH, Hs|].
    cbn [adjacent_free]. rewrite (IH true Hs), andb_true_r.
    destruct (collapse p true s); [reflexivity|]. rewrite Hl. reflexivity.
  - cbn [adjacent_free]. rewrite (IH false Hs), andb_true_r.
    destruct s as [|d s]; [reflexivity|]. cbn [collapse].
    destruct (p d); [rewrite Hr; reflexivity|exact Hc].
Qed.

Lemma collapse_single (p : ascii → bool) :
  ∀ (s : string) (b : bool),
    adjacent_free (fun c d => p c && p d) (collapse p b s) = true.
Proof.
  induction s as [|c s IH]; intros b; [reflexivity|].
  cbn [collapse]. destruct (p c) eqn:E.
  - destruct b; [apply IH|].
    cbn [adjacent_free]. rewrite IH, andb_true_r.
    pose proof (collapse_true_head p s) as Hh.
    destruct (collapse p true s); [reflexivity|]. rewrite Hh, andb_false_r.
    reflexivity.
  - cbn [adjacent_free]. rewrite IH, andb_true_r, E.
    destruct (collapse p false s); reflexivity.
Qed.

Lemma trimStart_adjacent (R : ascii → ascii → bool) (s : string) :
  adjacent_free R s = true → adjacent_free R (Js.trimStart s) = true.
Proof.
  induction s as [|c s IH]; [auto|]. intros H. cbn [Js.trimStart].
  destruct (Js.is_space c); [|exact H].
  cbn [adjacent_free] in H. apply andb_prop in H as [_ Hs]. apply IH, Hs.
Qed.

Lemma trimEnd_cons (s : string) (d : ascii) (t : string) :
  Js.trimEnd s = String d t → ∃ u, s = String d u.
Proof.
  destruct s as [|c s]; [discriminate|]. cbn [Js.trimEnd].
  destruct (Js.trimEnd s); [destruct (Js.is_space c)|];
    intros H; inversion H; eauto.
Qed.

Lemma trimEnd_adjacent (R : ascii → ascii → bool) (s : string) :
  adjacent_free R s = true → adjacent_free R (Js.trimEnd s) = true.
Proof.
  induction s as [|c s IH]; [auto|]. intros H.
  cbn [adjacent_free] in H. apply andb_prop in H as [Hc Hs].
  specialize (IH Hs). cbn [Js.trimEnd].
  destruct (Js.trimEnd s) as [|d t] eqn:E.
  - destruct (Js.is_space c); reflexivity.
  - apply trimEnd_cons in E as [u ->].
    cbn [adjacent_free] in *. rewrite Hc. exact IH.
Qed.

Lemma trim_adjacent (R : ascii → ascii → bool) (s : string) :
  adjacent_free R s = true → adjacent_free R (Js.trim s) = true.
Proof. intros H. apply trimEnd_adjacent, trimStart_adjacent, H. Qed.

Lemma trim_forall (p : ascii → bool) (s : string) :
  string_forall p s = true → string_forall p (Js.trim s) = true.
Proof. intros H. apply trimEnd_forall, trimStart_forall, H. Qed.

Lemma blank_escapes_cons (c d : ascii) (s : string) :
  blank_escapes (String c (String d s))
  = if escape_pair c d then String " " (blank_escapes s)
    else String c (blank_escapes (String d s)).
Proof. reflexivity. Qed.

Lemma blank_escapes_head (d : ascii) (s : string) :
  ∃ x t, blank_escapes (String d s) = String x t ∧ (x = " "%char ∨ x = d).
Proof.
  cbn [blank_escapes]. destruct s as [|e s]; [eauto|].
  destruct (escape_pair d e); eauto.
Qed.

Lemma escape_pair_space_l (d : ascii) : escape_pair " " d = false.
Proof. reflexivity. Qed.

Lemma escape_pair_space_r (c : ascii) : escape_pair c " " = false.
Proof. unfold escape_pair. apply andb_false_r. Qed.

Lemma blank_escapes_free :
  ∀ (s : string),
    adjacent_free escape_pair (blank_escapes s) = true
    ∧ ∀ c, adjacent_free escape_pair (blank_escapes (String c s)) = true.
Proof.
  induction s as [|d s [IH1 IH2]]; [split; reflexivity|].
  split; [apply IH2|]. intros c.
  rewrite blank_escapes_cons.
  destruct (escape_pair c d) eqn:E.
  - cbn [adjacent_free]. rewrite IH1, andb_true_r.
    destruct (blank_escapes s); reflexivity.
  - specialize (IH2 d).
    destruct (blank_escapes_head d s) as (x & t & Hx & [-> | ->]);
      rewrite Hx in IH2 |- *; cbn [adjacent_free] in IH2 |- *;
      rewrite IH2, andb_true_r.
    + rewrite escape_pair_space_r. reflexivity.
    + rewrite E. reflexivity.
Qed.

Lemma cleanMapTitle_is_clean (name : option string) :
  clean_title (cleanMapTitle name).
Proof.
  destruct name as [n|]; [|repeat split].
  rewrite cleanMapTitle_eq. unfold clean_title.
  split; [|split; [|split]].
  - apply trim_forall.
    apply (collapse_forall (fun c => negb (is_control c || is_wide_space c)));
      [reflexivity|auto|].
    apply (collapse_forall (fun c => negb (is_control c))); [reflexivity| |].
    { intros c Hw Hc. apply negb_true_iff in Hc. rewrite Hc, Hw. reflexivity. }
    apply (collapse_forall (fun _ => true)); [reflexivity| |].
    { intros c Hc _. rewrite Hc. reflexivity. }
    apply string_forall_true.
  - apply trim_adjacent.
    do 3 (apply collapse_adjacent;
          [exact escape_pair_space_l|exact escape_pair_space_r|]).
    apply blank_escapes_free.
  - apply trim_adjacent. apply (collapse_single Js.is_space).
  - apply trim_idem.
Qed.

Lemma blank_escapes_id :
  ∀ (s : string),
    (adjacent_free escape_pair s = true → blank_escapes s = s)
    ∧ ∀ c, adjacent_free escape_pair (String c s) = true →
           blank_escapes (String c s) = String c s.
Proof.
  induction s as [|d s [IH1 IH2]]; [split; reflexivity|].
  split; [apply IH2|]. intros c H.
  cbn [adjacent_free] in H. apply andb_prop in H as [Hc Hs].
  apply negb_true_iff in Hc. rewrite blank_escapes_cons, Hc.
  f_equal. apply IH2. exact Hs.
Qed.

Lemma collapse_id (p : ascii → bool) (s : string) :
  string_forall (fun c => negb (p c)) s = true → collapse p false s = s.
Proof.
  induction s as [|c s IH]; cbn; [reflexivity|].
  intros H. apply andb_prop in H as [Hc Hs]. apply negb_true_iff in Hc.
  rewrite Hc, IH by exact Hs. reflexivity.
Qed.

Lemma space_not_control (c : ascii) :
  Js.is_space c = true → is_control c = false → c = " "%char.
Proof.
  destruct c as [[] [] [] [] [] [] [] []]; vm_compute; intros; congruence.
Qed.

Lemma collapse_spaces_id :
  ∀ (s : string),
    string_forall (fun c => negb (is_control c)) s = true →
    adjacent_free space_pair s = true →
    collapse Js.is_space false s = s.
Proof.
  induction s as [|c s IH]; [reflexivity|]. intros Hf Ha.
  cbn in Hf. apply andb_prop in Hf as [Hc Hs].
  cbn [adjacent_free] in Ha. apply andb_prop in Ha as [Hn Ht].
  apply negb_true_iff in Hc. specialize (IH Hs Ht). cbn [collapse].
  destruct (Js.is_space c) eqn:E; [|rewrite IH; reflexivity].
  rewrite (space_not_control c E Hc). f_equal.
  destruct s as [|d s]; [reflexivity|].
  apply negb_true_iff in Hn. unfold space_pair in Hn. rewrite E in Hn.
  cbn [andb] in Hn. cbn [collapse] in *. rewrite Hn in *. exact IH.
Qed.

Lemma string_forall_impl (p q : ascii → bool) (s : string) :
  (∀ c, p c = true → q c = true) →
  string_forall p s = true → string_forall q s = true.
Proof.
  intros Hpq. induction s as [|c s IH]; cbn; [auto|].
  intros H. apply andb_prop in H as [Hc Hs]. rewrite (Hpq c Hc). auto.
Qed.

Lemma clean_title_fixed (t : string) :
  clean_title t → cleanMapTitle (Some t) = t.
Proof.
  intros (Hf & He & Hs & Ht). rewrite cleanMapTitle_eq.
  rewrite (proj1 (blank_escapes_id t) He).
  rewrite (collapse_id is_control), (collapse_id is_wide_space).
  - rewrite collapse_spaces_id; [exact Ht| |exact Hs].
    revert Hf. apply string_forall_impl. intros c H.
    apply negb_true_iff, orb_false_elim in H as [-> _]. reflexivity.
  - revert Hf. apply string_forall_impl. intros c H.
    apply negb_true_iff, orb_false_elim in H as [_ ->]. reflexivity.
  - revert Hf. apply string_forall_impl. intros c H.
    apply negb_true_iff, orb_false_elim in H as [-> _]. reflexivity.
Qed.

Lemma collapse_visible (p : ascii → bool) :
  (∀ c, p c = true → is_blank c = true) →
  ∀ (s : string) (b : bool), visible (collapse p b s) = visible s.
Proof.
  intros Hp. induction s as [|c s IH]; intros b; [reflexivity|].
  cbn [collapse visible]. destruct (p c) eqn:E.
  - rewrite (Hp c E). destruct b; [apply IH|].
    cbn [visible]. change (is_blank " ") with true. cbv iota. apply IH.
  - cbn [visible]. rewrite IH. reflexivity.
Qed.

Lemma space_is_blank (c : ascii) : Js.is_space c = true → is_blank c = true.
Proof. unfold is_blank. intros ->. apply orb_true_r. Qed.

Lemma trimStart_visible (s : string) : visible (Js.trimStart s) = visible s.
Proof.
  induction s as [|c s IH]; [reflexivity|]. cbn [Js.trimStart].
  destruct (Js.is_space c) eqn:E; [|reflexivity].
  cbn [visible]. rewrite (space_is_blank c E). exact IH.
Qed.

Lemma trimEnd_visible (s : string) : visible (Js.trimEnd s) = visible s.
Proof.
  induction s as [|c s IH]; [reflexivity|]. cbn [Js.trimEnd visible].
  destruct (Js.trimEnd s) as [|d t] eqn:Et.
  - rewrite <- IH. cbn [visible].
    destruct (Js.is_space c) eqn:E.
    + rewrite (space_is_blank c E). reflexivity.
    + cbn [visible]. reflexivity.
  - cbn [visible]. rewrite <- IH. reflexivity.
Qed.

Lemma cleanMapTitle_visible (n : string) :
  visible (cleanMapTitle (Some n)) = visible (blank_escapes n).
Proof.
  rewrite cleanMapTitle_eq. unfold Js.trim.
  rewrite trimEnd_visible, trimStart_visible.
  rewrite !collapse_visible; [reflexivity| | |].
  - unfold is_blank. intros c ->. reflexivity.
  - unfold is_blank. intros c ->. rewrite orb_true_r. reflexivity.
  - exact space_is_blank.
Qed.

(** X23.  A title that [cleanMapTitle] returns has nothing left to clean:
    it holds no control character (codes 0 to 31 and 127) and no U+00A0,
    no backslash followed by [n], [r] or [t], no two white-space
    characters in a row and none at either end; this holds for every
    input, a missing name included. *)
Theorem cleanMapTitle_clean (name : option string) :
  let t := cleanMapTitle name in
  string_forall (fun c => negb (is_control c || is_wide_space c)) t = true
  ∧ adjacent_free escape_pair t = true
  ∧ adjacent_free space_pair t = true
  ∧ Js.trim t = t.
Proof. exact (cleanMapTitle_is_clean name). Qed.

(** X24.  [cleanMapTitle] returns a title unchanged exactly when the title
    is clean already, and cleaning twice is the same as cleaning once. *)
Theorem cleanMapTitle_fixed_iff (t : string) :
  (cleanMapTitle (Some t) = t ↔ clean_title t)
  ∧ cleanMapTitle (Some (cleanMapTitle (Some t))) = cleanMapTitle (Some t).
Proof.
  split; [split|].
  - intros H. rewrite <- H. apply cleanMapTitle_is_clean.
  - apply clean_title_fixed.
  - apply clean_title_fixed, cleanMapTitle_is_clean.
Qed.

Lemma cleanMapTitle_fixed_iff_witness :
  cleanMapTitle (Some "The Edge (q2dm1)") = "The Edge (q2dm1)".
Proof.
  destruct (cleanMapTitle_fixed_iff "The Edge (q2dm1)") as [[_ H] _].
  apply H. repeat split.
Defined.

(** X25.  Cleaning loses no visible character: the characters of the
    result that are not blank (control, U+00A0 or white space) are those
    of the input once its escape sequences are blanked, in the same
    order; for an input without such a sequence they are those of the
    input itself. *)
Theorem cleanMapTitle_keeps_visible (n : string) :
  visible (cleanMapTitle (Some n)) = visible (blank_escapes n)
  ∧ (adjacent_free escape_pair n = true →
     visible (cleanMapTitle (Some n)) = visible n).
Proof.
  split; [apply cleanMapTitle_visible|].
  intros H. rewrite cleanMapTitle_visible.
  rewrite (proj1 (blank_escapes_id n) H). reflexivity.
Qed.

Lemma cleanMapTitle_keeps_visible_witness :
  visible (cleanMapTitle (Some "  The   Edge ")) = "TheEdge".
Proof.
  destruct (cleanMapTitle_keeps_visible "  The   Edge ") as [_ H].
  rewrite H; reflexivity.
Defined.
